(** * bottle-launch: a shallow embedding of the bottle lifecycle code

    The development follows the Go sources file by file:
    - [GoStrings], [GoPath], [GoStrconv], [GoBase64], [GoSha256]: the parts of
      the Go standard library the program calls, as executable functions on
      byte strings;
    - [Host]: the outside world (external tools, the file system, the
      working directory) as explicit state, with a log of what was invoked;
    - [Permissions]: permissions.go (config save and load);
    - [Fido2]: the FIDO2 helpers of constants.go;
    - [Bottle]: bottle management (hashing, locator, create, delete);
    - [Mount]: src/mount.go (mount and unmount sequences);
    - [Flatpak]: the sandboxed run of constants.go;
    - [Main]: the command-line entry points of main.go;
    - [Commands]: src/commands.go (what the interface's commands answer).

    Go strings are byte sequences; they are modelled by [string], one
    [ascii] per byte. *)

From Stdlib Require Import String Ascii List ZArith NArith Lia Bool.
From stdpp Require Import base gmap strings pretty.
Import ListNotations.

(** ** Characters used below that cannot be written literally. *)

Definition TAB : ascii := "009"%char.
Definition LF : ascii := "010"%char.
Definition VT : ascii := "011"%char.
Definition FF : ascii := "012"%char.
Definition CR : ascii := "013"%char.
Definition DQ : ascii := "034"%char.
Definition BSL : ascii := "092"%char.

Definition byte_of (n : N) : ascii := ascii_of_N n.
Definition code (c : ascii) : N := N_of_ascii c.

(** [s1 ++ s2] on strings unfolds one character at a time. *)
Lemma append_nil (t : string) : EmptyString +:+ t = t.
Proof. reflexivity. Qed.

Lemma append_cons (c : ascii) (s t : string) :
  String c s +:+ t = String c (s +:+ t).
Proof. reflexivity. Qed.

Lemma append_nil_r (s : string) : s +:+ EmptyString = s.
Proof. induction s as [|c s IH]; [reflexivity|]. rewrite append_cons, IH. reflexivity. Qed.

Lemma append_assoc (s t u : string) : (s +:+ t) +:+ u = s +:+ (t +:+ u).
Proof.
  induction s as [|c s IH]; [reflexivity|].
  rewrite !append_cons, IH. reflexivity.
Qed.

Lemma length_append (s t : string) :
  String.length (s +:+ t) = String.length s + String.length t.
Proof.
  induction s as [|c s IH]; [reflexivity|].
  rewrite append_cons. simpl. rewrite IH. reflexivity.
Qed.

(** ** Go's [strings] package *)
Module GoStrings.

(** [strings.HasPrefix]; [stripPrefix] also returns what follows. *)
Fixpoint stripPrefix (p s : string) : option string :=
  match p with
  | EmptyString => Some s
  | String a p' =>
      match s with
      | EmptyString => None
      | String b s' => if Ascii.eqb a b then stripPrefix p' s' else None
      end
  end.

Definition HasPrefix (s p : string) : bool :=
  match stripPrefix p s with Some _ => true | None => false end.

(** [strings.Contains s sub]. *)
Fixpoint Contains (s sub : string) : bool :=
  HasPrefix s sub ||
  match s with
  | EmptyString => false
  | String _ s' => Contains s' sub
  end.

(** [s[:n]] and [s[n:]]. *)
Fixpoint take (n : nat) (s : string) : string :=
  match n, s with
  | S n', String c s' => String c (take n' s')
  | _, _ => EmptyString
  end.

Fixpoint drop (n : nat) (s : string) : string :=
  match n, s with
  | S n', String _ s' => drop n' s'
  | _, _ => s
  end.

(** [strings.HasSuffix] and [strings.TrimSuffix]. *)
Definition HasSuffix (s suf : string) : bool :=
  (String.length suf <=? String.length s) &&
  String.eqb (drop (String.length s - String.length suf) s) suf.

Definition TrimSuffix (s suf : string) : string :=
  if HasSuffix s suf then take (String.length s - String.length suf) s else s.

(** [strings.Index s ":"] for a one-byte separator: position of the first
    occurrence, [None] for Go's [-1]. *)
Fixpoint IndexByte (s : string) (c : ascii) : option nat :=
  match s with
  | EmptyString => None
  | String b s' =>
      if Ascii.eqb b c then Some 0
      else match IndexByte s' c with Some i => Some (S i) | None => None end
  end.

(** [strings.SplitN s sep 2] for a one-byte separator: [None] when the
    separator does not occur (Go returns a one-element slice), otherwise the
    text before the first separator and the text after it. *)
Fixpoint cut (sep : ascii) (s : string) : option (string * string) :=
  match s with
  | EmptyString => None
  | String c s' =>
      if Ascii.eqb c sep then Some (EmptyString, s')
      else match cut sep s' with
           | Some (a, b) => Some (String c a, b)
           | None => None
           end
  end.

(** [strings.Split s sep] for a one-byte separator: always at least one
    element. *)
Fixpoint Split (sep : ascii) (s : string) : list string :=
  match s with
  | EmptyString => [EmptyString]
  | String c s' =>
      if Ascii.eqb c sep then EmptyString :: Split sep s'
      else match Split sep s' with
           | h :: t => String c h :: t
           | [] => [String c EmptyString]
           end
  end.

(** White space as [unicode.IsSpace] sees it on UTF-8 text: the six ASCII
    characters, U+0085 and U+00A0 (two bytes), and U+1680, U+2000..U+200A,
    U+2028, U+2029, U+202F, U+205F, U+3000 (three bytes).  [spaceWidth s] is
    the number of bytes of the white-space rune [s] starts with, [0] if it
    starts with none.  The lead bytes C2, E1, E2, E3 are never continuation
    bytes, so looking at prefixes agrees with Go's rune-by-rune decoding. *)
Definition isByte (c : ascii) (n : N) : bool := N.eqb (code c) n.

Definition inRange (c : ascii) (lo hi : N) : bool :=
  N.leb lo (code c) && N.leb (code c) hi.

Definition isAsciiSpace (c : ascii) : bool :=
  inRange c 9 13 || isByte c 32.

Definition spaceWidth (s : string) : nat :=
  match s with
  | EmptyString => 0
  | String c r =>
      if isAsciiSpace c then 1
      else match r with
           | String d r' =>
               if isByte c 194 && (isByte d 133 || isByte d 160) then 2
               else match r' with
                    | String e _ =>
                        if isByte c 225 && isByte d 154 && isByte e 128 then 3
                        else if isByte c 226 && isByte d 128 &&
                                (inRange e 128 138 || isByte e 168 ||
                                 isByte e 169 || isByte e 175) then 3
                        else if isByte c 226 && isByte d 129 && isByte e 159 then 3
                        else if isByte c 227 && isByte d 128 && isByte e 128 then 3
                        else 0
                    | EmptyString => 0
                    end
           | EmptyString => 0
           end
  end.

(** A string that is exactly one white-space rune. *)
Definition isSpaceRune (s : string) : bool :=
  (0 <? spaceWidth s) && (spaceWidth s =? String.length s).

Fixpoint trimLeftSpace (s : string) : string :=
  match s with
  | EmptyString => EmptyString
  | String c r =>
      match spaceWidth s, r with
      | 0, _ => s
      | 1, _ => trimLeftSpace r
      | 2, String _ r2 => trimLeftSpace r2
      | _, String _ (String _ r3) => trimLeftSpace r3
      | _, _ => s
      end
  end.

Fixpoint trimRightSpace (s : string) : string :=
  match s with
  | EmptyString => EmptyString
  | String c r =>
      let r' := trimRightSpace r in
      if isSpaceRune (String c r') then EmptyString else String c r'
  end.

(** [strings.TrimSpace]. *)
Definition TrimSpace (s : string) : string := trimRightSpace (trimLeftSpace s).

(** [strings.Trim s cutset] for a one-byte cutset. *)
Fixpoint trimLeftByte (c : ascii) (s : string) : string :=
  match s with
  | EmptyString => EmptyString
  | String b r => if Ascii.eqb b c then trimLeftByte c r else s
  end.

Fixpoint trimRightByte (c : ascii) (s : string) : string :=
  match s with
  | EmptyString => EmptyString
  | String b r =>
      match trimRightByte c r with
      | EmptyString => if Ascii.eqb b c then EmptyString else String b EmptyString
      | r' => String b r'
      end
  end.

Definition Trim (s : string) (c : ascii) : string :=
  trimRightByte c (trimLeftByte c s).

(** [strings.Fields]: the maximal runs of non-white-space bytes. *)
Fixpoint fieldsAux (skip : nat) (cur : string) (s : string) : list string :=
  let flush (l : list string) :=
    match cur with EmptyString => l | _ => String.rev cur :: l end in
  match s with
  | EmptyString => flush []
  | String c r =>
      match skip with
      | S k => fieldsAux k cur r
      | 0 =>
          match spaceWidth s with
          | 0 => fieldsAux 0 (String c cur) r
          | S w => flush (fieldsAux w EmptyString r)
          end
      end
  end.

Definition Fields (s : string) : list string := fieldsAux 0 EmptyString s.

(** [strings.ToLower] on ASCII letters.  The only use compares the result
    with ["true"]; no rune outside ASCII lower-cases to one of t, r, u, e. *)
Definition lowerByte (c : ascii) : ascii :=
  if inRange c 65 90 then byte_of (code c + 32) else c.

Fixpoint ToLower (s : string) : string :=
  match s with
  | EmptyString => EmptyString
  | String c r => String (lowerByte c) (ToLower r)
  end.

(** [strings.Join]. *)
Fixpoint Join (l : list string) (sep : string) : string :=
  match l with
  | [] => EmptyString
  | [x] => x
  | x :: t => x +:+ sep +:+ Join t sep
  end.

End GoStrings.

(** ** Go's [path/filepath] package (Unix) *)
Module GoPath.
Import GoStrings.

Definition IsAbs (path : string) : bool := HasPrefix path "/".

(** One step of [filepath.Clean] on the stack of components kept so far
    (top first): empty and [.] components are dropped, [..] removes the
    component before it, is dropped at the root, and is kept at the start of
    a relative path. *)
Definition cleanStep (rooted : bool) (stack : list string) (comp : string)
  : list string :=
  if String.eqb comp "" || String.eqb comp "." then stack
  else if String.eqb comp ".." then
    match stack with
    | top :: rest =>
        if String.eqb top ".." then comp :: stack else rest
    | [] => if rooted then [] else [comp]
    end
  else comp :: stack.

Definition cleanComps (rooted : bool) (comps : list string) : list string :=
  rev (fold_left (cleanStep rooted) comps []).

(** [filepath.Clean]. *)
Definition Clean (path : string) : string :=
  if String.eqb path "" then "."
  else
    let rooted := IsAbs path in
    let body := Join (cleanComps rooted (Split "/" path)) "/" in
    if rooted then "/" +:+ body
    else if String.eqb body "" then "." else body.

(** [filepath.Join]: empty elements are ignored, the rest is joined with
    the separator and cleaned; the result is empty when every element is. *)
Definition JoinPath (elems : list string) : string :=
  match List.filter (fun e => negb (String.eqb e "")) elems with
  | [] => ""
  | l => Clean (Join l "/")
  end.

(** [filepath.Abs], given the result of [os.Getwd] ([None] when it fails,
    the only way [Abs] fails). *)
Definition Abs (wd : option string) (path : string) : option string :=
  if IsAbs path then Some (Clean path)
  else match wd with
       | Some d => Some (JoinPath [d; path])
       | None => None
       end.

(** The text after the last separator, and the text up to and including
    it. *)
Fixpoint afterLastSlash (s : string) : string :=
  match s with
  | EmptyString => EmptyString
  | String c r =>
      if Contains r "/" then afterLastSlash r
      else if Ascii.eqb c "/" then r else s
  end.

Definition uptoLastSlash (s : string) : string :=
  take (String.length s - String.length (afterLastSlash s)) s.

(** [filepath.Dir]. *)
Definition Dir (path : string) : string := Clean (uptoLastSlash path).

(** [filepath.Base]. *)
Definition Base (path : string) : string :=
  if String.eqb path "" then "."
  else
    let p := trimRightByte "/" path in
    if String.eqb p "" then "/" else afterLastSlash p.

(** [filepath.Ext]: the suffix starting at the last dot of the last
    element, empty when that element has no dot. *)
Fixpoint Ext (path : string) : string :=
  match path with
  | EmptyString => EmptyString
  | String c r =>
      if Contains r "/" || Contains r "." then Ext r
      else if Ascii.eqb c "." then path else EmptyString
  end.

End GoPath.

(** ** Go's [unicode/utf8] and [strconv.Quote] *)
Module GoStrconv.
Import GoStrings.

(** [utf8.DecodeRuneInString]: the rune and its width in bytes; an invalid
    or truncated encoding gives [(0xFFFD, 1)]. *)
Definition RuneError : N := 65533.

Definition cont (c : ascii) : bool := inRange c 128 191.

Definition low6 (c : ascii) : N := N.land (code c) 63.

Definition DecodeRune (s : string) : N * nat :=
  match s with
  | EmptyString => (RuneError, 0)
  | String b0 r =>
      if N.ltb (code b0) 128 then (code b0, 1)
      else match r with
      | String b1 r1 =>
          if inRange b0 194 223 then
            if cont b1 then (N.lor (N.shiftl (N.land (code b0) 31) 6) (low6 b1), 2)
            else (RuneError, 1)
          else
          let ok1 :=
            if isByte b0 224 then inRange b1 160 191
            else if isByte b0 237 then inRange b1 128 159
            else if isByte b0 240 then inRange b1 144 191
            else if isByte b0 244 then inRange b1 128 143
            else cont b1 in
          if negb ok1 then (RuneError, 1)
          else match r1 with
          | String b2 r2 =>
              if inRange b0 224 239 then
                if cont b2 then
                  (N.lor (N.shiftl (N.land (code b0) 15) 12)
                     (N.lor (N.shiftl (low6 b1) 6) (low6 b2)), 3)
                else (RuneError, 1)
              else if inRange b0 240 244 then
                match r2 with
                | String b3 _ =>
                    if cont b2 && cont b3 then
                      (N.lor (N.shiftl (N.land (code b0) 7) 18)
                         (N.lor (N.shiftl (low6 b1) 12)
                            (N.lor (N.shiftl (low6 b2) 6) (low6 b3))), 4)
                    else (RuneError, 1)
                | EmptyString => (RuneError, 1)
                end
              else (RuneError, 1)
          | EmptyString => (RuneError, 1)
          end
      | EmptyString => (RuneError, 1)
      end
  end.

(** [lowerhex[n]] for [n < 16]. *)
Definition lowerhex (n : N) : ascii :=
  if N.ltb n 10 then byte_of (48 + n) else byte_of (87 + n).

Definition hexByte (n : N) : string :=
  String (lowerhex (N.shiftr n 4)) (String (lowerhex (N.land n 15)) "").

(** [digits k r]: the [k] lowest hexadecimal digits of [r], highest first. *)
Fixpoint hexDigits (k : nat) (r : N) : string :=
  match k with
  | 0 => ""
  | S k' => hexDigits k' (N.shiftr r 4) +:+ String (lowerhex (N.land r 15)) ""
  end.

Section Quote.

(** [strconv.IsPrint] above U+00FF is a table of the Go distribution; it is
    a parameter here. *)
Variable isPrintWide : N -> bool.

Definition IsPrint (r : N) : bool :=
  if N.leb r 255 then
    (N.leb 32 r && N.leb r 126) ||
    (N.leb 161 r && negb (N.eqb r 173))
  else isPrintWide r.

(** [appendEscapedRune] for the double quote, applied to the rune found at
    the head of [s] with width [w] ([take w s] are its bytes). *)
Definition escapedRune (r : N) (w : nat) (s : string) : string :=
  if N.eqb r 34 || N.eqb r 92 then String BSL (String (byte_of r) "")
  else if IsPrint r then take w s
  else if N.eqb r 7 then String BSL "a"
  else if N.eqb r 8 then String BSL "b"
  else if N.eqb r 12 then String BSL "f"
  else if N.eqb r 10 then String BSL "n"
  else if N.eqb r 13 then String BSL "r"
  else if N.eqb r 9 then String BSL "t"
  else if N.eqb r 11 then String BSL "v"
  else if N.ltb r 32 || N.eqb r 127 then String BSL "x" +:+ hexByte r
  else if N.ltb r 65536 then String BSL "u" +:+ hexDigits 4 r
  else String BSL "U" +:+ hexDigits 8 r.

(** The loop of [appendQuotedWith]; [skip] counts the bytes of the current
    rune still to be passed over. *)
Fixpoint quoteLoop (skip : nat) (s : string) : string :=
  match s with
  | EmptyString => EmptyString
  | String b r =>
      match skip with
      | S k => quoteLoop k r
      | 0 =>
          let '(rn, w) := DecodeRune s in
          if (w =? 1) && N.eqb rn RuneError then
            (String BSL "x" +:+ hexByte (code b)) +:+ quoteLoop 0 r
          else escapedRune rn w s +:+ quoteLoop (w - 1) r
      end
  end.

(** [strconv.Quote]. *)
Definition Quote (s : string) : string :=
  String DQ (quoteLoop 0 s +:+ String DQ "").

End Quote.

End GoStrconv.

(** ** The outside world

    Everything the program reaches through [os], [os/exec] and [time] goes
    through this module.  The file system is a finite map from paths to
    contents; external tools and the calls whose failure the program tests
    are answered by a host, which may change its own state and, for tools,
    the files.  Every interaction is appended to a log. *)
Module Host.

(** How a command's output is captured: [CombinedOutput()], [Output()] or
    [Run()]. *)
Inductive Capture := CombinedOutput | Output | Run.

(** [exec.Command(argv...)] with its standard input, if any. *)
Record Cmd := MkCmd {
  argv : list string;
  stdin : option string;
  capture : Capture
}.

(** What a call gives back: whether [err == nil], the captured output, and
    the error text ([stderr] where the program captures it, [err.Error()]
    otherwise). *)
Record Reply := MkReply {
  ok : bool;
  out : string;
  errText : string
}.

Inductive Event :=
| EvExec (c : Cmd) (r : Reply)
| EvLookPath (name : string)
| EvGetwd
| EvMkdirAll (path : string)
| EvStat (path : string)
| EvOpen (path : string)
| EvCreateTemp (dir pattern : string)
| EvChmod (path : string)
| EvWriteString (path data : string)
| EvSync (path : string)
| EvRename (from to : string)
| EvRemove (path : string)
| EvSleep (ms : N).

Class Host (E : Type) := {
  (** an external tool: its reply, and what it did to the files *)
  tool : Cmd -> gmap string string -> E -> Reply * gmap string string * E;
  (** the calls whose outcome is the host's choice: [LookPath], [Getwd],
      [CreateTemp] (the reply's [out] is the name), [WriteString], [Sync],
      [Rename] *)
  sys : Event -> E -> Reply * E
}.

Record St (E : Type) := MkSt {
  files : gmap string string;
  env : E;
  log : list Event
}.
Arguments MkSt {E}.
Arguments files {E}.
Arguments env {E}.
Arguments log {E}.

Definition M (E A : Type) : Type := St E -> A * St E.

Definition ret {E A} (a : A) : M E A := fun s => (a, s).

Definition bind {E A B} (m : M E A) (k : A -> M E B) : M E B :=
  fun s => let '(a, s') := m s in k a s'.

Declare Scope host_scope.
Delimit Scope host_scope with host.
Notation "x <- m ;; k" := (bind m (fun x => k))
  (at level 100, m at next level, right associativity) : host_scope.
Notation "m ;;; k" := (bind m (fun _ => k))
  (at level 100, right associativity) : host_scope.
Local Open Scope host_scope.

(** Go's [error] values of this program.  The sentinels are package
    variables compared by identity; the others are fresh values:
    [fmtError] is [fmt.Errorf] without [%w], [wrapError] with it, and
    [corruptInputError] is base64's [CorruptInputError] (the byte offset it
    carries is left out). *)
Inductive error :=
| errWrongPassword
| mountError (op msg : string)
| errBottlePathRequired
| errSizeRequired
| errBottleExists
| errBottleMounted
| bottleError (op msg : string)
| osError (msg : string)
| fmtError (msg : string)
| corruptInputError
| wrapError (prefix : string) (cause : error).

(** The [Error()] method. *)
Fixpoint Error (e : error) : string :=
  match e with
  | errWrongPassword => "unlock: wrong password"
  | mountError op msg => op +:+ ": " +:+ msg
  | errBottlePathRequired => "bottle: path required"
  | errSizeRequired => "bottle: size required"
  | errBottleExists => "bottle: already exists"
  | errBottleMounted => "bottle: currently mounted - close any running apps first"
  | bottleError op msg => op +:+ ": " +:+ msg
  | osError msg => msg
  | fmtError msg => msg
  | corruptInputError => "illegal base64 data"
  | wrapError prefix cause => prefix +:+ Error cause
  end.

(** A Go result pair [(v, err)]. *)
Inductive result (A : Type) :=
| Ok (a : A)
| Err (e : error).
Arguments Ok {A}.
Arguments Err {A}.

Section Primitives.
Context {E : Type} `{Host E}.

Definition record (ev : Event) (s : St E) : list Event := log s ++ [ev].

(** Run an external command. *)
Definition exec (c : Cmd) : M E Reply := fun s =>
  let '(r, f, e) := tool c (files s) (env s) in
  (r, MkSt f e (record (EvExec c r) s)).

(** A call answered by the host. *)
Definition ask (ev : Event) : M E Reply := fun s =>
  let '(r, e) := sys ev (env s) in
  (r, MkSt (files s) e (record ev s)).

(** A call with no result the program looks at. *)
Definition note (ev : Event) : M E unit := fun s =>
  (tt, MkSt (files s) (env s) (record ev s)).

Definition LookPath (name : string) : M E bool :=
  r <- ask (EvLookPath name) ;; ret (ok r).

Definition MkdirAll (path : string) : M E unit := note (EvMkdirAll path).
Definition Chmod (path : string) : M E unit := note (EvChmod path).
Definition Sleep (ms : N) : M E unit := note (EvSleep ms).

(** [os.Stat]: [true] when [err == nil]. *)
Definition Stat (path : string) : M E bool := fun s =>
  (bool_decide (is_Some (files s !! path)),
   MkSt (files s) (env s) (record (EvStat path) s)).

(** [os.Open] followed by reading the whole file. *)
Definition ReadFile (path : string) : M E (option string) := fun s =>
  (files s !! path, MkSt (files s) (env s) (record (EvOpen path) s)).

(** [os.Remove]: the file is gone afterwards; it fails when there was
    none. *)
Definition Remove (path : string) : M E (option error) := fun s =>
  (match files s !! path with
   | Some _ => None
   | None => Some (osError "no such file or directory")
   end,
   MkSt (delete path (files s)) (env s) (record (EvRemove path) s)).

(** [os.CreateTemp]: a new empty file under a name of the host's choice;
    it never reuses an existing name. *)
Definition CreateTemp (dir pattern : string) : M E (result string) := fun s =>
  let '(r, e) := sys (EvCreateTemp dir pattern) (env s) in
  let lg := record (EvCreateTemp dir pattern) s in
  if ok r then
    match files s !! out r with
    | None => (Ok (out r), MkSt (<[out r := ""]> (files s)) e lg)
    | Some _ => (Err (osError "file exists"), MkSt (files s) e lg)
    end
  else (Err (osError (errText r)), MkSt (files s) e lg).

(** [f.WriteString] and [f.Write]: append to the file. *)
Definition WriteString (path data : string) : M E (option error) := fun s =>
  let '(r, e) := sys (EvWriteString path data) (env s) in
  let lg := record (EvWriteString path data) s in
  if ok r then
    match files s !! path with
    | Some old => (None, MkSt (<[path := old +:+ data]> (files s)) e lg)
    | None => (Some (osError "file already closed"), MkSt (files s) e lg)
    end
  else (Some (osError (errText r)), MkSt (files s) e lg).

Definition Sync (path : string) : M E (option error) :=
  r <- ask (EvSync path) ;;
  ret (if ok r then None else Some (osError (errText r))).

(** [os.Rename]: replaces the target. *)
Definition Rename (from to : string) : M E (option error) := fun s =>
  let '(r, e) := sys (EvRename from to) (env s) in
  let lg := record (EvRename from to) s in
  if ok r then
    match files s !! from with
    | Some data =>
        (None, MkSt (<[to := data]> (delete from (files s))) e lg)
    | None => (Some (osError "no such file or directory"), MkSt (files s) e lg)
    end
  else (Some (osError (errText r)), MkSt (files s) e lg).

(** [os.Open] on a directory followed by [Sync] and [Close], as done after
    a rename; nothing the program looks at. *)
Definition syncDir (dir : string) : M E unit :=
  r <- ask (EvOpen dir) ;;
  if ok r then note (EvSync dir) else ret tt.

(** [filepath.Abs]: asks for the working directory only for a relative
    path. *)
Definition AbsM (path : string) : M E (result string) :=
  if GoPath.IsAbs path then ret (Ok (GoPath.Clean path))
  else
    r <- ask EvGetwd ;;
    ret (if ok r then Ok (GoPath.JoinPath [out r; path])
         else Err (osError (errText r))).

End Primitives.

(** The commands an event log contains. *)
Definition commands (l : list Event) : list Cmd :=
  omap (fun ev => match ev with EvExec c _ => Some c | _ => None end) l.

End Host.

(** ** [bufio.Scanner] with the default split function [ScanLines] *)
Module GoBufio.
Import GoStrings.

(** [bufio.MaxScanTokenSize]: a line and its newline must fit in a buffer
    of this size. *)
Definition MaxScanTokenSize : N := 65536.

(** [dropCR]: a line loses one trailing carriage return. *)
Fixpoint dropCR (s : string) : string :=
  match s with
  | EmptyString => EmptyString
  | String c EmptyString => if Ascii.eqb c CR then EmptyString else s
  | String c r => String c (dropCR r)
  end.

(** The tokens [Scan] yields for the text pieces between newlines: it stops
    for good at the first piece that does not fit; a last piece is only a
    line when it is not empty. *)
Fixpoint scanPieces (pieces : list string) : list string :=
  match pieces with
  | [] => []
  | [last] =>
      if String.eqb last "" then []
      else if N.ltb (N.of_nat (String.length last)) MaxScanTokenSize
           then [dropCR last] else []
  | p :: rest =>
      if N.ltb (N.of_nat (String.length p)) MaxScanTokenSize
      then dropCR p :: scanPieces rest else []
  end.

(** All the lines a [for scanner.Scan()] loop sees. *)
Definition scanLines (content : string) : list string :=
  scanPieces (Split LF content).

End GoBufio.

(** ** permissions.go *)
Module Permissions.
Import GoStrings Host.
Local Open Scope host_scope.

(** The Go distribution's tables used by [strconv.Quote]. *)
Class Unicode := { isPrintWide : N -> bool }.

Record Permissions := MkPermissions {
  Network : bool;
  Audio : bool;
  GPU : bool;
  Wayland : bool;
  X11 : bool;
  Camera : bool;
  Portals : bool;
  LastApp : string;
  FIDO2BottleID : string;
  FIDO2CredentialID : string;
  FIDO2Salt : string;
  FIDO2DeviceHint : string
}.

Definition defaultPermissions : Permissions :=
  {| Network := true; Audio := true; GPU := true; Wayland := true;
     X11 := true; Camera := false; Portals := false; LastApp := "";
     FIDO2BottleID := ""; FIDO2CredentialID := ""; FIDO2Salt := "";
     FIDO2DeviceHint := "" |}.

(** A permission of the permission screen. *)
Record PermissionDef := MkPermissionDef {
  Name : string;
  Key : string;
  Label : string
}.

Definition permissionDefs : list PermissionDef :=
  [ MkPermissionDef "Network" "n" "Network";
    MkPermissionDef "Audio" "a" "Audio";
    MkPermissionDef "GPU" "g" "GPU";
    MkPermissionDef "Wayland" "w" "Wayland";
    MkPermissionDef "X11" "x" "X11";
    MkPermissionDef "Camera" "c" "Camera";
    MkPermissionDef "Portals" "p" "Portals" ].

(** [IsEnabled]: the index is a Go [int]. *)
Definition IsEnabled (p : Permissions) (index : Z) : bool :=
  match index with
  | 0%Z => Network p
  | 1%Z => Audio p
  | 2%Z => GPU p
  | 3%Z => Wayland p
  | 4%Z => X11 p
  | 5%Z => Camera p
  | 6%Z => Portals p
  | _ => false
  end.

(** [Toggle]: the permission set after the call. *)
Definition Toggle (p : Permissions) (index : Z) : Permissions :=
  let '(MkPermissions n a g w x c po la bid cid sa hint) := p in
  match index with
  | 0%Z => MkPermissions (negb n) a g w x c po la bid cid sa hint
  | 1%Z => MkPermissions n (negb a) g w x c po la bid cid sa hint
  | 2%Z => MkPermissions n a (negb g) w x c po la bid cid sa hint
  | 3%Z => MkPermissions n a g (negb w) x c po la bid cid sa hint
  | 4%Z => MkPermissions n a g w (negb x) c po la bid cid sa hint
  | 5%Z => MkPermissions n a g w x (negb c) po la bid cid sa hint
  | 6%Z => MkPermissions n a g w x c (negb po) la bid cid sa hint
  | _ => p
  end.

(** [Summary]. *)
Definition Summary (p : Permissions) : string :=
  let parts := [] in
  let parts := if Network p then parts ++ ["Network"] else parts in
  let parts := if Audio p then parts ++ ["Audio"] else parts in
  let parts := if GPU p then parts ++ ["GPU"] else parts in
  let parts := if Wayland p then parts ++ ["Wayland"] else parts in
  let parts := if X11 p then parts ++ ["X11"] else parts in
  let parts := if Camera p then parts ++ ["Camera"] else parts in
  let parts := if Portals p then parts ++ ["Portals"] else parts in
  Join parts " ".

(** The [switch key] of [loadPermissions]. *)
Definition assign (p : Permissions) (key val : string) : Permissions :=
  let boolVal := String.eqb val "1" || String.eqb (ToLower val) "true" in
  let strVal := Trim val DQ in
  let '(MkPermissions n a g w x c po la bid cid sa hint) := p in
  if String.eqb key "PREF_NETWORK" then MkPermissions boolVal a g w x c po la bid cid sa hint
  else if String.eqb key "PREF_AUDIO" then MkPermissions n boolVal g w x c po la bid cid sa hint
  else if String.eqb key "PREF_GPU" then MkPermissions n a boolVal w x c po la bid cid sa hint
  else if String.eqb key "PREF_WAYLAND" then MkPermissions n a g boolVal x c po la bid cid sa hint
  else if String.eqb key "PREF_X11" then MkPermissions n a g w boolVal c po la bid cid sa hint
  else if String.eqb key "PREF_CAMERA" then MkPermissions n a g w x boolVal po la bid cid sa hint
  else if String.eqb key "PREF_PORTALS" then MkPermissions n a g w x c boolVal la bid cid sa hint
  else if String.eqb key "PREF_LAST_APP" then MkPermissions n a g w x c po strVal bid cid sa hint
  else if String.eqb key "FIDO2_BOTTLE_ID" then MkPermissions n a g w x c po la strVal cid sa hint
  else if String.eqb key "FIDO2_CREDENTIAL_ID" then MkPermissions n a g w x c po la bid strVal sa hint
  else if String.eqb key "FIDO2_SALT" then MkPermissions n a g w x c po la bid cid strVal hint
  else if String.eqb key "FIDO2_DEVICE_HINT" then MkPermissions n a g w x c po la bid cid sa strVal
  else p.

(** The body of the scanner loop of [loadPermissions] for one line. *)
Definition loadLine (p : Permissions) (text : string) : Permissions :=
  let line := TrimSpace text in
  if String.eqb line "" || HasPrefix line "#" then p
  else
    match cut "=" line with
    | None => p
    | Some (k, v) => assign p (TrimSpace k) (TrimSpace v)
    end.

(** What [loadPermissions] makes of a file's content. *)
Definition parsePermissions (content : string) : Permissions :=
  fold_left loadLine (GoBufio.scanLines content) defaultPermissions.

(** [loadPermissions]: the defaults when the file cannot be opened. *)
Definition loadPermissions {E} `{Host E} (path : string) : M E Permissions :=
  file <- ReadFile path ;;
  match file with
  | None => ret defaultPermissions
  | Some content => ret (parsePermissions content)
  end.

Definition boolToInt (b : bool) : string := if b then "1" else "0".

Section Save.
Context {U : Unicode} {E : Type} `{Host E}.

Definition Quote : string -> string := GoStrconv.Quote isPrintWide.

(** The [lines] slice of [savePermissionsAtomic]. *)
Definition configLines (p : Permissions) : list string :=
  [ "PREF_NETWORK=" +:+ boolToInt (Network p);
    "PREF_AUDIO=" +:+ boolToInt (Audio p);
    "PREF_GPU=" +:+ boolToInt (GPU p);
    "PREF_WAYLAND=" +:+ boolToInt (Wayland p);
    "PREF_X11=" +:+ boolToInt (X11 p);
    "PREF_CAMERA=" +:+ boolToInt (Camera p);
    "PREF_PORTALS=" +:+ boolToInt (Portals p);
    "PREF_LAST_APP=" +:+ Quote (LastApp p) ]
  ++ (if String.eqb (FIDO2BottleID p) "" then []
      else ["FIDO2_BOTTLE_ID=" +:+ Quote (FIDO2BottleID p)])
  ++ (if String.eqb (FIDO2CredentialID p) "" then []
      else ["FIDO2_CREDENTIAL_ID=" +:+ Quote (FIDO2CredentialID p)])
  ++ (if String.eqb (FIDO2Salt p) "" then []
      else ["FIDO2_SALT=" +:+ Quote (FIDO2Salt p)])
  ++ (if String.eqb (FIDO2DeviceHint p) "" then []
      else ["FIDO2_DEVICE_HINT=" +:+ Quote (FIDO2DeviceHint p)]).

(** The write loop: on the first failure the temporary file is closed and
    removed and the error returned. *)
Fixpoint writeLines (tempPath : string) (lines : list string)
  : M E (option error) :=
  match lines with
  | [] => ret None
  | line :: rest =>
      e <- WriteString tempPath (line +:+ String LF "") ;;
      match e with
      | Some err => (Remove tempPath ;;; ret (Some err))
      | None => writeLines tempPath rest
      end
  end.

(** [savePermissionsAtomic]: [None] is Go's [nil]. *)
Definition savePermissionsAtomic (path : string) (p : Permissions)
  : M E (option error) :=
  MkdirAll (GoPath.Dir path) ;;;
  let lines := configLines p in
  t <- CreateTemp (GoPath.Dir path) ".bottle-config-*.tmp" ;;
  match t with
  | Err err => ret (Some err)
  | Ok tempPath =>
      w <- writeLines tempPath lines ;;
      match w with
      | Some err => ret (Some err)
      | None =>
          sy <- Sync tempPath ;;
          match sy with
          | Some err => (Remove tempPath ;;; ret (Some err))
          | None =>
              rn <- Rename tempPath path ;;
              match rn with
              | Some err => (Remove tempPath ;;; ret (Some err))
              | None => (syncDir (GoPath.Dir path) ;;; ret None)
              end
          end
      end
  end.


End Save.

End Permissions.

(** ** The three regular expressions of mount.go *)
Module GoRegexp.
Import GoStrings.

Definition isDigit (c : ascii) : bool := inRange c 48 57.

(** [\s] of Go's regexp syntax: tab, newline, form feed, carriage return,
    space. *)
Definition isReSpace (c : ascii) : bool :=
  isByte c 9 || isByte c 10 || isByte c 12 || isByte c 13 || isByte c 32.

Fixpoint takeWhile (f : ascii -> bool) (s : string) : string :=
  match s with
  | EmptyString => EmptyString
  | String c r => if f c then String c (takeWhile f r) else EmptyString
  end.

(** A match of [lit] followed by one or more characters of class [f],
    anchored at the start of [s]: what follows [lit]. *)
Definition matchHere (lit : string) (f : ascii -> bool) (s : string)
  : option string :=
  match stripPrefix lit s with
  | Some rest =>
      match takeWhile f rest with
      | EmptyString => None
      | run => Some run
      end
  | None => None
  end.

(** The leftmost match. *)
Fixpoint findFirst (lit : string) (f : ascii -> bool) (s : string)
  : option string :=
  match matchHere lit f s with
  | Some run => Some run
  | None =>
      match s with
      | EmptyString => None
      | String _ r => findFirst lit f r
      end
  end.

(** [regexp.MustCompile(`/dev/loop\d+`).FindString]: empty when there is
    no match. *)
Definition findLoopDevice (s : string) : string :=
  match findFirst "/dev/loop" isDigit s with
  | Some digits => "/dev/loop" +:+ digits
  | None => ""
  end.

(** [regexp.MustCompile(`/dev/dm-\d+`).FindString]. *)
Definition findDmDevice (s : string) : string :=
  match findFirst "/dev/dm-" isDigit s with
  | Some digits => "/dev/dm-" +:+ digits
  | None => ""
  end.

(** [regexp.MustCompile(`at (/\S+)`).FindStringSubmatch]: the first group,
    [None] when [len(match) < 2]. *)
Definition findMountPath (s : string) : option string :=
  match findFirst "at /" (fun c => negb (isReSpace c)) s with
  | Some rest => Some ("/" +:+ rest)
  | None => None
  end.

End GoRegexp.

(** ** The device locator of the bottle management file *)
Module Locator.
Import GoStrings Host.
Local Open Scope host_scope.

Section Locator.
Context {E : Type} `{Host E}.

(** [findLoopForFile]. *)
Definition findLoopForFile (bottle : string) : M E string :=
  a <- AbsM bottle ;;
  let realPath := match a with Ok p => p | Err _ => bottle end in
  r <- exec (MkCmd ["losetup"; "-j"; realPath] None Output) ;;
  if negb (ok r) || String.eqb (out r) "" then ret ""
  else
    let line := TrimSpace (out r) in
    match IndexByte line ":" with
    | Some (S idx) => ret (take (S idx) line)
    | _ => ret ""
    end.

(** The loop over the lines in [findCleartextForLoop]. *)
Fixpoint firstCrypt (lines : list string) : string :=
  match lines with
  | [] => ""
  | line :: rest =>
      match Fields line with
      | name :: type :: _ =>
          if String.eqb type "crypt" then "/dev/" +:+ name else firstCrypt rest
      | _ => firstCrypt rest
      end
  end.

(** [findCleartextForLoop]. *)
Definition findCleartextForLoop (loopDev : string) : M E string :=
  r <- exec (MkCmd ["lsblk"; "-nlo"; "NAME,TYPE"; loopDev] None Output) ;;
  if negb (ok r) then ret ""
  else ret (firstCrypt (Split LF (out r))).

(** [findMountForDevice]. *)
Definition findMountForDevice (device : string) : M E string :=
  r <- exec (MkCmd ["lsblk"; "-nlo"; "MOUNTPOINT"; device] None Output) ;;
  if negb (ok r) then ret "" else ret (TrimSpace (out r)).

End Locator.
End Locator.

(** ** [encoding/base64]: [StdEncoding.DecodeString] *)
Module GoBase64.
Import GoStrings.

(** The value of a character of the standard alphabet. *)
Definition sextet (c : ascii) : option N :=
  if inRange c 65 90 then Some (code c - 65)%N
  else if inRange c 97 122 then Some (code c - 71)%N
  else if inRange c 48 57 then Some (code c + 4)%N
  else if isByte c 43 then Some 62%N
  else if isByte c 47 then Some 63%N
  else None.

Definition isPad (c : ascii) : bool := isByte c 61.

(** Carriage returns and newlines are skipped wherever they stand. *)
Fixpoint stripNewlines (s : string) : string :=
  match s with
  | EmptyString => EmptyString
  | String c r =>
      if Ascii.eqb c CR || Ascii.eqb c LF then stripNewlines r
      else String c (stripNewlines r)
  end.

Definition byteAt (v : N) (shift : N) : ascii :=
  byte_of (N.land (N.shiftr v shift) 255).

Definition quantum (a b c d : N) : N :=
  N.lor (N.shiftl a 18) (N.lor (N.shiftl b 12) (N.lor (N.shiftl c 6) d)).

(** Groups of four characters; only the last group may be padded, with one
    or two pad characters, and nothing may follow it.  The encoding is not
    strict: the unused low bits of a padded group are not checked. *)
Fixpoint decodeGroups (s : string) : option string :=
  match s with
  | EmptyString => Some EmptyString
  | String c0 (String c1 (String c2 (String c3 rest))) =>
      match sextet c0, sextet c1 with
      | Some a, Some b =>
          match sextet c2, sextet c3 with
          | Some c, Some d =>
              let v := quantum a b c d in
              match decodeGroups rest with
              | Some tail =>
                  Some (String (byteAt v 16) (String (byteAt v 8)
                          (String (byteAt v 0) tail)))
              | None => None
              end
          | Some c, None =>
              if isPad c3 && String.eqb rest "" then
                let v := quantum a b c 0 in
                Some (String (byteAt v 16) (String (byteAt v 8) ""))
              else None
          | None, _ =>
              if isPad c2 && isPad c3 && String.eqb rest "" then
                let v := quantum a b 0 0 in
                Some (String (byteAt v 16) "")
              else None
          end
      | _, _ => None
      end
  | _ => None
  end.

(** [base64.StdEncoding.DecodeString]: [None] stands for a
    [CorruptInputError]. *)
Definition DecodeString (s : string) : option string :=
  decodeGroups (stripNewlines s).

End GoBase64.

(** ** [crypto/sha256] and [encoding/hex] *)
Module GoSha256.

Local Open Scope N_scope.

Definition mask32 : N := 4294967295.
Definition add32 (x y : N) : N := N.land (x + y) mask32.
Definition rotr (n x : N) : N :=
  N.lor (N.shiftr x n) (N.land (N.shiftl x (32 - n)) mask32).
Definition not32 (x : N) : N := N.lxor x mask32.

Definition Ch (x y z : N) : N := N.lxor (N.land x y) (N.land (not32 x) z).
Definition Maj (x y z : N) : N :=
  N.lxor (N.land x y) (N.lxor (N.land x z) (N.land y z)).
Definition bigSigma0 (x : N) : N := N.lxor (rotr 2 x) (N.lxor (rotr 13 x) (rotr 22 x)).
Definition bigSigma1 (x : N) : N := N.lxor (rotr 6 x) (N.lxor (rotr 11 x) (rotr 25 x)).
Definition smallSigma0 (x : N) : N := N.lxor (rotr 7 x) (N.lxor (rotr 18 x) (N.shiftr x 3)).
Definition smallSigma1 (x : N) : N := N.lxor (rotr 17 x) (N.lxor (rotr 19 x) (N.shiftr x 10)).

(** The first 64 primes. *)
Definition isPrime (n : N) : bool :=
  forallb (fun d => negb (n mod d =? 0))
          (map N.of_nat (seq 2 (N.to_nat n - 2))).
Definition primes : list N :=
  Eval vm_compute in List.filter isPrime (map N.of_nat (seq 2 310)).

(** The integer cube root, one bit at a time from bit [bits - 1] down. *)
Fixpoint cubeRoot (bits : nat) (n r : N) : N :=
  match bits with
  | O => r
  | S b =>
      let r' := r + N.shiftl 1 (N.of_nat b) in
      cubeRoot b n (if r' * r' * r' <=? n then r' else r)
  end.

(** The table [_K] of crypto/sha256: the first 32 bits of the fractional
    part of the cube root of each of the first 64 primes. *)
Definition roundConstant (p : N) : N :=
  N.land (cubeRoot 36 (N.shiftl p 96) 0) mask32.
Definition K : list N := Eval vm_compute in map roundConstant primes.

(** The eight working words. *)
Record digest := MkDigest { h0 : N; h1 : N; h2 : N; h3 : N; h4 : N; h5 : N; h6 : N; h7 : N }.

(** The initial words [init0] .. [init7] of crypto/sha256: the first 32
    bits of the fractional part of the square root of each of the first
    eight primes. *)
Definition initConstant (p : N) : N := N.land (N.sqrt (N.shiftl p 64)) mask32.
Definition init : digest :=
  Eval vm_compute in
    match map initConstant (firstn 8 primes) with
    | [a; b; c; d; e; f; g; h] => MkDigest a b c d e f g h
    | _ => MkDigest 0 0 0 0 0 0 0 0
    end.

Definition nthN (l : list N) (i : nat) : N := nth i l 0.

(** The message schedule: [w] holds the words computed so far, latest
    first. *)
Fixpoint schedule (n : nat) (w : list N) : list N :=
  match n with
  | O => w
  | S n' =>
      let x := add32 (add32 (smallSigma1 (nthN w 1)) (nthN w 6))
                     (add32 (smallSigma0 (nthN w 14)) (nthN w 15)) in
      schedule n' (x :: w)
  end.

Definition round (d : digest) (kw : N * N) : digest :=
  let '(MkDigest a b c e f g h i) := d in
  let t1 := add32 (add32 (add32 i (bigSigma1 f)) (add32 (Ch f g h) (fst kw))) (snd kw) in
  let t2 := add32 (bigSigma0 a) (Maj a b c) in
  MkDigest (add32 t1 t2) a b c (add32 e t1) f g h.

(** One 16-word block. *)
Definition block (d : digest) (m : list N) : digest :=
  let w := rev (schedule 48 (rev m)) in
  let '(MkDigest a b c e f g h i) := fold_left round (combine K w) d in
  MkDigest (add32 (h0 d) a) (add32 (h1 d) b) (add32 (h2 d) c) (add32 (h3 d) e)
           (add32 (h4 d) f) (add32 (h5 d) g) (add32 (h6 d) h) (add32 (h7 d) i).

(** Padding: a one bit, zeros, and the length in bits as 64 bits, to a
    multiple of 64 bytes. *)
Definition pad (msg : list N) : list N :=
  let len := N.of_nat (length msg) in
  let zeros := N.to_nat ((119 - len mod 64) mod 64) in
  let bits := len * 8 in
  msg ++ [128] ++ repeat 0 zeros ++
  map (fun i => N.land (N.shiftr bits (8 * i)) 255) [7; 6; 5; 4; 3; 2; 1; 0].

Fixpoint words (bytes : list N) : list N :=
  match bytes with
  | a :: b :: c :: d :: rest =>
      N.lor (N.shiftl a 24) (N.lor (N.shiftl b 16) (N.lor (N.shiftl c 8) d))
      :: words rest
  | _ => []
  end.

Fixpoint blocks (fuel : nat) (d : digest) (ws : list N) : digest :=
  match fuel with
  | O => d
  | S fuel' =>
      match ws with
      | [] => d
      | _ => blocks fuel' (block d (firstn 16 ws)) (skipn 16 ws)
      end
  end.

Definition bytesOf (s : string) : list N := map N_of_ascii (list_ascii_of_string s).

(** [sha256.Sum256]. *)
Definition Sum256 (s : string) : digest :=
  let ws := words (pad (bytesOf s)) in
  blocks (length ws) init ws.

(** [hex.EncodeToString(hash[:])]: eight digits per word. *)
Definition hexWord (w : N) : string := GoStrconv.hexDigits 8 w.

Definition EncodeToString (d : digest) : string :=
  hexWord (h0 d) +:+ hexWord (h1 d) +:+ hexWord (h2 d) +:+ hexWord (h3 d) +:+
  hexWord (h4 d) +:+ hexWord (h5 d) +:+ hexWord (h6 d) +:+ hexWord (h7 d).

End GoSha256.

(** ** The FIDO2 helpers of constants.go *)
Module Fido2.
Import GoStrings Host Permissions.
Local Open Scope host_scope.

Definition DefaultFIDO2RPID : string := "bottle-launch".
Definition DefaultFIDO2User : string := "bottle-user".
Definition fido2RPID : string := DefaultFIDO2RPID.
Definition fido2UserName : string := DefaultFIDO2User.

(** [%v] of a boolean. *)
Definition fmtBool (b : bool) : string := if b then "true" else "false".

(** [IsFIDO2Bottle]: Go's pair [(bool, error)], [None] for [nil]. *)
Definition IsFIDO2Bottle (perms : Permissions) : bool * option error :=
  let hasBottleID := negb (String.eqb (FIDO2BottleID perms) "") in
  let hasCredID := negb (String.eqb (FIDO2CredentialID perms) "") in
  let hasSalt := negb (String.eqb (FIDO2Salt perms) "") in
  if hasBottleID && hasCredID && hasSalt then (true, None)
  else if negb hasBottleID && negb hasCredID && negb hasSalt then (false, None)
  else (false,
        Some (fmtError ("config corrupted: FIDO2 data incomplete (bottle_id=" +:+
                        fmtBool hasBottleID +:+ ", cred_id=" +:+
                        fmtBool hasCredID +:+ ", salt=" +:+
                        fmtBool hasSalt +:+ ")"))).

(** The last element of a non-empty slice, [lines[len(lines)-1]]. *)
Definition lastLine (lines : list string) : string := List.last lines "".

(** The part of [GetFIDO2Secret] after [fido2-assert] has run: from its
    standard output to the secret. *)
Definition parseAssertOutput (stdout : string) : result string :=
  let lines := Split LF (TrimSpace stdout) in
  if length lines <? 5 then
    Err (fmtError ("unexpected fido2-assert output: expected at least 5 lines, got "
                   +:+ pretty (length lines)))
  else
    let hmacSecretB64 := TrimSpace (lastLine lines) in
    match GoBase64.DecodeString hmacSecretB64 with
    | None => Err (wrapError "decode hmac-secret: " corruptInputError)
    | Some secret =>
        if negb (String.length secret =? 32) then
          Err (fmtError ("unexpected hmac-secret length: "
                         +:+ pretty (String.length secret)))
        else Ok secret
    end.

(** An authenticator as [fido2-token -L] lists it. *)
Record FIDO2Device := MkFIDO2Device {
  Path : string;
  Description : string
}.

(** The loop over the lines in [EnumerateFIDO2Devices]: a line is
    [path: description]; [SplitN] always yields a first part. *)
Fixpoint parseDevices (lines : list string) : list FIDO2Device :=
  match lines with
  | [] => []
  | line :: rest =>
      let line := TrimSpace line in
      if String.eqb line "" then parseDevices rest
      else
        match cut ":" line with
        | Some (a, b) =>
            MkFIDO2Device (TrimSpace a) (TrimSpace b) :: parseDevices rest
        | None => MkFIDO2Device (TrimSpace line) "" :: parseDevices rest
        end
  end.

Section Fido2.
Context {E : Type} `{Host E}.

(** The loop of [CheckFIDO2Available]. *)
Fixpoint firstMissing (names : list string) : M E (option error) :=
  match names with
  | [] => ret None
  | name :: rest =>
      found <- LookPath name ;;
      if found then firstMissing rest
      else ret (Some (fmtError (name +:+ " not found - install libfido2")))
  end.

(** [CheckFIDO2Available]. *)
Definition CheckFIDO2Available : M E (option error) :=
  firstMissing ["fido2-token"; "fido2-cred"; "fido2-assert"].

(** [CheckUdisksAvailable]. *)
Definition CheckUdisksAvailable : M E (option error) :=
  found <- LookPath "udisksctl" ;;
  if found then ret None
  else ret (Some (fmtError "udisksctl not found - install udisks2")).

(** [CheckPrivilegeEscalation]. *)
Definition CheckPrivilegeEscalation : M E (option error) :=
  pk <- LookPath "pkexec" ;;
  if pk then ret None
  else
    su <- LookPath "sudo" ;;
    if su then ret None
    else ret (Some (fmtError
           "neither pkexec nor sudo found - cannot create LUKS volume")).

(** [EnumerateFIDO2Devices]. *)
Definition EnumerateFIDO2Devices : M E (result (list FIDO2Device)) :=
  r <- exec (MkCmd ["fido2-token"; "-L"] None Output) ;;
  if negb (ok r) then
    ret (Err (wrapError "fido2-token -L failed: " (osError (errText r))))
  else ret (Ok (parseDevices (Split LF (out r)))).

(** [GetFIDO2Secret]; the temporary input file is removed on every return
    after its creation ([defer os.Remove]). *)
Definition GetFIDO2Secret (device bottleID credID salt : string)
  : M E (result string) :=
  let clientData := bottleID in
  t <- CreateTemp "" "fido2-assert-input-" ;;
  match t with
  | Err err => ret (Err err)
  | Ok name =>
      Chmod name ;;;
      WriteString name (clientData +:+ String LF "" +:+ fido2RPID +:+ String LF ""
                        +:+ credID +:+ String LF "" +:+ salt +:+ String LF "") ;;;
      input <- ReadFile name ;;
      match input with
      | None => (Remove name ;;; ret (Err (osError "no such file or directory")))
      | Some text =>
          r <- exec (MkCmd ["fido2-assert"; "-G"; "-h"; device; "es256"]
                           (Some text) Run) ;;
          Remove name ;;;
          if negb (ok r) then
            ret (Err (fmtError ("fido2-assert failed: " +:+ errText r)))
          else ret (parseAssertOutput (out r))
      end
  end.

(** [privCmd]: the argument vector, [pkexec] when it is installed and
    [sudo] otherwise. *)
Definition privCmd (name : string) (args : list string) : M E (list string) :=
  found <- LookPath "pkexec" ;;
  if found then ret ("pkexec" :: name :: args)
  else ret ("sudo" :: name :: args).

(** [cryptsetupCmd]. *)
Definition cryptsetupCmd (args : list string) : M E (list string) :=
  privCmd "cryptsetup" args.

(** [writeSecretToTempFile]: the path; the cleanup function it returns is
    [Remove path]. *)
Definition writeSecretToTempFile (secret prefix : string)
  : M E (result string) :=
  t <- CreateTemp "" prefix ;;
  match t with
  | Err err => ret (Err err)
  | Ok path =>
      Chmod path ;;;
      WriteString path secret ;;;
      ret (Ok path)
  end.

(** [FormatBottleWithFIDO2]. *)
Definition FormatBottleWithFIDO2 (bottlePath fido2Secret : string)
  : M E (option error) :=
  k <- writeSecretToTempFile fido2Secret "fido2-luks-key-" ;;
  match k with
  | Err err => ret (Some err)
  | Ok keyPath =>
      av <- cryptsetupCmd ["luksFormat"; "--type"; "luks2"; "--batch-mode";
                           "--key-file"; keyPath; bottlePath] ;;
      r <- exec (MkCmd av None Run) ;;
      Remove keyPath ;;;
      if negb (ok r) then ret (Some (fmtError ("luksFormat: " +:+ errText r)))
      else ret None
  end.

(** [OpenLUKSWithFIDO2]. *)
Definition OpenLUKSWithFIDO2 (loopDev mapperName fido2Secret : string)
  : M E (option error) :=
  k <- writeSecretToTempFile fido2Secret "fido2-luks-open-" ;;
  match k with
  | Err err => ret (Some err)
  | Ok keyPath =>
      av <- cryptsetupCmd ["open"; "--key-file"; keyPath; loopDev; mapperName] ;;
      r <- exec (MkCmd av None Run) ;;
      Remove keyPath ;;;
      if negb (ok r) then ret (Some (fmtError ("cryptsetup open: " +:+ errText r)))
      else ret None
  end.

End Fido2.
End Fido2.

(** ** Bottle management: identity, creation, deletion *)
Module Bottle.
Import GoStrings Host Permissions Locator Fido2.
Local Open Scope host_scope.

(** The package variables set by [init] from the environment. *)
Class Dirs := { bottleDir : string; configDir : string }.

(** [getFSLabel]. *)
Definition getFSLabel (bottle : string) : string :=
  let name := TrimSuffix (GoPath.Base bottle) ".bottle" in
  if 16 <? String.length name then take 16 name else name.

(** The hash of an already resolved path: [hex(sha256(realPath))[:12]]. *)
Definition hashPath (realPath : string) : string :=
  take 12 (GoSha256.EncodeToString (GoSha256.Sum256 realPath)).

Section Bottle.
Context {D : Dirs} {U : Unicode} {E : Type} `{Host E}.

(** [getBottleHash]. *)
Definition getBottleHash (bottle : string) : M E string :=
  a <- AbsM bottle ;;
  let realPath := match a with Ok p => p | Err _ => bottle end in
  ret (hashPath realPath).

(** [getMapperName]. *)
Definition getMapperName (bottle : string) : M E string :=
  h <- getBottleHash bottle ;; ret ("bottle-" +:+ h).

(** [getConfigPath]. *)
Definition getConfigPath (bottle : string) : M E string :=
  h <- getBottleHash bottle ;; ret (GoPath.JoinPath [configDir; h +:+ ".conf"]).

(** The first lines of both creation functions: the extension and the
    bottle directory. *)
Definition bottleFile (bottle : string) : string :=
  let bottle := if HasSuffix bottle ".bottle" then bottle
                else bottle +:+ ".bottle" in
  if Contains bottle "/" then bottle
  else GoPath.JoinPath [bottleDir; bottle].

(** [privCmd(...).Run()] with the result ignored. *)
Definition runPriv (name : string) (args : list string) : M E unit :=
  av <- privCmd name args ;; exec (MkCmd av None Run) ;;; ret tt.

(** [createBottleBase]. *)
Definition createBottleBase (bottle size password : string) (interactive : bool)
  : M E (option error) :=
  MkdirAll bottleDir ;;;
  if String.eqb bottle "" then ret (Some errBottlePathRequired)
  else if String.eqb size "" then ret (Some errSizeRequired)
  else
  let bottle := bottleFile bottle in
  exists_ <- Stat bottle ;;
  if exists_ then ret (Some errBottleExists) else
  a <- AbsM bottle ;;
  match a with
  | Err err => ret (Some (bottleError "path" (Error err)))
  | Ok realPath =>
  mapperName <- getMapperName realPath ;;
  tr <- exec (MkCmd ["truncate"; "-s"; size; realPath] None CombinedOutput) ;;
  if negb (ok tr) then ret (Some (bottleError "create file" (out tr))) else
  luksArgv <-
    (if negb (String.eqb password "")
     then cryptsetupCmd ["luksFormat"; "--type"; "luks2"; "--batch-mode"; realPath; "-"]
     else cryptsetupCmd ["luksFormat"; "--type"; "luks2"; realPath]) ;;
  fr <- exec (MkCmd luksArgv
                (if negb (String.eqb password "") then Some password else None)
                CombinedOutput) ;;
  if negb (ok fr) then
    (Remove realPath ;;; ret (Some (bottleError "LUKS format" (out fr))))
  else
  loopArgv <- privCmd "losetup" ["--find"; "--show"; "--"; realPath] ;;
  lr <- exec (MkCmd loopArgv None Output) ;;
  if negb (ok lr) then
    (Remove realPath ;;; ret (Some (bottleError "loop setup" (errText lr))))
  else
  let loopDev := TrimSpace (out lr) in
  openArgv <-
    (if negb (String.eqb password "")
     then cryptsetupCmd ["open"; "--key-file=-"; loopDev; mapperName]
     else cryptsetupCmd ["open"; loopDev; mapperName]) ;;
  opr <- exec (MkCmd openArgv
                 (if negb (String.eqb password "") then Some password else None)
                 CombinedOutput) ;;
  if negb (ok opr) then
    (runPriv "losetup" ["-d"; loopDev] ;;;
     Remove realPath ;;;
     ret (Some (bottleError "LUKS open" (out opr))))
  else
  mkArgv <- privCmd "mkfs.ext4" ["-q"; "-L"; getFSLabel realPath;
                                 "/dev/mapper/" +:+ mapperName] ;;
  mk <- exec (MkCmd mkArgv None CombinedOutput) ;;
  if negb (ok mk) then
    (runPriv "cryptsetup" ["close"; mapperName] ;;;
     runPriv "losetup" ["-d"; loopDev] ;;;
     Remove realPath ;;;
     ret (Some (bottleError "mkfs" (out mk))))
  else
  runPriv "cryptsetup" ["close"; mapperName] ;;;
  runPriv "losetup" ["-d"; loopDev] ;;;
  ret None
  end.

(** [deleteBottle]. *)
Definition deleteBottle (bottle : string) : M E (option error) :=
  loopDev <- findLoopForFile bottle ;;
  if negb (String.eqb loopDev "") then ret (Some errBottleMounted)
  else
    rm <- Remove bottle ;;
    match rm with
    | Some err => ret (Some err)
    | None =>
        cfg <- getConfigPath bottle ;;
        Remove cfg ;;;
        ret None
    end.

(** [CreateBottleWithYubiKey]. *)
Definition CreateBottleWithYubiKey
  (bottle size fido2Secret bottleID credID salt deviceHint : string)
  : M E (option error) :=
  if String.eqb bottle "" then ret (Some errBottlePathRequired)
  else if String.eqb size "" then ret (Some errSizeRequired)
  else if negb (String.length fido2Secret =? 32) then
    ret (Some (bottleError "fido2" "invalid secret length"))
  else
  let bottle := bottleFile bottle in
  exists_ <- Stat bottle ;;
  if exists_ then ret (Some errBottleExists) else
  a <- AbsM bottle ;;
  match a with
  | Err err => ret (Some (bottleError "path" (Error err)))
  | Ok realPath =>
  mapperName <- getMapperName realPath ;;
  configPath <- getConfigPath realPath ;;
  tr <- exec (MkCmd ["truncate"; "-s"; size; realPath] None CombinedOutput) ;;
  if negb (ok tr) then ret (Some (bottleError "create file" (out tr))) else
  let perms :=
    {| Network := true; Audio := true; GPU := true; Wayland := true;
       X11 := true; Camera := false; Portals := false; LastApp := "";
       FIDO2BottleID := bottleID; FIDO2CredentialID := credID;
       FIDO2Salt := salt; FIDO2DeviceHint := deviceHint |} in
  sv <- savePermissionsAtomic configPath perms ;;
  match sv with
  | Some err =>
      (Remove realPath ;;; ret (Some (bottleError "save config" (Error err))))
  | None =>
  fm <- FormatBottleWithFIDO2 realPath fido2Secret ;;
  match fm with
  | Some err => (Remove realPath ;;; Remove configPath ;;; ret (Some err))
  | None =>
  loopArgv <- privCmd "losetup" ["--find"; "--show"; "--"; realPath] ;;
  lr <- exec (MkCmd loopArgv None Output) ;;
  if negb (ok lr) then
    (Remove realPath ;;; Remove configPath ;;;
     ret (Some (bottleError "loop setup" (errText lr))))
  else
  let loopDev := TrimSpace (out lr) in
  op <- OpenLUKSWithFIDO2 loopDev mapperName fido2Secret ;;
  match op with
  | Some err =>
      (runPriv "losetup" ["-d"; loopDev] ;;;
       Remove realPath ;;; Remove configPath ;;; ret (Some err))
  | None =>
  mkArgv <- privCmd "mkfs.ext4" ["-q"; "-L"; getFSLabel realPath;
                                 "/dev/mapper/" +:+ mapperName] ;;
  mk <- exec (MkCmd mkArgv None CombinedOutput) ;;
  if negb (ok mk) then
    (runPriv "cryptsetup" ["close"; mapperName] ;;;
     runPriv "losetup" ["-d"; loopDev] ;;;
     Remove realPath ;;; Remove configPath ;;;
     ret (Some (bottleError "mkfs" (out mk))))
  else
  runPriv "cryptsetup" ["close"; mapperName] ;;;
  runPriv "losetup" ["-d"; loopDev] ;;;
  ret None
  end end end end.

End Bottle.
End Bottle.

(** ** src/mount.go *)
Module Mount.
Import GoStrings GoRegexp Host Locator Fido2.
Local Open Scope host_scope.

Record MountInfo := MkMountInfo {
  LoopDevice : string;
  CleartextDevice : string;
  MountPoint : string;
  BottlePath : string
}.

Definition UnmountRetryCount : nat := 3.
(** [UnmountRetryDelay], in milliseconds. *)
Definition UnmountRetryDelay : N := 500.

Definition isEmpty (s : string) : bool := String.eqb s "".

Definition withLoop (info : MountInfo) (dev : string) : MountInfo :=
  MkMountInfo dev (CleartextDevice info) (MountPoint info) (BottlePath info).
Definition withCleartext (info : MountInfo) (dev : string) : MountInfo :=
  MkMountInfo (LoopDevice info) dev (MountPoint info) (BottlePath info).
Definition withMountPoint (info : MountInfo) (mp : string) : MountInfo :=
  MkMountInfo (LoopDevice info) (CleartextDevice info) mp (BottlePath info).

(** The commands of the two mount functions. *)
Definition loopSetupCmd (realPath : string) : Cmd :=
  MkCmd ["udisksctl"; "loop-setup"; "-f"; realPath] None CombinedOutput.

Definition unlockCmd (password loopDev : string) : Cmd :=
  if negb (isEmpty password) then
    MkCmd ["udisksctl"; "unlock"; "-b"; loopDev; "--key-file"; "/dev/stdin"]
          (Some password) CombinedOutput
  else MkCmd ["udisksctl"; "unlock"; "-b"; loopDev] None CombinedOutput.

Definition unlockKeyFileCmd (keyPath loopDev : string) : Cmd :=
  MkCmd ["udisksctl"; "unlock"; "-b"; loopDev; "--key-file"; keyPath]
        None CombinedOutput.

Definition mountCmd (device : string) : Cmd :=
  MkCmd ["udisksctl"; "mount"; "-b"; device; "--options"; "nodev,nosuid,noexec"]
        None CombinedOutput.

Definition lockCmd (loopDev : string) : Cmd :=
  MkCmd ["udisksctl"; "lock"; "-b"; loopDev] None CombinedOutput.

(** The test on the unlock diagnostic, the same in both functions. *)
Definition wrongKeyText (outStr : string) : bool :=
  Contains outStr "Failed to activate device" ||
  Contains outStr "No key available" ||
  Contains outStr "passphrase".

(** The test on the mount diagnostic. *)
Definition staleText (outStr : string) : bool :=
  Contains outStr "Error looking up object for device".

Definition errWrongYubiKey : error :=
  mountError "unlock" "wrong YubiKey - use the key that created this bottle".

(** The end of both mount blocks: the mount point from the tool's text. *)
Definition parseMountPoint (info : MountInfo) (outStr : string)
  : result MountInfo :=
  match findMountPath outStr with
  | None => Err (mountError "mount" "could not parse mount point")
  | Some m => Ok (withMountPoint info (TrimSuffix m "."))
  end.

Section Mount.
Context {E : Type} `{Host E}.

(** "Check if already mounted": what the locator finds for the file. *)
Definition checkMounted (realPath : string) : M E MountInfo :=
  loopDev <- findLoopForFile realPath ;;
  if negb (isEmpty loopDev) then
    clear <- findCleartextForLoop loopDev ;;
    if negb (isEmpty clear) then
      mp <- findMountForDevice clear ;;
      ret (MkMountInfo loopDev clear mp realPath)
    else ret (MkMountInfo loopDev "" "" realPath)
  else ret (MkMountInfo "" "" "" realPath).

(** "Setup loop device if needed". *)
Definition setupLoop (info : MountInfo) : M E (result MountInfo) :=
  if isEmpty (LoopDevice info) then
    r <- exec (loopSetupCmd (BottlePath info)) ;;
    if negb (ok r) then ret (Err (mountError "loop-setup" (out r)))
    else
      let m := findLoopDevice (out r) in
      if isEmpty m then
        ret (Err (mountError "loop-setup" "could not parse loop device"))
      else ret (Ok (withLoop info m))
  else ret (Ok info).

(** "Unlock if needed" of [udisksMountBottle]. *)
Definition unlockIfNeeded (info : MountInfo) (password : string)
  : M E (result MountInfo) :=
  if isEmpty (CleartextDevice info) then
    r <- exec (unlockCmd password (LoopDevice info)) ;;
    if negb (ok r) then
      let outStr := out r in
      if wrongKeyText outStr then ret (Err errWrongPassword)
      else ret (Err (mountError "unlock" outStr))
    else
      let m := findDmDevice (out r) in
      if isEmpty m then
        ret (Err (mountError "unlock" "could not parse cleartext device"))
      else ret (Ok (withCleartext info m))
  else ret (Ok info).

(** "Mount if needed" of [udisksMountBottle], with the recovery from a
    stale device-mapper record. *)
Definition mountIfNeeded (info : MountInfo) (password : string)
  : M E (result MountInfo) :=
  if isEmpty (MountPoint info) then
    r <- exec (mountCmd (CleartextDevice info)) ;;
    if negb (ok r) then
      let outStr := out r in
      if staleText outStr && negb (isEmpty (LoopDevice info)) then
        exec (lockCmd (LoopDevice info)) ;;;
        r2 <- exec (unlockCmd password (LoopDevice info)) ;;
        if negb (ok r2) then ret (Err (mountError "unlock" (out r2)))
        else
          let m := findDmDevice (out r2) in
          if isEmpty m then
            ret (Err (mountError "unlock" "could not parse cleartext device"))
          else
            let info := withCleartext info m in
            r3 <- exec (mountCmd (CleartextDevice info)) ;;
            if negb (ok r3) then ret (Err (mountError "mount" (out r3)))
            else ret (parseMountPoint info (out r3))
      else ret (Err (mountError "mount" outStr))
    else ret (parseMountPoint info (out r))
  else ret (Ok info).

(** [udisksMountBottle]. *)
Definition udisksMountBottle (bottle password : string)
  : M E (result MountInfo) :=
  a <- AbsM bottle ;;
  match a with
  | Err err => ret (Err err)
  | Ok realPath =>
      info <- checkMounted realPath ;;
      if negb (isEmpty (MountPoint info)) then ret (Ok info)
      else
        l <- setupLoop info ;;
        match l with
        | Err err => ret (Err err)
        | Ok info =>
            u <- unlockIfNeeded info password ;;
            match u with
            | Err err => ret (Err err)
            | Ok info => mountIfNeeded info password
            end
        end
  end.

(** The retry loop of [udisksUnmountBottle]: [n] iterations are left, [i]
    is the loop counter; the result is [(lastOut, lastErr == nil)]. *)
Fixpoint lockRetry (loopDev : string) (n i : nat) (last : string * bool)
  : M E (string * bool) :=
  match n with
  | O => ret last
  | S n' =>
      (if 0 <? i then Sleep UnmountRetryDelay else ret tt) ;;;
      r <- exec (lockCmd loopDev) ;;
      if ok r then ret (out r, true)
      else lockRetry loopDev n' (S i) (out r, false)
  end.

(** [udisksUnmountBottle]; [None] as argument is the nil pointer. *)
Definition udisksUnmountBottle (info : option MountInfo) : M E (option error) :=
  match info with
  | None => ret None
  | Some info =>
      (if negb (isEmpty (MountPoint info)) then
         exec (MkCmd ["sync"; "-f"; MountPoint info] None Run) ;;; ret tt
       else ret tt) ;;;
      um <-
        (if negb (isEmpty (CleartextDevice info)) then
           r <- exec (MkCmd ["udisksctl"; "unmount"; "-b"; CleartextDevice info]
                            None CombinedOutput) ;;
           if negb (ok r) then
             r2 <- exec (MkCmd ["udisksctl"; "unmount"; "-b";
                                CleartextDevice info; "--force"]
                               None CombinedOutput) ;;
             if negb (ok r2) then
               ret (Some (mountError "unmount"
                            (out r +:+ "; force: " +:+ out r2)))
             else ret None
           else ret None
         else ret None) ;;
      match um with
      | Some err => ret (Some err)
      | None =>
          lk <-
            (if negb (isEmpty (LoopDevice info)) then
               l <- lockRetry (LoopDevice info) UnmountRetryCount 0 ("", true) ;;
               if negb (snd l) then ret (Some (mountError "lock" (fst l)))
               else ret None
             else ret None) ;;
          match lk with
          | Some err => ret (Some err)
          | None =>
              if negb (isEmpty (LoopDevice info)) then
                r <- exec (MkCmd ["udisksctl"; "loop-delete"; "-b";
                                  LoopDevice info] None CombinedOutput) ;;
                if negb (ok r) then
                  ret (Some (mountError "loop-delete" (out r)))
                else ret None
              else ret None
          end
      end
  end.

(** The deferred cleanups of [udisksMountBottleFIDO2], run last in first
    out when the function returns. *)
Fixpoint runDeferred (keyPaths : list string) : M E unit :=
  match keyPaths with
  | [] => ret tt
  | p :: rest => Remove p ;;; runDeferred rest
  end.

(** "Unlock with FIDO2 secret using key file"; the second component is the
    key file whose removal has been deferred. *)
Definition unlockIfNeededFIDO2 (info : MountInfo) (fido2Secret : string)
  : M E (result MountInfo * list string) :=
  if isEmpty (CleartextDevice info) then
    k <- writeSecretToTempFile fido2Secret "fido2-unlock-" ;;
    match k with
    | Err err => ret (Err err, [])
    | Ok keyPath =>
        r <- exec (unlockKeyFileCmd keyPath (LoopDevice info)) ;;
        if negb (ok r) then
          let outStr := out r in
          if wrongKeyText outStr then ret (Err errWrongYubiKey, [keyPath])
          else ret (Err (mountError "unlock" outStr), [keyPath])
        else
          let m := findDmDevice (out r) in
          if isEmpty m then
            ret (Err (mountError "unlock" "could not parse cleartext device"),
                 [keyPath])
          else ret (Ok (withCleartext info m), [keyPath])
    end
  else ret (Ok info, []).

(** "Mount if needed" of [udisksMountBottleFIDO2]. *)
Definition mountIfNeededFIDO2 (info : MountInfo) (fido2Secret : string)
  : M E (result MountInfo * list string) :=
  if isEmpty (MountPoint info) then
    r <- exec (mountCmd (CleartextDevice info)) ;;
    if negb (ok r) then
      let outStr := out r in
      if staleText outStr && negb (isEmpty (LoopDevice info)) then
        exec (lockCmd (LoopDevice info)) ;;;
        k <- writeSecretToTempFile fido2Secret "fido2-unlock-" ;;
        match k with
        | Err errKey => ret (Err errKey, [])
        | Ok keyPath =>
            r2 <- exec (unlockKeyFileCmd keyPath (LoopDevice info)) ;;
            if negb (ok r2) then
              ret (Err (mountError "unlock" (out r2)), [keyPath])
            else
              let m := findDmDevice (out r2) in
              if isEmpty m then
                ret (Err (mountError "unlock" "could not parse cleartext device"),
                     [keyPath])
              else
                let info := withCleartext info m in
                r3 <- exec (mountCmd (CleartextDevice info)) ;;
                if negb (ok r3) then
                  ret (Err (mountError "mount" (out r3)), [keyPath])
                else ret (parseMountPoint info (out r3), [keyPath])
        end
      else ret (Err (mountError "mount" outStr), [])
    else ret (parseMountPoint info (out r), [])
  else ret (Ok info, []).

(** [udisksMountBottleFIDO2]. *)
Definition udisksMountBottleFIDO2 (bottle fido2Secret : string)
  : M E (result MountInfo) :=
  a <- AbsM bottle ;;
  match a with
  | Err err => ret (Err err)
  | Ok realPath =>
      info <- checkMounted realPath ;;
      if negb (isEmpty (MountPoint info)) then ret (Ok info)
      else
        l <- setupLoop info ;;
        match l with
        | Err err => ret (Err err)
        | Ok info =>
            u <- unlockIfNeededFIDO2 info fido2Secret ;;
            match u with
            | (Err err, keys1) => (runDeferred keys1 ;;; ret (Err err))
            | (Ok info, keys1) =>
                m <- mountIfNeededFIDO2 info fido2Secret ;;
                runDeferred (snd m ++ keys1) ;;;
                ret (fst m)
            end
        end
  end.

End Mount.
End Mount.

(** ** Flatpak integration: the sandboxed run *)
Module Flatpak.
Import GoStrings Host Permissions.
Local Open Scope host_scope.

(** [buildFlatpakArgs]. *)
Definition buildFlatpakArgs (appID mountPoint : string) (perms : Permissions)
  (extraArgs : list string) : list string :=
  let args := ["run"; "--sandbox"; "--filesystem=" +:+ mountPoint] in
  let args := if Network perms then args ++ ["--share=network"] else args in
  let args := if Audio perms then args ++ ["--socket=pulseaudio"] else args in
  let args := if GPU perms then args ++ ["--device=dri"] else args in
  let args := if Wayland perms then args ++ ["--socket=wayland"] else args in
  let args := if X11 perms then args ++ ["--socket=fallback-x11"] else args in
  let args := if Camera perms then args ++ ["--device=video0"] else args in
  let args :=
    if Portals perms then
      args ++ ["--talk-name=org.freedesktop.portal.Desktop";
               "--talk-name=org.freedesktop.portal.Notification";
               "--talk-name=org.freedesktop.portal.FileChooser"]
    else args in
  let args :=
    args ++ ["--env=GTK_USE_PORTAL=0";
             "--env=HOME=" +:+ mountPoint;
             "--env=XDG_DATA_HOME=" +:+ GoPath.JoinPath [mountPoint; ".local"; "share"];
             "--env=XDG_CONFIG_HOME=" +:+ GoPath.JoinPath [mountPoint; ".config"];
             "--env=XDG_CACHE_HOME=" +:+ GoPath.JoinPath [mountPoint; ".cache"];
             "--env=XDG_DOWNLOAD_DIR=" +:+ GoPath.JoinPath [mountPoint; "Downloads"]] in
  let args := args ++ [appID] in
  args ++ extraArgs.

Section Flatpak.
Context {E : Type} `{Host E}.

(** The loop over [dirs] in [runFlatpakApp]. *)
Fixpoint makeDirs (mountPoint : string) (dirs : list string) : M E unit :=
  match dirs with
  | [] => ret tt
  | dir :: rest =>
      MkdirAll (GoPath.JoinPath [mountPoint; dir]) ;;; makeDirs mountPoint rest
  end.

(** The [flatpak] command of [runFlatpakApp]; it inherits the standard
    streams of the program. *)
Definition flatpakCmd (args : list string) : Cmd :=
  MkCmd ("flatpak" :: args) None Run.

(** [runFlatpakApp]. *)
Definition runFlatpakApp (appID mountPoint : string) (perms : Permissions)
  (extraArgs : list string) : M E (option error) :=
  let dirs := ["Downloads"; ".config"; ".local/share"; ".cache"] in
  makeDirs mountPoint dirs ;;;
  let args := buildFlatpakArgs appID mountPoint perms extraArgs in
  r <- exec (flatpakCmd args) ;;
  ret (if ok r then None else Some (osError (errText r))).

End Flatpak.
End Flatpak.

(** ** src/main.go: the command-line entry points *)
Module Main.
Import GoStrings Host Permissions Bottle Mount Flatpak.
Local Open Scope host_scope.

Section Main.
Context {D : Dirs} {U : Unicode} {E : Type} `{Host E}.

(** [cmdCreate]. *)
Definition cmdCreate (bottle size : string) : M E (option error) :=
  createBottleBase bottle size "" false.

(** [cmdRun]; the deferred unmount runs once the application has
    returned, and its result is dropped. *)
Definition cmdRun (bottle appID : string) (extraArgs : list string)
  : M E (option error) :=
  configPath <- getConfigPath bottle ;;
  perms <- loadPermissions configPath ;;
  m <- udisksMountBottle bottle "" ;;
  match m with
  | Err err => ret (Some err)
  | Ok mountInfo =>
      res <- runFlatpakApp appID (MountPoint mountInfo) perms extraArgs ;;
      udisksUnmountBottle (Some mountInfo) ;;;
      ret res
  end.

End Main.
End Main.

(** ** src/commands.go: the asynchronous commands of the interface *)
Module Commands.
Import GoStrings Host Permissions Fido2 Bottle Mount.
Local Open Scope host_scope.

(** The messages the commands below answer with. *)
Inductive Msg :=
| errMsg (err : error)
| mountSuccessMsg (info : MountInfo)
| mountFailedMsg (err : error) (wrongPassword : bool)
| bottleCreatedMsg (path : string)
| bottleDeletedMsg (path : string)
| fido2DevicesMsg (devices : list FIDO2Device) (err : option error)
| fido2SecretReadyMsg (secret : string) (err : option error)
| fido2BottleCreatedMsg (path : string) (err : option error)
| fido2UnlockSuccessMsg (info : MountInfo)
| fido2UnlockFailedMsg (err : error).

(** [err == errWrongPassword]: the comparison is by identity, so only the
    sentinel passes it. *)
Definition isWrongPassword (err : error) : bool :=
  match err with
  | errWrongPassword => true
  | _ => false
  end.

(** The first lines of [createBottleCmd] and [createBottleYubiKeyCmd]. *)
Definition withBottleExt (name : string) : string :=
  if negb (String.eqb (GoPath.Ext name) ".bottle") then name +:+ ".bottle"
  else name.

Section Commands.
Context {D : Dirs} {U : Unicode} {E : Type} `{Host E}.

(** [mountBottleCmd]: what the returned command answers when run. *)
Definition mountBottleCmd (bottle password : string) : M E Msg :=
  m <- udisksMountBottle bottle password ;;
  match m with
  | Err err =>
      if isWrongPassword err then ret (mountFailedMsg err true)
      else ret (mountFailedMsg err false)
  | Ok info => ret (mountSuccessMsg info)
  end.

(** [createBottleCmd]. *)
Definition createBottleCmd (name size password : string) : M E Msg :=
  let name := withBottleExt name in
  let bottlePath := GoPath.JoinPath [bottleDir; name] in
  err <- createBottleBase bottlePath size password false ;;
  match err with
  | Some e => ret (errMsg e)
  | None => ret (bottleCreatedMsg bottlePath)
  end.

(** [deleteBottleCmd]. *)
Definition deleteBottleCmd (bottle : string) : M E Msg :=
  err <- deleteBottle bottle ;;
  match err with
  | Some e => ret (errMsg e)
  | None => ret (bottleDeletedMsg bottle)
  end.

(** [enumerateFIDO2DevicesCmd]. *)
Definition enumerateFIDO2DevicesCmd : M E Msg :=
  d <- EnumerateFIDO2Devices ;;
  match d with
  | Ok devices => ret (fido2DevicesMsg devices None)
  | Err err => ret (fido2DevicesMsg [] (Some err))
  end.

(** [getFIDO2SecretCmd]. *)
Definition getFIDO2SecretCmd (device bottleID credID salt : string) : M E Msg :=
  g <- GetFIDO2Secret device bottleID credID salt ;;
  match g with
  | Ok secret => ret (fido2SecretReadyMsg secret None)
  | Err err => ret (fido2SecretReadyMsg "" (Some err))
  end.

(** [createBottleYubiKeyCmd]. *)
Definition createBottleYubiKeyCmd
  (name size secret bottleID credID salt device : string) : M E Msg :=
  let name := withBottleExt name in
  let bottlePath := GoPath.JoinPath [bottleDir; name] in
  err <- CreateBottleWithYubiKey bottlePath size secret bottleID credID salt device ;;
  match err with
  | Some e => ret (fido2BottleCreatedMsg "" (Some e))
  | None => ret (fido2BottleCreatedMsg bottlePath None)
  end.

(** [mountBottleFIDO2Cmd]. *)
Definition mountBottleFIDO2Cmd (bottle device bottleID credID salt : string)
  : M E Msg :=
  g <- GetFIDO2Secret device bottleID credID salt ;;
  match g with
  | Err err => ret (fido2UnlockFailedMsg err)
  | Ok secret =>
      m <- udisksMountBottleFIDO2 bottle secret ;;
      match m with
      | Err err => ret (fido2UnlockFailedMsg err)
      | Ok info => ret (fido2UnlockSuccessMsg info)
      end
  end.

End Commands.
End Commands.

(** ** A simulated host

    Used to run the definitions on concrete inputs.  Tools answer from a
    script, one reply per invocation ([truncate] also creates its file);
    the working directory is [/home/u], every tool is on the path, and
    temporary files get numbered names. *)
Module Sim.
Import GoStrings Host.

Record Env := MkEnv {
  script : list Reply;
  counter : nat
}.

Definition good (text : string) : Reply := MkReply true text "".
Definition bad (text : string) : Reply := MkReply false text text.

Definition digit (n : nat) : string :=
  String (byte_of (48 + N.of_nat (n mod 10))) "".

Definition simTool (c : Cmd) (fs : gmap string string) (e : Env)
  : Reply * gmap string string * Env :=
  let r := match script e with r :: _ => r | [] => bad "no reply" end in
  let fs' :=
    match argv c with
    | ["truncate"; "-s"; _; path] => if ok r then <[path := ""]> fs else fs
    | _ => fs
    end in
  (r, fs', MkEnv (tl (script e)) (counter e)).

Definition simSys (ev : Event) (e : Env) : Reply * Env :=
  match ev with
  | EvGetwd => (good "/home/u", e)
  | EvCreateTemp dir pattern =>
      (good (GoPath.JoinPath [if String.eqb dir "" then "/tmp" else dir;
                              pattern +:+ digit (counter e)]),
       MkEnv (script e) (S (counter e)))
  | _ => (good "", e)
  end.

#[global] Instance simHost : Host Env := {| tool := simTool; sys := simSys |}.

#[global] Instance simUnicode : Permissions.Unicode :=
  {| Permissions.isPrintWide := fun _ => false |}.

#[global] Instance simDirs : Bottle.Dirs :=
  {| Bottle.bottleDir := "/home/u/.local/share/bottles";
     Bottle.configDir := "/home/u/.config/bottle-launch" |}.

(** A host whose tools answer by the command alone and change nothing. *)
Definition tableHost (answer : Cmd -> Reply) : Host unit :=
  {| tool := fun c fs e => (answer c, fs, e);
     sys := fun ev e => (match ev with EvGetwd => good "/home/u" | _ => good "" end, e) |}.

Definition start (replies : list Reply) : St Env :=
  MkSt ∅ (MkEnv replies 0) [].

End Sim.

(** * Properties *)

(** Closes a goal about concrete inputs by evaluation. *)
Ltac by_eval :=
  vm_compute;
  first [ reflexivity | let Hq := fresh in intros Hq; discriminate Hq ].

(** ** Running the host monad *)
Section Running.
Import Host.
Context {E : Type} `{Host E}.

Lemma bind_run {A B} (m : M E A) (k : A -> M E B) (s s' : St E) (a : A) :
  m s = (a, s') -> bind m k s = k a s'.
Proof. intros Hm. unfold bind. rewrite Hm. reflexivity. Qed.

Lemma bind_unfold {A B} (m : M E A) (k : A -> M E B) (s : St E) :
  bind m k s = k (fst (m s)) (snd (m s)).
Proof. unfold bind. destruct (m s). reflexivity. Qed.

Lemma exec_log (c : Cmd) (s s' : St E) (r : Reply) :
  exec c s = (r, s') -> log s' = log s ++ [EvExec c r].
Proof.
  unfold exec, record. destruct (tool c (files s) (env s)) as [[r0 f] e].
  intros [= <- <-]. reflexivity.
Qed.

Lemma commands_app (l1 l2 : list Event) :
  commands (l1 ++ l2) = commands l1 ++ commands l2.
Proof. unfold commands. apply omap_app. Qed.

End Running.

Lemma isEmpty_true (s : string) : Mount.isEmpty s = true <-> s = "".
Proof. unfold Mount.isEmpty. apply String.eqb_eq. Qed.

Lemma isEmpty_false (s : string) : Mount.isEmpty s = false <-> s <> "".
Proof. unfold Mount.isEmpty. apply String.eqb_neq. Qed.

(** ** The credential detector *)

(** How many of the three identifying fields are set. *)
Definition fieldsSet (p : Permissions.Permissions) : nat :=
  (if String.eqb (Permissions.FIDO2BottleID p) "" then 0 else 1) +
  (if String.eqb (Permissions.FIDO2CredentialID p) "" then 0 else 1) +
  (if String.eqb (Permissions.FIDO2Salt p) "" then 0 else 1).

(** C4. With one or two of the three fields set, [IsFIDO2Bottle] returns an
    error, so the answer is not "password mode" ([(false, nil)]); with all
    three set it answers [true], with none set [false], both times with a
    [nil] error. *)
Theorem IsFIDO2Bottle_all_or_nothing (p : Permissions.Permissions) :
  (fieldsSet p = 3 -> Fido2.IsFIDO2Bottle p = (true, None)) /\
  (fieldsSet p = 0 -> Fido2.IsFIDO2Bottle p = (false, None)) /\
  (fieldsSet p = 1 \/ fieldsSet p = 2 ->
     (exists msg, Fido2.IsFIDO2Bottle p = (false, Some (Host.fmtError msg)) /\
                  GoStrings.HasPrefix msg "config corrupted" = true) /\
     Fido2.IsFIDO2Bottle p <> (false, None)).
Proof.
  unfold fieldsSet, Fido2.IsFIDO2Bottle.
  destruct (String.eqb (Permissions.FIDO2BottleID p) "");
    destruct (String.eqb (Permissions.FIDO2CredentialID p) "");
    destruct (String.eqb (Permissions.FIDO2Salt p) ""); simpl;
    (split; [|split]); try (intros; discriminate); try reflexivity;
    try (intros [?|?]; discriminate);
    (intros _; split; [eexists; split; reflexivity | discriminate]).
Qed.

Lemma IsFIDO2Bottle_all_or_nothing_witness :
  let partial := Permissions.MkPermissions true true true true true false false
                   "" "Ym90dGxl" "" "c2FsdA==" "" in
  fieldsSet partial = 2 /\
  Fido2.IsFIDO2Bottle partial =
    (false, Some (Host.fmtError
       "config corrupted: FIDO2 data incomplete (bottle_id=true, cred_id=false, salt=true)")) /\
  Fido2.IsFIDO2Bottle partial <> (false, None).
Proof.
  intros partial.
  destruct (IsFIDO2Bottle_all_or_nothing partial) as (_ & _ & Hpart).
  destruct (Hpart (or_intror eq_refl)) as [_ Hne].
  split; [reflexivity|]. split; [reflexivity | exact Hne].
Defined.

(** ** The unmount sequence *)
Section Unmount.
Import Host Mount.
Context {E : Type} `{Host E}.

(** C6. On the nil pointer and on a state whose three device fields are
    empty, [udisksUnmountBottle] returns [nil] and leaves the host exactly
    as it was: no tool is invoked and nothing is added to the log. *)
Theorem unmount_empty_is_noop (info : MountInfo) (s : St E) :
  udisksUnmountBottle None s = (None, s) /\
  (MountPoint info = "" -> CleartextDevice info = "" -> LoopDevice info = "" ->
   udisksUnmountBottle (Some info) s = (None, s)).
Proof.
  split; [reflexivity|].
  intros Hm Hc Hl. unfold udisksUnmountBottle.
  rewrite Hm, Hc, Hl. reflexivity.
Qed.

End Unmount.

Lemma unmount_empty_is_noop_witness :
  let info := Mount.MkMountInfo "" "" "" "/home/u/x.bottle" in
  let s := Sim.start [Sim.bad "must not be asked"] in
  Mount.udisksUnmountBottle None s = (None, s) /\
  Mount.udisksUnmountBottle (Some info) s = (None, s) /\
  Host.log (snd (Mount.udisksUnmountBottle (Some info) s)) = [].
Proof.
  intros info s.
  destruct (unmount_empty_is_noop info s) as [Hnil Hempty].
  split; [exact Hnil|].
  rewrite (Hempty eq_refl eq_refl eq_refl). split; reflexivity.
Defined.

(** ** Classification of unlock failures *)
Section Unlock.
Import Host Mount.
Context {E : Type} `{Host E}.






End Unlock.


(** ** The already-mounted short circuit *)
Section ShortCircuit.
Import Host Locator Mount.
Context {E : Type} `{Host E}.

Definition losetupQuery (path : string) : Cmd :=
  MkCmd ["losetup"; "-j"; path] None Output.
Definition lsblkTypes (loopDev : string) : Cmd :=
  MkCmd ["lsblk"; "-nlo"; "NAME,TYPE"; loopDev] None Output.
Definition lsblkMountPoint (device : string) : Cmd :=
  MkCmd ["lsblk"; "-nlo"; "MOUNTPOINT"; device] None Output.

Lemma AbsM_log (path : string) (s s' : St E) (a : result string) :
  AbsM path s = (a, s') ->
  exists evs, log s' = log s ++ evs /\ commands evs = [].
Proof.
  unfold AbsM. destruct (GoPath.IsAbs path).
  - intros [= <- <-]. exists []. rewrite app_nil_r. auto.
  - unfold bind, ask, ret, record. destruct (sys EvGetwd (env s)) as [r e].
    intros [= <- <-]. exists [EvGetwd]. auto.
Qed.

Lemma findLoopForFile_log (bottle : string) (s s' : St E) (dev : string) :
  findLoopForFile bottle s = (dev, s') ->
  exists p evs, log s' = log s ++ evs /\ commands evs = [losetupQuery p].
Proof.
  unfold findLoopForFile. rewrite bind_unfold.
  destruct (AbsM bottle s) as [a s0] eqn:Ha. simpl.
  destruct (AbsM_log _ _ _ _ Ha) as (evs0 & Hl0 & Hc0).
  rewrite bind_unfold.
  destruct (exec _ s0) as [r s1] eqn:Hx. simpl.
  pose proof (exec_log _ _ _ _ Hx) as Hl1.
  intros Hret. unfold ret in Hret.
  assert (s' = s1) as ->.
  { destruct (negb (ok r) || String.eqb (out r) ""); [congruence|].
    destruct (GoStrings.IndexByte _ _) as [[|idx]|]; congruence. }
  eexists _, (evs0 ++ [_]). rewrite Hl1, Hl0, <- app_assoc. split; [reflexivity|].
  rewrite commands_app, Hc0. reflexivity.
Qed.

Lemma findCleartextForLoop_log (loopDev : string) (s s' : St E) (dev : string) :
  findCleartextForLoop loopDev s = (dev, s') ->
  exists r, log s' = log s ++ [EvExec (lsblkTypes loopDev) r].
Proof.
  unfold findCleartextForLoop. rewrite bind_unfold.
  destruct (exec _ s) as [r s1] eqn:Hx. simpl. unfold ret.
  intros Hret. exists r. unfold lsblkTypes, lsblkMountPoint.
  rewrite <- (exec_log _ _ _ _ Hx).
  destruct (negb (ok r)); congruence.
Qed.

Lemma findMountForDevice_log (device : string) (s s' : St E) (mp : string) :
  findMountForDevice device s = (mp, s') ->
  exists r, log s' = log s ++ [EvExec (lsblkMountPoint device) r].
Proof.
  unfold findMountForDevice. rewrite bind_unfold.
  destruct (exec _ s) as [r s1] eqn:Hx. simpl. unfold ret.
  intros Hret. exists r. unfold lsblkTypes, lsblkMountPoint.
  rewrite <- (exec_log _ _ _ _ Hx).
  destruct (negb (ok r)); congruence.
Qed.

Lemma checkMounted_full (realPath : string) (s s' : St E) (info : MountInfo) :
  checkMounted realPath s = (info, s') ->
  MountPoint info <> "" ->
  LoopDevice info <> "" /\ CleartextDevice info <> "" /\
  BottlePath info = realPath /\
  exists p evs,
    log s' = log s ++ evs /\
    commands evs = [losetupQuery p; lsblkTypes (LoopDevice info);
                    lsblkMountPoint (CleartextDevice info)].
Proof.
  unfold checkMounted. rewrite bind_unfold.
  destruct (findLoopForFile realPath s) as [loopDev s0] eqn:Hl. simpl.
  destruct (findLoopForFile_log _ _ _ _ Hl) as (p & evs0 & Hl0 & Hc0).
  destruct (isEmpty loopDev) eqn:El; simpl;
    [intros [= <- <-] Hm; simpl in Hm; congruence|].
  rewrite bind_unfold.
  destruct (findCleartextForLoop loopDev s0) as [clear s1] eqn:Hc. simpl.
  destruct (findCleartextForLoop_log _ _ _ _ Hc) as (r1 & Hl1).
  destruct (isEmpty clear) eqn:Ec; simpl;
    [intros [= <- <-] Hm; simpl in Hm; congruence|].
  rewrite bind_unfold.
  destruct (findMountForDevice clear s1) as [mp s2] eqn:Hm. simpl.
  destruct (findMountForDevice_log _ _ _ _ Hm) as (r2 & Hl2).
  intros [= <- <-] _. simpl.
  apply isEmpty_false in El, Ec. repeat split; try assumption.
  exists p, (evs0 ++ [EvExec (lsblkTypes loopDev) r1]
                  ++ [EvExec (lsblkMountPoint clear) r2]).
  split.
  - rewrite Hl2, Hl1, Hl0, <- !app_assoc. reflexivity.
  - rewrite commands_app, Hc0. reflexivity.
Qed.

(** The short circuit itself. *)
Lemma mount_short_circuit_once
  (bottle password secret realPath : string) (s s0 s1 : St E) (info : MountInfo) :
  AbsM bottle s = (Ok realPath, s0) ->
  checkMounted realPath s0 = (info, s1) ->
  MountPoint info <> "" ->
  udisksMountBottle bottle password s = (Ok info, s1) /\
  udisksMountBottleFIDO2 bottle secret s = (Ok info, s1) /\
  LoopDevice info <> "" /\ CleartextDevice info <> "" /\
  exists p evs,
    log s1 = log s ++ evs /\
    commands evs = [losetupQuery p; lsblkTypes (LoopDevice info);
                    lsblkMountPoint (CleartextDevice info)].
Proof.
  intros Ha Hc Hm.
  destruct (checkMounted_full _ _ _ _ Hc Hm) as (Hl & Hcl & _ & p & evs & Hlog & Hcmd).
  destruct (AbsM_log _ _ _ _ Ha) as (evs0 & Hlog0 & Hcmd0).
  apply isEmpty_false in Hm.
  repeat split; try assumption.
  - unfold udisksMountBottle. rewrite (bind_run _ _ _ _ _ Ha). simpl.
    rewrite (bind_run _ _ _ _ _ Hc), Hm. reflexivity.
  - unfold udisksMountBottleFIDO2. rewrite (bind_run _ _ _ _ _ Ha). simpl.
    rewrite (bind_run _ _ _ _ _ Hc), Hm. reflexivity.
  - exists p, (evs0 ++ evs). split.
    + rewrite Hlog, Hlog0, <- app_assoc. reflexivity.
    + rewrite commands_app, Hcmd0. exact Hcmd.
Qed.

(** The tools of the locator. *)
Definition isProbe (c : Cmd) : bool :=
  match argv c with
  | "losetup" :: "-j" :: _ => true
  | "lsblk" :: _ => true
  | _ => false
  end.

(** The locator's tools and the working-directory query only read: they
    change neither the files nor the host. *)
Definition ReadOnlyLocator : Prop :=
  (forall c fs e, isProbe c = true ->
     snd (fst (tool c fs e)) = fs /\ snd (tool c fs e) = e) /\
  (forall e, snd (sys EvGetwd e) = e).

(** A computation that only appends to the log, the same events whatever
    the log was. *)
Definition Silent {A} (m : M E A) : Prop :=
  forall fs e, exists a evs,
    forall l, m (MkSt fs e l) = (a, MkSt fs e (l ++ evs)).

Lemma Silent_ret {A} (a : A) : Silent (ret a).
Proof. intros fs e. exists a, []. intros l. rewrite app_nil_r. reflexivity. Qed.

Lemma Silent_bind {A B} (m : M E A) (k : A -> M E B) :
  Silent m -> (forall a, Silent (k a)) -> Silent (bind m k).
Proof.
  intros Hm Hk fs e. destruct (Hm fs e) as (a & evs1 & H1).
  destruct (Hk a fs e) as (b & evs2 & H2).
  exists b, (evs1 ++ evs2). intros l.
  unfold bind. rewrite H1, H2, app_assoc. reflexivity.
Qed.

Lemma Silent_if {A} (b : bool) (m1 m2 : M E A) :
  Silent m1 -> Silent m2 -> Silent (if b then m1 else m2).
Proof. destruct b; auto. Qed.

Lemma Silent_exec (c : Cmd) :
  ReadOnlyLocator -> isProbe c = true -> Silent (exec c).
Proof.
  intros [Hro _] Hp fs e. specialize (Hro c fs e Hp).
  unfold exec, record. simpl.
  destruct (tool c fs e) as [[r f'] e']. simpl in Hro. destruct Hro as [-> ->].
  exists r, [EvExec c r]. reflexivity.
Qed.

Lemma Silent_getwd : ReadOnlyLocator -> Silent (ask EvGetwd).
Proof.
  intros [_ Hro] fs e. specialize (Hro e).
  unfold ask, record. simpl.
  destruct (sys EvGetwd e) as [r e']. simpl in Hro. subst e'.
  exists r, [EvGetwd]. reflexivity.
Qed.

Create HintDb silent.
Hint Resolve Silent_ret Silent_bind Silent_if Silent_exec Silent_getwd : silent.

Lemma Silent_AbsM (path : string) : ReadOnlyLocator -> Silent (AbsM path).
Proof. intros Hro. unfold AbsM. auto 6 with silent. Qed.

Lemma Silent_findLoopForFile (bottle : string) :
  ReadOnlyLocator -> Silent (findLoopForFile bottle).
Proof.
  intros Hro. unfold findLoopForFile.
  apply Silent_bind; [apply Silent_AbsM, Hro|]. intros a.
  apply Silent_bind; [auto with silent|]. intros r.
  apply Silent_if; [auto with silent|].
  destruct (GoStrings.IndexByte _ _) as [[|idx]|]; auto with silent.
Qed.

Lemma Silent_checkMounted (realPath : string) :
  ReadOnlyLocator -> Silent (checkMounted realPath).
Proof.
  intros Hro. unfold checkMounted, findCleartextForLoop, findMountForDevice.
  apply Silent_bind; [apply Silent_findLoopForFile, Hro|]. intros loopDev.
  auto 12 with silent.
Qed.

(** C1. When the locator finds the bottle fully mounted, both mount
    functions return what it found and invoke nothing but the locator's
    three queries; when these queries only read, a second call right after
    the first returns the same state, again with the three queries only. *)
Theorem mount_short_circuit
  (bottle password secret realPath : string) (s s0 s1 : St E) (info : MountInfo) :
  AbsM bottle s = (Ok realPath, s0) ->
  checkMounted realPath s0 = (info, s1) ->
  MountPoint info <> "" ->
  (udisksMountBottle bottle password s = (Ok info, s1) /\
   udisksMountBottleFIDO2 bottle secret s = (Ok info, s1) /\
   LoopDevice info <> "" /\ CleartextDevice info <> "" /\
   exists p evs,
     log s1 = log s ++ evs /\
     commands evs = [losetupQuery p; lsblkTypes (LoopDevice info);
                     lsblkMountPoint (CleartextDevice info)]) /\
  (ReadOnlyLocator ->
   exists s2,
     udisksMountBottle bottle password s1 = (Ok info, s2) /\
     udisksMountBottleFIDO2 bottle secret s1 = (Ok info, s2) /\
     files s2 = files s /\ env s2 = env s /\
     exists p evs,
       log s2 = log s1 ++ evs /\
       commands evs = [losetupQuery p; lsblkTypes (LoopDevice info);
                       lsblkMountPoint (CleartextDevice info)]).
Proof.
  intros Ha Hc Hm. split.
  { exact (mount_short_circuit_once bottle password secret realPath s s0 s1 info Ha Hc Hm). }
  intros Hro.
  destruct s as [fs e l].
  destruct (Silent_AbsM bottle Hro fs e) as (a & evs0 & Habs).
  rewrite Habs in Ha. injection Ha as -> <-.
  destruct (Silent_checkMounted realPath Hro fs e) as (info' & evs1 & Hchk).
  rewrite Hchk in Hc. injection Hc as -> <-.
  set (l1 := (l ++ evs0) ++ evs1).
  exists (MkSt fs e ((l1 ++ evs0) ++ evs1)).
  destruct (mount_short_circuit_once bottle password secret realPath
              _ _ _ info (Habs l1) (Hchk (l1 ++ evs0)) Hm)
    as (H1 & H2 & _ & _ & H3).
  repeat split; [exact H1 | exact H2 | exact H3].
Qed.

End ShortCircuit.

Lemma mount_short_circuit_witness :
  let host := Sim.tableHost (fun c =>
    match Host.argv c with
    | ["losetup"; "-j"; _] =>
        Sim.good "/dev/loop3: [2049]:1234 (/home/u/x.bottle)"
    | ["lsblk"; "-nlo"; "NAME,TYPE"; _] =>
        Sim.good ("loop3 loop" +:+ String LF "luks-abc crypt")
    | ["lsblk"; "-nlo"; "MOUNTPOINT"; _] => Sim.good "/run/media/u/x"
    | _ => Sim.bad "not expected"
    end) in
  let info := Mount.MkMountInfo "/dev/loop3" "/dev/luks-abc" "/run/media/u/x"
                "/home/u/x.bottle" in
  let s := Host.MkSt ∅ tt [] in
  exists s1 s2,
    @Mount.udisksMountBottle unit host "x.bottle" "pw" s = (Host.Ok info, s1) /\
    @Mount.udisksMountBottle unit host "x.bottle" "pw" s1 = (Host.Ok info, s2) /\
    @Mount.udisksMountBottleFIDO2 unit host "x.bottle" "key" s1 = (Host.Ok info, s2) /\
    exists p evs,
      Host.log s2 = Host.log s1 ++ evs /\
      Host.commands evs =
        [losetupQuery p; lsblkTypes "/dev/loop3"; lsblkMountPoint "/dev/luks-abc"].
Proof.
  intros host info s.
  assert (Ha : @Host.AbsM unit host "x.bottle" s =
               (Host.Ok "/home/u/x.bottle", Host.MkSt ∅ tt [Host.EvGetwd]))
    by (vm_compute; reflexivity).
  pose (s1 := snd (@Mount.checkMounted unit host "/home/u/x.bottle"
                     (Host.MkSt ∅ tt [Host.EvGetwd]))).
  assert (Hc : @Mount.checkMounted unit host "/home/u/x.bottle"
                 (Host.MkSt ∅ tt [Host.EvGetwd]) = (info, s1))
    by (vm_compute; reflexivity).
  destruct (@mount_short_circuit unit host "x.bottle" "pw" "key" "/home/u/x.bottle"
              s _ s1 info Ha Hc ltac:(discriminate)) as [Hfirst Hsecond].
  destruct Hsecond as (s2 & H1 & H2 & _ & _ & Hlog).
  { split; [intros c fs e _; split; reflexivity | intros e; reflexivity]. }
  eexists _, s2. split; [apply Hfirst|]. split; [exact H1|]. split; [exact H2|].
  exact Hlog.
Defined.

(** ** Recovery from a stale device-mapper record *)
Section StaleMount.
Import Host Mount.
Context {E : Type} `{Host E}.










End StaleMount.


(** ** Bottle creation cleans up after itself *)
Section CreateCleanup.
Import Host Permissions Fido2 Bottle.
Context {D : Dirs} {U : Unicode} {E : Type} `{Host E}.

(** The file a [truncate -s size path] command creates. *)
Definition truncateTarget (c : Cmd) : option string :=
  match argv c with
  | ["truncate"; "-s"; _; path] => Some path
  | _ => None
  end.

(** The files created by the successful [truncate] commands among some
    events, and the targets of the renames among them. *)
Definition created (evs : list Event) : list string :=
  omap (fun ev => match ev with
                  | EvExec c r => if ok r then truncateTarget c else None
                  | _ => None
                  end) evs.

Definition renamed (evs : list Event) : list string :=
  omap (fun ev => match ev with EvRename _ to => Some to | _ => None end) evs.

Lemma created_app (l1 l2 : list Event) : created (l1 ++ l2) = created l1 ++ created l2.
Proof. apply omap_app. Qed.

Lemma renamed_app (l1 l2 : list Event) : renamed (l1 ++ l2) = renamed l1 ++ renamed l2.
Proof. apply omap_app. Qed.

(** Partial-correctness triples for the host monad. *)
Definition triple {A} (P : St E -> Prop) (m : M E A) (Q : A -> St E -> Prop)
  : Prop :=
  forall s a s', P s -> m s = (a, s') -> Q a s'.

Lemma triple_ret {A} (P : St E -> Prop) (a : A) (Q : A -> St E -> Prop) :
  (forall s, P s -> Q a s) -> triple P (ret a) Q.
Proof. intros HQ s a' s' HP [= <- <-]. auto. Qed.

Lemma triple_bind {A B} (P : St E -> Prop) (R : A -> St E -> Prop)
  (Q : B -> St E -> Prop) (m : M E A) (k : A -> M E B) :
  triple P m R -> (forall a, triple (R a) (k a) Q) -> triple P (bind m k) Q.
Proof.
  intros Hm Hk s b s' HP. unfold bind.
  destruct (m s) as [a s1] eqn:Hrun. intros Hb.
  exact (Hk a s1 b s' (Hm s a s1 HP Hrun) Hb).
Qed.

(** A computation every run of which only adds events that create with
    [truncate] only files satisfying [P] and rename only onto the paths
    [K]. *)
Definition Quiet {A} (P : string -> Prop) (K : list string) (m : M E A) : Prop :=
  forall s a s', m s = (a, s') ->
  exists evs, log s' = log s ++ evs /\ Forall P (created evs) /\
              incl (renamed evs) K.

Definition nothing : string -> Prop := fun _ => False.
Definition anything : string -> Prop := fun _ => True.

Lemma Quiet_ret {A} (P : string -> Prop) (K : list string) (a : A) : Quiet P K (ret a).
Proof.
  intros s a' s' [= <- <-]. exists []. rewrite app_nil_r.
  split; [reflexivity|]. split; [constructor | intros x []].
Qed.

Lemma Quiet_bind {A B} (P : string -> Prop) (K : list string) (m : M E A) (k : A -> M E B) :
  Quiet P K m -> (forall a, Quiet P K (k a)) -> Quiet P K (bind m k).
Proof.
  intros Hm Hk s b s'. unfold bind. destruct (m s) as [a s1] eqn:Hrun.
  intros Hb. destruct (Hm _ _ _ Hrun) as (e1 & L1 & C1 & R1).
  destruct (Hk a _ _ _ Hb) as (e2 & L2 & C2 & R2).
  exists (e1 ++ e2). rewrite L2, L1, <- app_assoc, created_app, renamed_app.
  split; [reflexivity|]. split; [apply Forall_app; auto | apply incl_app; assumption].
Qed.

Lemma Quiet_if {A} (P : string -> Prop) (K : list string) (b : bool) (m1 m2 : M E A) :
  Quiet P K m1 -> Quiet P K m2 -> Quiet P K (if b then m1 else m2).
Proof. destruct b; auto. Qed.

Lemma Quiet_one {A} (P : string -> Prop) (K : list string) (m : M E A) (ev : St E -> Event) :
  (forall s, log (snd (m s)) = log s ++ [ev s] /\
             Forall P (created [ev s]) /\ incl (renamed [ev s]) K) ->
  Quiet P K m.
Proof.
  intros Hone s a s' Hrun. specialize (Hone s). rewrite Hrun in Hone.
  exists [ev s]. exact Hone.
Qed.

Lemma incl_nil_any (K : list string) : incl [] K.
Proof. intros x []. Qed.

Lemma Quiet_note (P : string -> Prop) (K : list string) (ev : Event) :
  renamed [ev] = [] -> created [ev] = [] -> Quiet P K (note ev).
Proof.
  intros Hr Hc. apply (Quiet_one _ _ _ (fun _ => ev)). intros s.
  rewrite Hr, Hc. auto using incl_nil_any.
Qed.

Lemma Quiet_ask (P : string -> Prop) (K : list string) (ev : Event) :
  renamed [ev] = [] -> created [ev] = [] -> Quiet P K (ask ev).
Proof.
  intros Hr Hc. apply (Quiet_one _ _ _ (fun _ => ev)). intros s.
  unfold ask. destruct (sys ev (env s)). rewrite Hr, Hc. auto using incl_nil_any.
Qed.

Lemma Quiet_exec (P : string -> Prop) (K : list string) (c : Cmd) :
  (forall p, truncateTarget c = Some p -> P p) -> Quiet P K (exec c).
Proof.
  intros Hc. apply (Quiet_one _ _ _ (fun s => EvExec c (fst (exec c s)))). intros s.
  unfold exec. destruct (tool c (files s) (env s)) as [[r f] e]. simpl.
  split; [reflexivity|]. split; [|apply incl_nil_any].
  destruct (ok r); [|constructor].
  destruct (truncateTarget c) as [p|]; [|constructor]. repeat constructor. auto.
Qed.

Lemma Quiet_Stat (P : string -> Prop) (K : list string) (p : string) : Quiet P K (Stat p).
Proof. apply (Quiet_one _ _ _ (fun _ => EvStat p)). auto using incl_nil_any. Qed.

Lemma Quiet_ReadFile (P : string -> Prop) (K : list string) (p : string) : Quiet P K (ReadFile p).
Proof. apply (Quiet_one _ _ _ (fun _ => EvOpen p)). auto using incl_nil_any. Qed.

Lemma Quiet_Remove (P : string -> Prop) (K : list string) (p : string) : Quiet P K (Remove p).
Proof. apply (Quiet_one _ _ _ (fun _ => EvRemove p)). auto using incl_nil_any. Qed.

Lemma Quiet_CreateTemp (P : string -> Prop) (K : list string) (dir pattern : string) :
  Quiet P K (CreateTemp dir pattern).
Proof.
  apply (Quiet_one _ _ _ (fun _ => EvCreateTemp dir pattern)). intros s.
  unfold CreateTemp. destruct (sys _ (env s)) as [r e].
  destruct (ok r); [destruct (files s !! out r)|]; auto using incl_nil_any.
Qed.

Lemma Quiet_WriteString (P : string -> Prop) (K : list string) (p data : string) :
  Quiet P K (WriteString p data).
Proof.
  apply (Quiet_one _ _ _ (fun _ => EvWriteString p data)). intros s.
  unfold WriteString. destruct (sys _ (env s)) as [r e].
  destruct (ok r); [destruct (files s !! p)|]; auto using incl_nil_any.
Qed.

Lemma Quiet_Rename (P : string -> Prop) (from to : string) :
  Quiet P [to] (Rename from to).
Proof.
  apply (Quiet_one _ _ _ (fun _ => EvRename from to)). intros s.
  unfold Rename. destruct (sys _ (env s)) as [r e].
  destruct (ok r); [destruct (files s !! from)|]; simpl;
    (split; [reflexivity|]); (split; [constructor | apply incl_refl]).
Qed.

Create HintDb quiet.
Hint Resolve Quiet_ret Quiet_bind Quiet_if Quiet_Stat Quiet_ReadFile Quiet_Remove
  Quiet_CreateTemp Quiet_WriteString Quiet_Rename : quiet.
Hint Extern 1 (Quiet _ _ (note _)) => apply Quiet_note; reflexivity : quiet.
Hint Extern 1 (Quiet _ _ (ask _)) => apply Quiet_ask; reflexivity : quiet.
Hint Extern 1 (Quiet _ _ (exec _)) =>
  apply Quiet_exec; first [ intros ? [=] | intros; exact I ] : quiet.

Lemma Quiet_AbsM (P : string -> Prop) (K : list string) (p : string) : Quiet P K (AbsM p).
Proof. unfold AbsM. auto 6 with quiet. Qed.

Lemma Quiet_LookPath (P : string -> Prop) (K : list string) (name : string) : Quiet P K (LookPath name).
Proof. unfold LookPath. auto with quiet. Qed.

Lemma Quiet_getBottleHash (P : string -> Prop) (K : list string) (bottle : string) :
  Quiet P K (getBottleHash bottle).
Proof. unfold getBottleHash. auto using Quiet_AbsM with quiet. Qed.

Lemma Quiet_getMapperName (P : string -> Prop) (K : list string) (bottle : string) :
  Quiet P K (getMapperName bottle).
Proof. unfold getMapperName. auto using Quiet_getBottleHash with quiet. Qed.

Lemma Quiet_getConfigPath (P : string -> Prop) (K : list string) (bottle : string) :
  Quiet P K (getConfigPath bottle).
Proof. unfold getConfigPath. auto using Quiet_getBottleHash with quiet. Qed.

(** A command run through [pkexec] or [sudo] is not a [truncate]. *)
Lemma Quiet_privExec {A} (P : string -> Prop) (K : list string) (name : string) (args : list string)
  (i : option string) (cap : Capture) (k : Reply -> M E A) :
  (forall r, Quiet P K (k r)) ->
  Quiet P K (bind (privCmd name args) (fun av => bind (exec (MkCmd av i cap)) k)).
Proof.
  intros Hk s a s' Hrun. unfold privCmd in Hrun.
  rewrite bind_unfold in Hrun. rewrite (bind_unfold (LookPath "pkexec")) in Hrun.
  destruct (LookPath "pkexec" s) as [found s1] eqn:HL. cbn [fst snd] in Hrun.
  destruct (Quiet_LookPath P K _ _ _ _ HL) as (e1 & L1 & C1 & R1).
  assert (Hrest : forall av, truncateTarget (MkCmd av i cap) = None ->
            Quiet P K (bind (exec (MkCmd av i cap)) k)).
  { intros av Hav. apply Quiet_bind; [|exact Hk].
    apply Quiet_exec. rewrite Hav. intros p [=]. }
  destruct found; unfold ret in Hrun; cbn [fst snd] in Hrun;
    (eapply Hrest in Hrun; [|reflexivity]);
    destruct Hrun as (e2 & L2 & C2 & R2);
    exists (e1 ++ e2);
    rewrite L2, L1, <- app_assoc, created_app, renamed_app;
    (split; [reflexivity|]);
    (split; [apply Forall_app; auto | apply incl_app; assumption]).
Qed.

Lemma Quiet_runPriv (P : string -> Prop) (K : list string) (name : string) (args : list string) :
  Quiet P K (runPriv name args).
Proof. unfold runPriv. apply Quiet_privExec. auto with quiet. Qed.

Lemma Quiet_writeSecretToTempFile (P : string -> Prop) (K : list string) (secret prefix : string) :
  Quiet P K (writeSecretToTempFile secret prefix).
Proof.
  unfold writeSecretToTempFile, Chmod.
  apply Quiet_bind; [auto with quiet|]. intros [path|err]; auto 8 with quiet.
Qed.

Lemma Quiet_FormatBottleWithFIDO2 (P : string -> Prop) (K : list string) (bottlePath secret : string) :
  Quiet P K (FormatBottleWithFIDO2 bottlePath secret).
Proof.
  unfold FormatBottleWithFIDO2, cryptsetupCmd.
  apply Quiet_bind; [apply Quiet_writeSecretToTempFile|].
  intros [keyPath|err]; [|auto with quiet].
  apply Quiet_privExec. auto 8 with quiet.
Qed.

Lemma Quiet_OpenLUKSWithFIDO2 (P : string -> Prop) (K : list string) (loopDev mapperName secret : string) :
  Quiet P K (OpenLUKSWithFIDO2 loopDev mapperName secret).
Proof.
  unfold OpenLUKSWithFIDO2, cryptsetupCmd.
  apply Quiet_bind; [apply Quiet_writeSecretToTempFile|].
  intros [keyPath|err]; [|auto with quiet].
  apply Quiet_privExec. auto 8 with quiet.
Qed.

Lemma Quiet_writeLines (P : string -> Prop) (K : list string) (tempPath : string) (lines : list string) :
  Quiet P K (writeLines tempPath lines).
Proof.
  induction lines as [|line rest IH]; simpl; [auto with quiet|].
  apply Quiet_bind; [auto with quiet|]. intros [err|]; auto with quiet.
Qed.

Lemma Quiet_savePermissionsAtomic (P : string -> Prop) (path : string)
  (p : Permissions) :
  Quiet P [path] (savePermissionsAtomic path p).
Proof.
  unfold savePermissionsAtomic, MkdirAll, Sync, syncDir.
  apply Quiet_bind; [auto with quiet|]. intros _.
  apply Quiet_bind; [auto with quiet|]. intros [tempPath|err]; [|auto with quiet].
  apply Quiet_bind; [apply Quiet_writeLines|]. intros [err|]; [auto with quiet|].
  apply Quiet_bind; [auto with quiet|]. intros [err|]; [auto with quiet|].
  apply Quiet_bind; [auto with quiet|]. intros [err|]; auto 8 with quiet.
Qed.

(** The invariant of a run started with log [l0]: the files it has created
    so far are [c], and it has renamed onto the paths [K] at most. *)
Definition Inv (l0 : list Event) (c K : list string) (s : St E) : Prop :=
  exists evs, log s = l0 ++ evs /\ created evs = c /\ incl (renamed evs) K.

Lemma triple_frame {A} (l0 : list Event) (c K : list string) (m : M E A) :
  Quiet nothing K m -> triple (Inv l0 c K) m (fun _ => Inv l0 c K).
Proof.
  intros Hm s a s' (evs & L & C & R) Hrun.
  destruct (Hm _ _ _ Hrun) as (evs' & L' & C' & R').
  exists (evs ++ evs').
  assert (created evs' = []) as Hnone.
  { destruct (created evs') as [|x l]; [reflexivity|]. inversion C' as [|? ? []]. }
  rewrite L', L, <- app_assoc, created_app, renamed_app, C, Hnone, app_nil_r.
  repeat split. apply incl_app; assumption.
Qed.

Lemma Inv_mono (l0 : list Event) (c K K' : list string) (s : St E) :
  incl K K' -> Inv l0 c K s -> Inv l0 c K' s.
Proof.
  intros HK (evs & L & C & R). exists evs. repeat split; try assumption.
  eapply incl_tran; eassumption.
Qed.

Lemma triple_truncate (l0 : list Event) (K : list string) (size path : string) :
  triple (Inv l0 [] K)
    (exec (MkCmd ["truncate"; "-s"; size; path] None CombinedOutput))
    (fun r => Inv l0 (if ok r then [path] else []) K).
Proof.
  intros s r s' (evs & L & C & R) Hrun.
  exists (evs ++ [EvExec (MkCmd ["truncate"; "-s"; size; path] None CombinedOutput) r]).
  rewrite (exec_log _ _ _ _ Hrun), L, <- app_assoc, created_app, renamed_app, C.
  cbn. rewrite app_nil_r. destruct (ok r); auto.
Qed.

(** What the cleanup of a failed creation establishes: the files the run
    created are gone, and, unless the failure is [partial] (the config
    save itself failed), so is every file it renamed into place. *)
Definition cleanedUp (l0 : list Event) (res : option error) (s : St E) : Prop :=
  forall err, res = Some err ->
  exists evs, log s = l0 ++ evs /\
    (forall p, In p (created evs) -> files s !! p = None) /\
    ((forall msg, err <> bottleError "save config" msg) ->
     forall cfg, In cfg (renamed evs) -> files s !! cfg = None).

Lemma triple_early (l0 : list Event) (err : error) :
  triple (Inv l0 [] []) (ret (Some err)) (cleanedUp l0).
Proof.
  apply triple_ret. intros s (evs & L & C & R) err' _. exists evs.
  rewrite C. split; [assumption|]. split; [intros p []|].
  intros _ cfg Hin. apply R in Hin. destruct Hin.
Qed.

Lemma triple_done (P : St E -> Prop) (l0 : list Event) :
  triple P (ret None) (cleanedUp l0).
Proof. apply triple_ret. intros s _ err [=]. Qed.

Lemma triple_cleanup_file (l0 : list Event) (path : string) (err : error) :
  triple (Inv l0 [path] [])
    (bind (Remove path) (fun _ => ret (Some err)))
    (cleanedUp l0).
Proof.
  intros s a s' (evs & L & C & R). unfold bind, Remove, ret, record.
  intros [= <- <-] err' _. exists (evs ++ [EvRemove path]). simpl.
  rewrite L, <- app_assoc, created_app, renamed_app, C. cbn.
  split; [reflexivity|]. split.
  - intros p [<-|[]]. apply lookup_delete_eq.
  - rewrite app_nil_r. intros _ cfg Hin. apply R in Hin. destruct Hin.
Qed.

Lemma triple_cleanup_partial (l0 : list Event) (K : list string)
  (path msg : string) :
  triple (Inv l0 [path] K)
    (bind (Remove path) (fun _ => ret (Some (bottleError "save config" msg))))
    (cleanedUp l0).
Proof.
  intros s a s' (evs & L & C & R). unfold bind, Remove, ret, record.
  intros [= <- <-] err' [= <-]. exists (evs ++ [EvRemove path]). simpl.
  rewrite L, <- app_assoc, created_app, C. cbn.
  split; [reflexivity|]. split.
  - intros p [<-|[]]. apply lookup_delete_eq.
  - intros Hne. exfalso. exact (Hne msg eq_refl).
Qed.

Lemma triple_cleanup_both (l0 : list Event) (path cfg : string) (err : error) :
  triple (Inv l0 [path] [cfg])
    (bind (Remove path) (fun _ => bind (Remove cfg) (fun _ => ret (Some err))))
    (cleanedUp l0).
Proof.
  intros s a s' (evs & L & C & R). unfold bind, Remove, ret, record.
  intros [= <- <-] err' _. exists (evs ++ [EvRemove path; EvRemove cfg]). simpl.
  rewrite L, <- !app_assoc, created_app, renamed_app, C. cbn.
  split; [reflexivity|]. rewrite app_nil_r. split.
  - intros p [<-|[]]. destruct (decide (cfg = path)) as [->|Hne].
    + apply lookup_delete_eq.
    + rewrite lookup_delete_ne by assumption. apply lookup_delete_eq.
  - intros _ cfg' Hin. apply R in Hin. destruct Hin as [<-|[]].
    apply lookup_delete_eq.
Qed.

(** One more step of a run that keeps the invariant. *)
Ltac quiet_step :=
  eapply triple_bind;
  [ apply triple_frame;
    first [ apply Quiet_runPriv | apply Quiet_getMapperName
          | apply Quiet_getConfigPath | apply Quiet_AbsM | apply Quiet_Stat
          | apply Quiet_FormatBottleWithFIDO2 | apply Quiet_OpenLUKSWithFIDO2
          | auto with quiet ]
  | intros ? ].

(** A privileged command and what follows it, when it all keeps the
    invariant. *)
Lemma triple_privExec {A} (l0 : list Event) (c K : list string)
  (name : string) (args : list string) (i : option string) (cap : Capture)
  (k : Reply -> M E A) (Q : A -> St E -> Prop) :
  (forall r, triple (Inv l0 c K) (k r) Q) ->
  triple (Inv l0 c K)
    (bind (privCmd name args) (fun av => bind (exec (MkCmd av i cap)) k)) Q.
Proof.
  intros Hk s a s' HI Hrun. unfold privCmd in Hrun.
  rewrite bind_unfold in Hrun. rewrite (bind_unfold (LookPath "pkexec")) in Hrun.
  destruct (LookPath "pkexec" s) as [found s1] eqn:HL. cbn [fst snd] in Hrun.
  pose proof (triple_frame l0 c K _ (Quiet_LookPath nothing K "pkexec") _ _ _ HI HL) as HI1.
  assert (Hrest : forall av, truncateTarget (MkCmd av i cap) = None ->
            triple (Inv l0 c K) (bind (exec (MkCmd av i cap)) k) Q).
  { intros av Hav. eapply triple_bind; [|exact Hk].
    apply triple_frame, Quiet_exec. rewrite Hav. intros p [=]. }
  destruct found; unfold ret in Hrun; cbn [fst snd] in Hrun;
    (refine (Hrest _ _ s1 a s' HI1 Hrun); reflexivity).
Qed.

Lemma Quiet_createBottleBase (bottle size password : string) (interactive : bool) :
  Quiet anything [] (createBottleBase bottle size password interactive).
Proof.
  unfold createBottleBase, MkdirAll, cryptsetupCmd, runPriv, privCmd, LookPath.
  cbv zeta.
  repeat first
    [ apply Quiet_ret
    | apply Quiet_if
    | apply Quiet_Stat | apply Quiet_Remove | apply Quiet_AbsM
    | apply Quiet_getMapperName
    | apply Quiet_note; reflexivity
    | apply Quiet_ask; reflexivity
    | apply Quiet_exec; intros; exact I
    | apply Quiet_bind; [|intros ?]
    | match goal with
      | |- Quiet _ _ (match ?x with _ => _ end) => destruct x
      end ].
Qed.

Lemma createBottleBase_triple (l0 : list Event)
  (bottle size password : string) (interactive : bool) :
  triple (Inv l0 [] []) (createBottleBase bottle size password interactive)
    (cleanedUp l0).
Proof.
  unfold createBottleBase, MkdirAll, cryptsetupCmd. cbv zeta.
  quiet_step.
  destruct (String.eqb bottle ""); [apply triple_early|].
  destruct (String.eqb size ""); [apply triple_early|].
  quiet_step. destruct a0; [apply triple_early|].
  quiet_step. destruct a0 as [realPath|err]; [|apply triple_early].
  quiet_step.
  eapply triple_bind; [apply triple_truncate|]. intros tr. cbv beta.
  destruct (ok tr); cbn [negb]; [|apply triple_early].
  destruct (negb (String.eqb password ""));
    (apply triple_privExec; intros fr;
     destruct (negb (ok fr)); [apply triple_cleanup_file|];
     apply triple_privExec; intros lr;
     destruct (negb (ok lr)); [apply triple_cleanup_file|];
     apply triple_privExec; intros opr;
     destruct (negb (ok opr)); [quiet_step; apply triple_cleanup_file|];
     apply triple_privExec; intros mk;
     destruct (negb (ok mk));
       [quiet_step; quiet_step; apply triple_cleanup_file|];
     quiet_step; quiet_step; apply triple_done).
Qed.

Lemma CreateBottleWithYubiKey_triple (l0 : list Event)
  (bottle size secret bottleID credID salt deviceHint : string) :
  triple (Inv l0 [] [])
    (CreateBottleWithYubiKey bottle size secret bottleID credID salt deviceHint)
    (cleanedUp l0).
Proof.
  unfold CreateBottleWithYubiKey. cbv zeta.
  destruct (String.eqb bottle ""); [apply triple_early|].
  destruct (String.eqb size ""); [apply triple_early|].
  destruct (negb (String.length secret =? 32)); [apply triple_early|].
  quiet_step. destruct a; [apply triple_early|].
  quiet_step. destruct a as [realPath|err]; [|apply triple_early].
  quiet_step. rename a into mapperName.
  quiet_step. rename a into configPath.
  eapply triple_bind; [apply triple_truncate|]. intros tr. cbv beta.
  destruct (ok tr); cbn [negb]; [|apply triple_early].
  eapply triple_bind.
  { intros s a s' HI. apply (triple_frame l0 [realPath] [configPath]).
    - apply Quiet_savePermissionsAtomic.
    - eapply Inv_mono; [|exact HI]. apply incl_nil_any. }
  intros [err|]; [apply triple_cleanup_partial|].
  quiet_step. destruct a as [err|]; [apply triple_cleanup_both|].
  apply triple_privExec; intros lr.
  destruct (negb (ok lr)); [apply triple_cleanup_both|].
  quiet_step. destruct a as [err|]; [quiet_step; apply triple_cleanup_both|].
  apply triple_privExec; intros mk.
  destruct (negb (ok mk)); [quiet_step; quiet_step; apply triple_cleanup_both|].
  quiet_step; quiet_step; apply triple_done.
Qed.

(** C10. When [createBottleBase] or [CreateBottleWithYubiKey] returns an
    error, every file a successful [truncate] of that run created (the
    backing file) is absent from the file system on return; in the
    hardware-key variant the config file renamed into place by that run is
    absent as well, unless the error is that of the config save itself, in
    which case the save did not succeed.  [createBottleBase] renames
    nothing: it never writes a config file. *)
Theorem failed_create_leaves_nothing
  (bottle size password secret bottleID credID salt deviceHint : string)
  (interactive : bool) (s s' : St E) (err : error) (evs : list Event) :
  log s' = log s ++ evs ->
  (createBottleBase bottle size password interactive s = (Some err, s') ->
   (forall p, In p (created evs) -> files s' !! p = None) /\
   renamed evs = []) /\
  (CreateBottleWithYubiKey bottle size secret bottleID credID salt deviceHint s
     = (Some err, s') ->
   (forall p, In p (created evs) -> files s' !! p = None) /\
   ((forall msg, err <> bottleError "save config" msg) ->
    forall cfg, In cfg (renamed evs) -> files s' !! cfg = None)).
Proof.
  intros Hlog.
  assert (HI : Inv (log s) [] [] s).
  { exists []. rewrite app_nil_r. repeat split. apply incl_nil_any. }
  split; intros Hrun.
  - destruct (createBottleBase_triple (log s) _ _ _ _ _ _ _ HI Hrun err eq_refl)
      as (evs' & L & Hc & _).
    rewrite Hlog in L. apply app_inv_head in L. subst evs'.
    split; [exact Hc|].
    assert (Hq : Quiet anything [] (createBottleBase bottle size password interactive)).
    { apply Quiet_createBottleBase. }
    destruct (Hq _ _ _ Hrun) as (e2 & L2 & _ & R2).
    rewrite Hlog in L2. apply app_inv_head in L2. subst e2.
    destruct (renamed evs) as [|x l]; [reflexivity|]. destruct (R2 x). left. reflexivity.
  - destruct (CreateBottleWithYubiKey_triple (log s) _ _ _ _ _ _ _ _ _ _ HI Hrun err eq_refl)
      as (evs' & L & Hc & Hk).
    rewrite Hlog in L. apply app_inv_head in L. subst evs'.
    split; assumption.
Qed.

End CreateCleanup.

Lemma failed_create_leaves_nothing_witness :
  let s := Sim.start
    [Sim.good ""; Sim.good ""; Sim.good "/dev/loop5"; Sim.good "";
     Sim.bad "mkfs.ext4: failed"; Sim.good ""; Sim.good ""] in
  let file := "/home/u/.local/share/bottles/x.bottle" in
  let cfg := "/home/u/.config/bottle-launch/a5e544578777.conf" in
  let run1 := Bottle.createBottleBase "x" "500M" "pw" false s in
  let run2 := Bottle.CreateBottleWithYubiKey "x" "500M"
                "0123456789abcdef0123456789abcdef" "Ym90dGxl" "Y3JlZA==" "c2FsdA=="
                "/dev/hidraw1" s in
  fst run1 = Some (Host.bottleError "mkfs" "mkfs.ext4: failed") /\
  created (Host.log (snd run1)) = [file] /\
  Host.files (snd run1) !! file = None /\
  fst run2 = Some (Host.bottleError "mkfs" "mkfs.ext4: failed") /\
  created (Host.log (snd run2)) = [file] /\
  renamed (Host.log (snd run2)) = [cfg] /\
  Host.files (snd run2) !! file = None /\
  Host.files (snd run2) !! cfg = None.
Proof.
  intros s file cfg run1 run2.
  assert (E1 : fst run1 = Some (Host.bottleError "mkfs" "mkfs.ext4: failed")) by by_eval.
  assert (E2 : fst run2 = Some (Host.bottleError "mkfs" "mkfs.ext4: failed")) by by_eval.
  assert (C1 : created (Host.log (snd run1)) = [file]) by by_eval.
  assert (C2 : created (Host.log (snd run2)) = [file]) by by_eval.
  assert (R2 : renamed (Host.log (snd run2)) = [cfg]) by by_eval.
  destruct (failed_create_leaves_nothing "x" "500M" "pw"
              "0123456789abcdef0123456789abcdef" "Ym90dGxl" "Y3JlZA==" "c2FsdA=="
              "/dev/hidraw1" false s (snd run1)
              (Host.bottleError "mkfs" "mkfs.ext4: failed")
              (Host.log (snd run1)) eq_refl) as [H1 _].
  destruct (failed_create_leaves_nothing "x" "500M" "pw"
              "0123456789abcdef0123456789abcdef" "Ym90dGxl" "Y3JlZA==" "c2FsdA=="
              "/dev/hidraw1" false s (snd run2)
              (Host.bottleError "mkfs" "mkfs.ext4: failed")
              (Host.log (snd run2)) eq_refl) as [_ H2].
  destruct H1 as [G1 _].
  { rewrite <- E1. apply surjective_pairing. }
  destruct H2 as [G2 G3].
  { rewrite <- E2. apply surjective_pairing. }
  split; [exact E1|]. split; [exact C1|]. split.
  { apply G1. rewrite C1. left. reflexivity. }
  split; [exact E2|]. split; [exact C2|]. split; [exact R2|]. split.
  - apply G2. rewrite C2. left. reflexivity.
  - apply G3; [intros msg; discriminate|]. rewrite R2. left. reflexivity.
Defined.

(** ** Deleting a bottle that is attached *)
Section Delete.
Import Host Locator Bottle.
Context {D : Dirs} {U : Permissions.Unicode} {E : Type} `{Host E}.

(** The events that change the file system. *)
Definition changesFiles (ev : Event) : bool :=
  match ev with
  | EvCreateTemp _ _ | EvWriteString _ _ | EvRename _ _ | EvRemove _ => true
  | _ => false
  end.

Lemma findLoopForFile_events (bottle : string) (s s' : St E) (dev : string) :
  findLoopForFile bottle s = (dev, s') ->
  exists p evs, log s' = log s ++ evs /\ commands evs = [losetupQuery p] /\
                forallb (fun ev => negb (changesFiles ev)) evs = true.
Proof.
  unfold findLoopForFile. rewrite bind_unfold.
  destruct (AbsM bottle s) as [a s0] eqn:Ha. cbn [fst snd].
  assert (Habs : exists evs, log s0 = log s ++ evs /\ commands evs = [] /\
                   forallb (fun ev => negb (changesFiles ev)) evs = true).
  { revert Ha. unfold AbsM. destruct (GoPath.IsAbs bottle).
    - intros [= <- <-]. exists []. rewrite app_nil_r. auto.
    - unfold bind, ask, ret, record. destruct (sys EvGetwd (env s)) as [r e].
      intros [= <- <-]. exists [EvGetwd]. auto. }
  destruct Habs as (evs0 & L0 & C0 & F0).
  rewrite bind_unfold.
  destruct (exec _ s0) as [r s1] eqn:Hx. cbn [fst snd].
  pose proof (exec_log _ _ _ _ Hx) as L1.
  intros Hret. unfold ret in Hret.
  assert (s' = s1) as ->.
  { destruct (negb (ok r) || String.eqb (out r) ""); [congruence|].
    destruct (GoStrings.IndexByte _ _) as [[|idx]|]; congruence. }
  eexists _, (evs0 ++ [_]). rewrite L1, L0, <- app_assoc. split; [reflexivity|].
  rewrite commands_app, C0, forallb_app, F0. auto.
Qed.

(** C9. When the locator finds a loop device for the file, [deleteBottle]
    returns [errBottleMounted] and has done nothing but the locator's
    query: no file operation is logged, and when that query only reads,
    the files are all as before. *)
Theorem delete_refused_when_attached
  (bottle loopDev : string) (s s1 : St E) :
  findLoopForFile bottle s = (loopDev, s1) ->
  loopDev <> "" ->
  deleteBottle bottle s = (Some errBottleMounted, s1) /\
  (exists p evs, log s1 = log s ++ evs /\ commands evs = [losetupQuery p] /\
                 forallb (fun ev => negb (changesFiles ev)) evs = true) /\
  (ReadOnlyLocator -> files s1 = files s).
Proof.
  intros Hfind Hdev. split; [|split].
  - unfold deleteBottle. rewrite (bind_run _ _ _ _ _ Hfind).
    apply String.eqb_neq in Hdev. rewrite Hdev. reflexivity.
  - exact (findLoopForFile_events _ _ _ _ Hfind).
  - intros Hro. destruct s as [fs e l].
    destruct (Silent_findLoopForFile bottle Hro fs e) as (a & evs & Hrun).
    rewrite Hrun in Hfind. injection Hfind as _ <-. reflexivity.
Qed.

End Delete.

Lemma delete_refused_when_attached_witness :
  let host := Sim.tableHost (fun c =>
    match Host.argv c with
    | ["losetup"; "-j"; _] =>
        Sim.good "/dev/loop3: [2049]:1234 (/home/u/x.bottle)"
    | _ => Sim.bad "not expected"
    end) in
  let fs : gmap string string :=
    {[ "/home/u/x.bottle" := "LUKS";
       "/home/u/.config/bottle-launch/6b5318282cce.conf" := "PREF_NETWORK=1" ]} in
  let s := Host.MkSt fs tt [] in
  fst (@Bottle.deleteBottle Sim.simDirs unit host "/home/u/x.bottle" s)
    = Some Host.errBottleMounted /\
  Host.files (snd (@Bottle.deleteBottle Sim.simDirs unit host "/home/u/x.bottle" s))
    = fs.
Proof.
  intros host fs s.
  pose (x := @Locator.findLoopForFile unit host "/home/u/x.bottle" s).
  destruct (@delete_refused_when_attached Sim.simDirs unit host
              "/home/u/x.bottle" (fst x) s (snd x)) as (Hrun & _ & Hfiles).
  { apply surjective_pairing. }
  { by_eval. }
  rewrite Hrun. split; [reflexivity|]. apply Hfiles.
  split; [intros c fs' e _; split; reflexivity | intros e; reflexivity].
Defined.

(** ** The hardware-key secret *)
Section DeriveSecret.
Import Host Fido2.
Context {E : Type} `{Host E}.

(** The [fido2-assert] invocation, reading [text]. *)
Definition assertCmd (device text : string) : Cmd :=
  MkCmd ["fido2-assert"; "-G"; "-h"; device; "es256"] (Some text) Run.

(** The line of the tool's output that is decoded: the last one, trimmed. *)
Definition hmacLine (stdout : string) : string :=
  GoStrings.TrimSpace
    (lastLine (GoStrings.Split LF (GoStrings.TrimSpace stdout))).

Lemma parseAssertOutput_Ok (stdout secret : string) :
  parseAssertOutput stdout = Ok secret ->
  GoBase64.DecodeString (hmacLine stdout) = Some secret /\
  String.length secret = 32.
Proof.
  unfold parseAssertOutput, hmacLine.
  destruct (length _ <? 5); [discriminate|].
  destruct (GoBase64.DecodeString _) as [x|]; [|discriminate].
  destruct (String.length x =? 32) eqn:Hlen; [|discriminate].
  intros [= <-]. split; [reflexivity|]. apply Nat.eqb_eq, Hlen.
Qed.

Lemma parseAssertOutput_Err (stdout : string) :
  GoBase64.DecodeString (hmacLine stdout) = None \/
  (exists x, GoBase64.DecodeString (hmacLine stdout) = Some x /\
             String.length x <> 32) ->
  exists e, parseAssertOutput stdout = Err e.
Proof.
  unfold parseAssertOutput, hmacLine.
  destruct (length _ <? 5); [eauto|].
  intros [-> | (x & -> & Hlen)]; [eauto|].
  apply Nat.eqb_neq in Hlen. rewrite Hlen. eauto.
Qed.

(** Every run of [GetFIDO2Secret] either fails before the tool is invoked,
    or invokes it exactly once and returns what its output parses to. *)
Lemma GetFIDO2Secret_run (device bottleID credID salt : string)
  (s s' : St E) (res : result string) :
  GetFIDO2Secret device bottleID credID salt s = (res, s') ->
  exists evs, log s' = log s ++ evs /\
    ((commands evs = [] /\ exists e, res = Err e) \/
     (exists text r pre post,
        evs = pre ++ [EvExec (assertCmd device text) r] ++ post /\
        commands pre = [] /\ commands post = [] /\
        res = if negb (ok r)
              then Err (fmtError ("fido2-assert failed: " +:+ errText r))
              else parseAssertOutput (out r))).
Proof.
  unfold GetFIDO2Secret, bind, CreateTemp, Chmod, note, WriteString, ReadFile,
    exec, Remove, ret, record.
  destruct (sys _ (env s)) as [r0 e0].
  destruct (ok r0); [destruct (files s !! out r0)|]; cbn [files env log].
  - intros [= <- <-]. eexists [_]. split; [reflexivity|]. left. eauto.
  - destruct (sys _ e0) as [r1 e1]. rewrite lookup_insert_eq.
    destruct (ok r1); cbn [files env log]; rewrite ?lookup_insert_eq.
    + match goal with |- context [tool ?c ?f ?e] =>
        destruct (tool c f e) as [[r f'] e2] end. cbn [files env log].
      destruct (negb (ok r)) eqn:Hok; intros [= <- <-]; eexists;
        rewrite <- !app_assoc; (split; [reflexivity|]);
        right; eexists _, r, [_; _; _; _], [_]; cbn [log]; rewrite Hok;
        repeat (split; [reflexivity|]); reflexivity.
    + match goal with |- context [tool ?c ?f ?e] =>
        destruct (tool c f e) as [[r f'] e2] end. cbn [files env log].
      destruct (negb (ok r)) eqn:Hok; intros [= <- <-]; eexists;
        rewrite <- !app_assoc; (split; [reflexivity|]);
        right; eexists _, r, [_; _; _; _], [_]; cbn [log]; rewrite Hok;
        repeat (split; [reflexivity|]); reflexivity.
  - intros [= <- <-]. eexists [_]. split; [reflexivity|]. left. eauto.
Qed.

Lemma commands_nil_no_exec (l : list Event) (c : Cmd) (r : Reply) :
  commands l = [] -> ~ In (EvExec c r) l.
Proof.
  induction l as [|ev l IH]; [intros _ []|].
  intros Hc [->|Hin]; [discriminate|].
  apply IH; [|exact Hin]. destruct ev; try exact Hc. discriminate.
Qed.

(** C8. [GetFIDO2Secret] returns a secret only if it is exactly the 32
    bytes the last output line of a successful [fido2-assert] run decodes
    to; and whenever that line is not valid base64, or decodes to a number
    of bytes other than 32, it returns an error. *)
Theorem derive_secret_fails_closed
  (device bottleID credID salt : string) (s s' : St E) (res : result string) :
  GetFIDO2Secret device bottleID credID salt s = (res, s') ->
  (forall secret, res = Ok secret ->
     String.length secret = 32 /\
     exists text r evs,
       log s' = log s ++ evs /\ In (EvExec (assertCmd device text) r) evs /\
       ok r = true /\
       GoBase64.DecodeString (hmacLine (out r)) = Some secret) /\
  (forall text r evs,
     log s' = log s ++ evs -> In (EvExec (assertCmd device text) r) evs ->
     GoBase64.DecodeString (hmacLine (out r)) = None \/
     (exists x, GoBase64.DecodeString (hmacLine (out r)) = Some x /\
                String.length x <> 32) ->
     exists e, res = Err e).
Proof.
  intros Hrun.
  destruct (GetFIDO2Secret_run _ _ _ _ _ _ _ Hrun) as (evs & L & Hcases).
  split.
  - intros secret ->.
    destruct Hcases as [(_ & e & [=]) | (text & r & pre & post & -> & _ & _ & Hres)].
    destruct (ok r) eqn:Hok; [|discriminate]. cbn [negb] in Hres.
    symmetry in Hres. destruct (parseAssertOutput_Ok _ _ Hres) as [Hdec Hlen].
    split; [exact Hlen|]. exists text, r. eexists. split; [exact L|].
    split; [|auto]. apply in_or_app. right. left. reflexivity.
  - intros text r evs' L' Hin Hbad.
    rewrite L in L'. apply app_inv_head in L'. subst evs'.
    destruct Hcases as [(Hnone & e & ->) | (text' & r' & pre & post & -> & Hpre & Hpost & ->)];
      [eauto|].
    apply in_app_or in Hin. destruct Hin as [Hin|[Heq|Hin]].
    + destruct (commands_nil_no_exec _ _ _ Hpre Hin).
    + injection Heq as _ <-. destruct (negb (ok r')); [eauto|].
      apply parseAssertOutput_Err, Hbad.
    + destruct (commands_nil_no_exec _ _ _ Hpost Hin).
Qed.

End DeriveSecret.

Lemma derive_secret_fails_closed_witness :
  let reply (last : string) :=
    Sim.good ("line 1" +:+ String LF ("line 2" +:+ String LF ("line 3" +:+
              String LF ("line 4" +:+ String LF (last +:+ String LF ""))))) in
  let short := "AAAAAAAAAAAAAAAAAAAAAAAAAAAAAAAAAAAAAAAAAA==" in
  let exact := "AAAAAAAAAAAAAAAAAAAAAAAAAAAAAAAAAAAAAAAAAAA=" in
  option_map String.length (GoBase64.DecodeString short) = Some 31 /\
  (exists e, fst (Fido2.GetFIDO2Secret "/dev/hidraw1" "Ym90dGxl" "Y3JlZA=="
                    "c2FsdA==" (Sim.start [reply short])) = Host.Err e) /\
  (exists secret,
     fst (Fido2.GetFIDO2Secret "/dev/hidraw1" "Ym90dGxl" "Y3JlZA==" "c2FsdA=="
            (Sim.start [reply exact])) = Host.Ok secret /\
     String.length secret = 32).
Proof.
  intros reply short exact.
  split; [by_eval|]. split.
  - pose (run := Fido2.GetFIDO2Secret "/dev/hidraw1" "Ym90dGxl" "Y3JlZA=="
                   "c2FsdA==" (Sim.start [reply short])).
    destruct (derive_secret_fails_closed _ _ _ _ _ (snd run) (fst run)
                (surjective_pairing run)) as [_ Hbad].
    eapply (Hbad _ (reply short) (Host.log (snd run))); [by_eval| |].
    + vm_compute. do 4 right. left. reflexivity.
    + right. eexists. split; [by_eval | by_eval].
  - pose (run := Fido2.GetFIDO2Secret "/dev/hidraw1" "Ym90dGxl" "Y3JlZA=="
                   "c2FsdA==" (Sim.start [reply exact])).
    destruct (derive_secret_fails_closed _ _ _ _ _ (snd run) (fst run)
                (surjective_pairing run)) as [Hgood _].
    eexists. split; [by_eval|].
    eapply Hgood. by_eval.
Defined.

(** ** The identity hash *)

Lemma length_take (n : nat) (s : string) :
  n <= String.length s -> String.length (GoStrings.take n s) = n.
Proof.
  revert s. induction n as [|n IH]; intros s Hn; [reflexivity|].
  destruct s as [|c s]; simpl in *; [lia|]. rewrite IH; [reflexivity | lia].
Qed.

Lemma length_hexDigits (k : nat) (r : N) :
  String.length (GoStrconv.hexDigits k r) = k.
Proof.
  revert r. induction k as [|k IH]; intros r; [reflexivity|].
  simpl. rewrite length_append, IH. simpl. lia.
Qed.

Lemma length_EncodeToString (d : GoSha256.digest) :
  String.length (GoSha256.EncodeToString d) = 64.
Proof.
  unfold GoSha256.EncodeToString, GoSha256.hexWord.
  rewrite !length_append, !length_hexDigits. reflexivity.
Qed.

Lemma length_hashPath (realPath : string) :
  String.length (Bottle.hashPath realPath) = 12.
Proof.
  unfold Bottle.hashPath. apply length_take.
  rewrite length_EncodeToString. lia.
Qed.

(** Every character is one of [0-9a-f]. *)
Definition isHexDigit (c : ascii) : bool :=
  GoStrings.inRange c 48 57 || GoStrings.inRange c 97 102.

Fixpoint allHex (s : string) : bool :=
  match s with
  | EmptyString => true
  | String c r => isHexDigit c && allHex r
  end.

Lemma allHex_append (s t : string) : allHex (s +:+ t) = allHex s && allHex t.
Proof.
  induction s as [|c s IH]; [reflexivity|].
  rewrite append_cons. simpl. rewrite IH, andb_assoc. reflexivity.
Qed.

Lemma isHexDigit_lowerhex (n : N) : (n < 16)%N -> isHexDigit (GoStrconv.lowerhex n) = true.
Proof.
  intros Hn.
  assert (Hcases : In n [0; 1; 2; 3; 4; 5; 6; 7; 8; 9; 10; 11; 12; 13; 14; 15]%N).
  { simpl. lia. }
  simpl in Hcases.
  repeat (destruct Hcases as [<-|Hcases]; [reflexivity|]). destruct Hcases.
Qed.

Lemma allHex_hexDigits (k : nat) (r : N) : allHex (GoStrconv.hexDigits k r) = true.
Proof.
  revert r. induction k as [|k IH]; intros r; [reflexivity|].
  simpl. rewrite allHex_append, IH. simpl.
  rewrite isHexDigit_lowerhex; [reflexivity|].
  change 15%N with (N.ones 4). rewrite N.land_ones.
  apply N.mod_lt. discriminate.
Qed.

Lemma allHex_take (n : nat) (s : string) : allHex s = true -> allHex (GoStrings.take n s) = true.
Proof.
  revert s. induction n as [|n IH]; intros s Hs; [reflexivity|].
  destruct s as [|c s]; [reflexivity|]. simpl in *.
  apply andb_true_iff in Hs. destruct Hs as [-> Hs]. simpl. auto.
Qed.

Lemma allHex_hashPath (realPath : string) : allHex (Bottle.hashPath realPath) = true.
Proof.
  unfold Bottle.hashPath. apply allHex_take.
  unfold GoSha256.EncodeToString, GoSha256.hexWord.
  rewrite !allHex_append, !allHex_hexDigits. reflexivity.
Qed.

(** Spellings: a [.] component between two parts of a path does not change
    what [filepath.Clean] makes of it. *)
Lemma Split_nonempty (sep : ascii) (s : string) : GoStrings.Split sep s <> [].
Proof.
  destruct s as [|c s]; simpl; [discriminate|].
  destruct (Ascii.eqb c sep); [discriminate|].
  destruct (GoStrings.Split sep s); discriminate.
Qed.

Lemma Split_append (sep : ascii) (a b : string) :
  GoStrings.Split sep (a +:+ String sep b) =
  GoStrings.Split sep a ++ GoStrings.Split sep b.
Proof.
  induction a as [|c a IH].
  - simpl. rewrite Ascii.eqb_refl. reflexivity.
  - rewrite append_cons. simpl. destruct (Ascii.eqb c sep); [rewrite IH; reflexivity|].
    rewrite IH. pose proof (Split_nonempty sep a) as Hne.
    destruct (GoStrings.Split sep a); [contradiction | reflexivity].
Qed.

Lemma cleanComps_dot (rooted : bool) (a b : list string) :
  GoPath.cleanComps rooted (a ++ "." :: b) = GoPath.cleanComps rooted (a ++ b).
Proof.
  unfold GoPath.cleanComps. rewrite !fold_left_app. reflexivity.
Qed.

Lemma IsAbs_cons (c : ascii) (x : string) :
  GoPath.IsAbs (String c x) = Ascii.eqb "/" c.
Proof.
  unfold GoPath.IsAbs, GoStrings.HasPrefix. cbn [GoStrings.stripPrefix].
  destruct (Ascii.eqb "/" c); reflexivity.
Qed.

Lemma Clean_dot_component (dir rest : string) :
  GoPath.Clean (dir +:+ "/./" +:+ rest) = GoPath.Clean (dir +:+ "/" +:+ rest).
Proof.
  unfold GoPath.Clean.
  assert (Hne : forall t, String.eqb (dir +:+ String "/" t) "" = false).
  { intros t. destruct dir; reflexivity. }
  change (dir +:+ "/./" +:+ rest) with (dir +:+ String "/" ("." +:+ String "/" rest)).
  change (dir +:+ "/" +:+ rest) with (dir +:+ String "/" rest).
  rewrite !Hne.
  assert (Hroot : forall t, GoPath.IsAbs (dir +:+ String "/" t) = GoPath.IsAbs (dir +:+ "/")).
  { intros t. destruct dir as [|c dir]; [reflexivity|].
    rewrite !append_cons, !IsAbs_cons. reflexivity. }
  rewrite (Hroot rest), (Hroot _).
  rewrite !Split_append.
  change (GoStrings.Split "/" "." ++ GoStrings.Split "/" rest)
    with ("." :: GoStrings.Split "/" rest).
  rewrite cleanComps_dot. reflexivity.
Qed.

Lemma JoinPath_dot_component (wd dir rest : string) :
  GoPath.JoinPath [wd; dir +:+ "/./" +:+ rest] =
  GoPath.JoinPath [wd; dir +:+ "/" +:+ rest].
Proof.
  unfold GoPath.JoinPath.
  assert (Hne : forall t, negb (String.eqb (dir +:+ String "/" t) "") = true).
  { intros t. destruct dir; reflexivity. }
  change (dir +:+ "/./" +:+ rest) with (dir +:+ String "/" ("." +:+ String "/" rest)).
  change (dir +:+ "/" +:+ rest) with (dir +:+ String "/" rest).
  cbn [List.filter]. rewrite !Hne.
  destruct (negb (String.eqb wd "")); cbn [GoStrings.Join].
  - change (wd +:+ "/" +:+ dir +:+ String "/" ("." +:+ String "/" rest))
      with (wd +:+ "/" +:+ dir +:+ "/./" +:+ rest).
    change (wd +:+ "/" +:+ dir +:+ String "/" rest)
      with (wd +:+ "/" +:+ dir +:+ "/" +:+ rest).
    rewrite <- !(append_assoc wd "/" _), <- !(append_assoc (wd +:+ "/") dir _).
    apply Clean_dot_component.
  - apply Clean_dot_component.
Qed.

Section Identity.
Import Host Bottle.
Context {D : Dirs} {U : Permissions.Unicode} {E : Type} `{Host E}.

(** The path a spelling resolves to: what [filepath.Abs] returns, or the
    spelling itself when [Abs] fails. *)
Definition resolved (bottle : string) (a : result string) : string :=
  match a with Ok p => p | Err _ => bottle end.

Lemma AbsM_dot_component (dir rest : string) (s : St E) :
  AbsM (dir +:+ "/./" +:+ rest) s = AbsM (dir +:+ "/" +:+ rest) s.
Proof.
  unfold AbsM.
  assert (Hroot : GoPath.IsAbs (dir +:+ "/./" +:+ rest)
                  = GoPath.IsAbs (dir +:+ "/" +:+ rest)).
  { destruct dir as [|c dir]; [reflexivity|].
    rewrite !append_cons, !IsAbs_cons. reflexivity. }
  rewrite Hroot. clear Hroot.
  destruct (GoPath.IsAbs (dir +:+ "/" +:+ rest)).
  - rewrite Clean_dot_component. reflexivity.
  - unfold bind, ret. destruct (ask EvGetwd s) as [r s1].
    rewrite JoinPath_dot_component. reflexivity.
Qed.

(** C7, as the code has it.  The hash of a bottle is the first twelve
    hexadecimal digits of the SHA-256 of the path [filepath.Abs] resolves
    its spelling to; the mapper name is ["bottle-"] followed by it and the
    config path is the config directory joined with it and [".conf"].  Two
    spellings that resolve to the same path get the same hash, mapper name
    and config path, and a [.] component in a spelling does not change what
    it resolves to. *)
Theorem identity_hash_stable (bottle : string) (s s' : St E) (a : result string) :
  AbsM bottle s = (a, s') ->
  let hash := hashPath (resolved bottle a) in
  (getBottleHash bottle s = (hash, s') /\
   hash = GoStrings.take 12
            (GoSha256.EncodeToString (GoSha256.Sum256 (resolved bottle a))) /\
   String.length hash = 12 /\ allHex hash = true /\
   getMapperName bottle s = ("bottle-" +:+ hash, s') /\
   getConfigPath bottle s = (GoPath.JoinPath [configDir; hash +:+ ".conf"], s')) /\
  (forall other a2 s2,
     AbsM other s = (a2, s2) -> resolved other a2 = resolved bottle a ->
     fst (getBottleHash other s) = hash /\
     fst (getMapperName other s) = "bottle-" +:+ hash /\
     fst (getConfigPath other s) = GoPath.JoinPath [configDir; hash +:+ ".conf"]) /\
  (forall dir rest p t,
     AbsM (dir +:+ "/" +:+ rest) s = (Ok p, t) ->
     getBottleHash (dir +:+ "/./" +:+ rest) s = (hashPath p, t) /\
     getBottleHash (dir +:+ "/" +:+ rest) s = (hashPath p, t)).
Proof.
  intros Ha hash.
  assert (Hrun : forall b x t, AbsM b s = (x, t) ->
            getBottleHash b s = (hashPath (resolved b x), t)).
  { intros b x t Hb. unfold getBottleHash. rewrite (bind_run _ _ _ _ _ Hb).
    reflexivity. }
  assert (Hall : forall b x t, AbsM b s = (x, t) ->
            getMapperName b s = ("bottle-" +:+ hashPath (resolved b x), t) /\
            getConfigPath b s =
              (GoPath.JoinPath [configDir; hashPath (resolved b x) +:+ ".conf"], t)).
  { intros b x t Hb. unfold getMapperName, getConfigPath.
    rewrite !(bind_run _ _ _ _ _ (Hrun b x t Hb)). split; reflexivity. }
  split; [|split].
  - destruct (Hall _ _ _ Ha) as [Hm Hc].
    split; [exact (Hrun _ _ _ Ha)|]. split; [reflexivity|].
    split; [apply length_hashPath|]. split; [apply allHex_hashPath|].
    split; [exact Hm | exact Hc].
  - intros other a2 s2 Ho Hsame.
    destruct (Hall _ _ _ Ho) as [Hm Hc].
    rewrite (Hrun _ _ _ Ho), Hm, Hc, Hsame. repeat split.
  - intros dir rest p t Hp. split.
    + apply (Hrun _ (Ok p)). rewrite AbsM_dot_component. exact Hp.
    + apply (Hrun _ (Ok p)). exact Hp.
Qed.

End Identity.

Lemma identity_hash_stable_witness :
  let s := Sim.start [] in
  fst (Bottle.getBottleHash "x.bottle" s) = "6b5318282cce" /\
  fst (Bottle.getBottleHash "/home/u/x.bottle" s) = "6b5318282cce" /\
  fst (Bottle.getBottleHash "../u/./x.bottle" s) = "6b5318282cce" /\
  fst (Bottle.getMapperName "./x.bottle" s) = "bottle-6b5318282cce" /\
  fst (Bottle.getConfigPath "./x.bottle" s) =
    "/home/u/.config/bottle-launch/6b5318282cce.conf".
Proof.
  intros s.
  pose (run := Host.AbsM "x.bottle" s).
  destruct (identity_hash_stable "x.bottle" s (snd run) (fst run)
              (surjective_pairing run)) as ((Hh & _) & Hsame & _).
  assert (Hval : Bottle.hashPath (resolved "x.bottle" (fst run)) = "6b5318282cce")
    by by_eval.
  rewrite Hval in Hh, Hsame.
  split; [rewrite Hh; reflexivity|].
  pose (r1 := Host.AbsM "/home/u/x.bottle" s).
  destruct (Hsame _ _ _ (surjective_pairing r1)) as (H1 & _); [by_eval|].
  pose (r2 := Host.AbsM "../u/./x.bottle" s).
  destruct (Hsame _ _ _ (surjective_pairing r2)) as (H2 & _); [by_eval|].
  pose (r3 := Host.AbsM "./x.bottle" s).
  destruct (Hsame _ _ _ (surjective_pairing r3)) as (_ & H3 & H4); [by_eval|].
  split; [exact H1|]. split; [exact H2|]. split; [exact H3|].
  rewrite H4. by_eval.
Defined.

(** Two different absolute paths, each its own cleaned form, with the same
    identity hash: the first twelve digits of their SHA-256 agree. *)
Lemma identity_hash_collision :
  let p1 := "/home/u/.local/share/bottles/b33310933.bottle" in
  let p2 := "/home/u/.local/share/bottles/b37649381.bottle" in
  let s := Sim.start [] in
  p1 <> p2 /\
  fst (Host.AbsM p1 s) = Host.Ok p1 /\ fst (Host.AbsM p2 s) = Host.Ok p2 /\
  fst (Bottle.getBottleHash p1 s) = "34480ea7967b" /\
  fst (Bottle.getBottleHash p2 s) = "34480ea7967b" /\
  fst (Bottle.getMapperName p1 s) = fst (Bottle.getMapperName p2 s) /\
  fst (Bottle.getConfigPath p1 s) = fst (Bottle.getConfigPath p2 s).
Proof.
  intros p1 p2 s. split; [discriminate|].
  do 5 (split; [by_eval|]). by_eval.
Qed.

(** ** Saving and loading the config *)





(** The text [savePermissionsAtomic] writes: every line and a newline. *)
Fixpoint joinLines (lines : list string) : string :=
  match lines with
  | [] => EmptyString
  | l :: rest => l +:+ String LF "" +:+ joinLines rest
  end.

(** An ASCII character that is not white space. *)
Definition solid (c : ascii) : bool :=
  N.ltb (code c) 128 && negb (GoStrings.isAsciiSpace c).

Section StringFacts.
Import GoStrings.

Lemma code_byte (c : ascii) (n : N) : isByte c n = true -> code c = n.
Proof. unfold isByte. apply N.eqb_eq. Qed.

Lemma isByte_high (c : ascii) (n : N) :
  solid c = true -> (128 <= n)%N -> isByte c n = false.
Proof.
  unfold solid, isByte. intros Hs Hn. apply andb_true_iff in Hs.
  destruct Hs as [Hs _]. apply N.ltb_lt in Hs. apply N.eqb_neq. lia.
Qed.

Lemma inRange_high (c : ascii) (lo hi : N) :
  solid c = true -> (128 <= lo)%N -> inRange c lo hi = false.
Proof.
  unfold solid, inRange. intros Hs Hn. apply andb_true_iff in Hs.
  destruct Hs as [Hs _]. apply N.ltb_lt in Hs.
  apply andb_false_iff. left. apply N.leb_gt. lia.
Qed.

Lemma solid_not_space (c : ascii) : solid c = true -> isAsciiSpace c = false.
Proof.
  unfold solid. intros Hs. apply andb_true_iff in Hs.
  destruct Hs as [_ Hs]. apply negb_true_iff in Hs. exact Hs.
Qed.

(** A string that starts with a solid character starts with no white
    space. *)
Lemma spaceWidth_solid (c : ascii) (r : string) :
  solid c = true -> spaceWidth (String c r) = 0.
Proof.
  intros Hs. unfold spaceWidth. rewrite (solid_not_space c Hs).
  rewrite !(isByte_high c) by (assumption || lia).
  destruct r as [|d [|e r]]; reflexivity.
Qed.

Lemma trimLeftSpace_solid (c : ascii) (r : string) :
  solid c = true -> trimLeftSpace (String c r) = String c r.
Proof.
  intros Hs. cbn [trimLeftSpace]. rewrite (spaceWidth_solid c r Hs). reflexivity.
Qed.

Lemma spaceWidth_le (s : string) : spaceWidth s <= 3.
Proof.
  unfold spaceWidth. destruct s as [|c [|d [|e r]]];
    repeat match goal with
           | |- context [if ?b then _ else _] => destruct b
           end; lia.
Qed.

(** A string that ends with a solid character is not a white-space rune. *)
Lemma isSpaceRune_solid_end (x : string) (c : ascii) :
  solid c = true -> isSpaceRune (x +:+ String c "") = false.
Proof.
  intros Hs. unfold isSpaceRune.
  destruct x as [|a [|b [|d x]]].
  - simpl. rewrite (solid_not_space c Hs). reflexivity.
  - rewrite !append_cons, append_nil. cbn [spaceWidth String.length].
    rewrite !(isByte_high c) by (assumption || lia).
    destruct (isAsciiSpace a); [reflexivity|].
    rewrite andb_false_r. reflexivity.
  - rewrite !append_cons, append_nil. cbn [spaceWidth String.length].
    rewrite !(isByte_high c), !(inRange_high c) by (assumption || lia).
    destruct (isAsciiSpace a); [reflexivity|].
    destruct (isByte a 194 && (isByte b 133 || isByte b 160)); [reflexivity|].
    rewrite !andb_false_r. reflexivity.
  - apply andb_false_iff. right. apply Nat.eqb_neq.
    pose proof (spaceWidth_le (String a (String b (String d x)) +:+ String c "")) as Hw.
    rewrite length_append. cbn [String.length].
    set (w := spaceWidth _) in *. lia.
Qed.

Lemma trimRightSpace_solid_end (x : string) (c : ascii) :
  solid c = true -> trimRightSpace (x +:+ String c "") = x +:+ String c "".
Proof.
  intros Hs. induction x as [|a x IH].
  - pose proof (isSpaceRune_solid_end "" c Hs) as Hn.
    rewrite append_nil in *. cbn [trimRightSpace]. rewrite Hn. reflexivity.
  - rewrite append_cons. cbn [trimRightSpace]. rewrite IH.
    pose proof (isSpaceRune_solid_end (String a x) c Hs) as Hn.
    rewrite append_cons in Hn. rewrite Hn. reflexivity.
Qed.



Lemma code_inj_eqb (c d : ascii) : Ascii.eqb c d = N.eqb (code c) (code d).
Proof.
  unfold code. destruct (Ascii.eqb_spec c d) as [->|Hne].
  - symmetry. apply N.eqb_refl.
  - symmetry. apply N.eqb_neq. intros Heq. apply Hne.
    rewrite <- (ascii_N_embedding c), <- (ascii_N_embedding d), Heq. reflexivity.
Qed.






(** A plain string has no newline in it, so it is one piece for
    [Split]. *)
Definition noLF (s : string) : Prop := IndexByte s LF = None.

Lemma Split_noLF (s : string) : noLF s -> Split LF s = [s].
Proof.
  unfold noLF. induction s as [|c r IH]; [reflexivity|].
  cbn [IndexByte Split]. destruct (Ascii.eqb c LF); [discriminate|].
  destruct (IndexByte r LF); [discriminate|]. intros _. rewrite IH; reflexivity.
Qed.

Lemma noLF_append (s t : string) : noLF s -> noLF t -> noLF (s +:+ t).
Proof.
  unfold noLF. induction s as [|c r IH]; [auto|].
  rewrite append_cons. cbn [IndexByte]. destruct (Ascii.eqb c LF); [discriminate|].
  destruct (IndexByte r LF) eqn:Hr; [discriminate|]. intros _ Ht.
  rewrite (IH eq_refl Ht). reflexivity.
Qed.


Lemma Split_joinLines (lines : list string) :
  Forall noLF lines -> Split LF (joinLines lines) = lines ++ [""].
Proof.
  induction 1 as [|l rest Hl _ IH]; [reflexivity|].
  cbn [joinLines]. change (l +:+ String LF "" +:+ joinLines rest)
    with (l +:+ String LF (joinLines rest)).
  rewrite Split_append, (Split_noLF l Hl), IH. reflexivity.
Qed.


Definition lineOK (l : string) : Prop :=
  N.ltb (N.of_nat (String.length l)) GoBufio.MaxScanTokenSize = true /\
  GoBufio.dropCR l = l.

Lemma scanPieces_lines (lines : list string) :
  Forall lineOK lines -> GoBufio.scanPieces (lines ++ [""]) = lines.
Proof.
  induction 1 as [|l rest [Hlen Hcr] _ IH]; [reflexivity|].
  cbn [app GoBufio.scanPieces].
  destruct (rest ++ [""]) eqn:Hrest; [destruct rest; discriminate|].
  rewrite Hlen, Hcr, IH. reflexivity.
Qed.


End StringFacts.

Section ConfigLines.
Import GoStrings Permissions.










End ConfigLines.

Section RoundTrip.
Import GoStrings Host Permissions.
Context {U : Unicode} {E : Type} `{Host E}.















End RoundTrip.




(** * Further properties *)

(** ** The permission screen *)
Section PermissionScreen.
Import Permissions.

(** [Toggle] flips the permission at an index of the screen and nothing
    else, so toggling twice restores the set; at an index outside the
    screen it changes nothing.  The last application and the FIDO2
    fields are never touched, so toggling cannot change what
    [IsFIDO2Bottle] says. *)
Theorem Toggle_flips_one (p : Permissions) (i j : Z) :
  IsEnabled (Toggle p i) j =
    (if (0 <=? i)%Z && (i <? 7)%Z && (i =? j)%Z
     then negb (IsEnabled p j) else IsEnabled p j) /\
  Toggle (Toggle p i) i = p /\
  ((i < 0)%Z \/ (6 < i)%Z -> Toggle p i = p) /\
  LastApp (Toggle p i) = LastApp p /\
  Fido2.IsFIDO2Bottle (Toggle p i) = Fido2.IsFIDO2Bottle p.
Proof.
  destruct p as [n a g w x c po la bid cid sa hint].
  split; [|split; [|split; [|split]]].
  - destruct i as [|[[[q|q|]|[q|q|]|]|[[q|q|]|[q|q|]|]|]|q];
      try reflexivity;
      destruct j as [|[[[q'|q'|]|[q'|q'|]|]|[[q'|q'|]|[q'|q'|]|]|]|q'];
      reflexivity.
  - destruct i as [|[[[q|q|]|[q|q|]|]|[[q|q|]|[q|q|]|]|]|q];
      cbn; rewrite ?negb_involutive; reflexivity.
  - intros Hout.
    destruct i as [|[[[q|q|]|[q|q|]|]|[[q|q|]|[q|q|]|]|]|q];
      first [ reflexivity | lia ].
  - destruct i as [|[[[q|q|]|[q|q|]|]|[[q|q|]|[q|q|]|]|]|q]; reflexivity.
  - destruct i as [|[[[q|q|]|[q|q|]|]|[[q|q|]|[q|q|]|]|]|q]; reflexivity.
Qed.

(** The permissions of the screen that are enabled, in screen order. *)
Definition enabledDefs (p : Permissions) : list PermissionDef :=
  map snd
    (List.filter (fun d => IsEnabled p (fst d))
       (combine (map Z.of_nat (seq 0 (length permissionDefs))) permissionDefs)).

(** [Summary] shows the labels of exactly the permissions [IsEnabled]
    reports, in the order of the screen, separated by single spaces; it
    is empty exactly when no permission is enabled. *)
Theorem Summary_lists_enabled (p : Permissions) :
  Summary p = GoStrings.Join (map Label (enabledDefs p)) " " /\
  (Summary p = "" <-> forall i, IsEnabled p i = false).
Proof.
  destruct p as [n a g w x c po la bid cid sa hint].
  split.
  - destruct n, a, g, w, x, c, po; vm_compute; reflexivity.
  - split.
    + intros Hs i.
      destruct n, a, g, w, x, c, po; try (vm_compute in Hs; discriminate Hs).
      destruct i as [|[[[q|q|]|[q|q|]|]|[[q|q|]|[q|q|]|]|]|q]; reflexivity.
    + intros Hall.
      pose proof (Hall 0%Z) as H0. pose proof (Hall 1%Z) as H1.
      pose proof (Hall 2%Z) as H2. pose proof (Hall 3%Z) as H3.
      pose proof (Hall 4%Z) as H4. pose proof (Hall 5%Z) as H5.
      pose proof (Hall 6%Z) as H6. cbn in H0, H1, H2, H3, H4, H5, H6.
      subst. reflexivity.
Qed.

End PermissionScreen.

Lemma Toggle_flips_one_witness :
  Permissions.Toggle Permissions.defaultPermissions 7 = Permissions.defaultPermissions /\
  Permissions.IsEnabled (Permissions.Toggle Permissions.defaultPermissions 5) 5 = true.
Proof.
  destruct (Toggle_flips_one Permissions.defaultPermissions 7 5) as (_ & _ & Hout & _).
  destruct (Toggle_flips_one Permissions.defaultPermissions 5 5) as (Hin & _).
  split; [apply Hout; right; lia | rewrite Hin; reflexivity].
Defined.

(** ** The config file is replaced atomically *)
Section AtomicSave.
Import Host Permissions.
Context {U : Unicode} {E : Type} `{Host E}.

(** The write loop, on a temporary file that is not part of [base]: when
    it fails the file is gone again. *)
Lemma writeLines_files (tempPath : string) (lines : list string)
  (s s' : St E) (res : option error) (old : string) (base : gmap string string) :
  writeLines tempPath lines s = (res, s') ->
  files s = <[tempPath := old]> base -> base !! tempPath = None ->
  files s' = match res with
             | None => <[tempPath := old +:+ joinLines lines]> base
             | Some _ => base
             end.
Proof.
  revert s old. induction lines as [|l rest IH]; intros s old.
  - cbn [writeLines joinLines]. unfold ret. intros [= <- <-] Hs _.
    rewrite append_nil_r. exact Hs.
  - cbn [writeLines joinLines]. unfold bind at 1. unfold WriteString.
    destruct (sys _ (env s)) as [r e]. intros Hrun Hs Hfresh.
    rewrite Hs, lookup_insert_eq in Hrun.
    destruct (ok r).
    + apply IH with (old := old +:+ (l +:+ String LF "")) in Hrun.
      * rewrite Hrun. destruct res; [reflexivity|].
        rewrite !append_assoc. reflexivity.
      * cbn [files]. apply insert_insert_eq.
      * exact Hfresh.
    + unfold bind, Remove, ret in Hrun. cbn [files env log] in Hrun.
      injection Hrun as <- <-. cbn [files].
      apply delete_insert_id, Hfresh.
Qed.

(** A save either installs the complete text under [path] and leaves no
    other trace in the file system, or fails and leaves the file system as
    it was: the old config, if any, is still there, and no temporary file
    stays behind. *)
Theorem save_all_or_nothing (path : string) (p : Permissions)
  (s s' : St E) (res : option error) :
  savePermissionsAtomic path p s = (res, s') ->
  files s' = match res with
             | None => <[path := joinLines (configLines p)]> (files s)
             | Some _ => files s
             end.
Proof.
  unfold savePermissionsAtomic. unfold bind at 1 2.
  unfold MkdirAll, note, CreateTemp. cbn [files env log].
  destruct (sys _ (env s)) as [r0 e0].
  destruct (ok r0); [|unfold ret; intros [= <- <-]; reflexivity].
  destruct (files s !! out r0) eqn:Hfresh;
    [unfold ret; intros [= <- <-]; reflexivity|].
  rewrite bind_unfold.
  destruct (writeLines (out r0) (configLines p) _) as [w s1] eqn:Hw.
  cbn [fst snd].
  apply writeLines_files with (old := "") (base := files s) in Hw;
    [|reflexivity|exact Hfresh].
  destruct w as [err|]; [unfold ret; intros [= <- <-]; exact Hw|].
  rewrite append_nil in Hw.
  unfold Sync, syncDir, Rename, Remove, note, ask. unfold bind, ret. cbv beta.
  destruct (sys (EvSync (out r0)) (env s1)) as [r1 e1].
  destruct (ok r1); cbn beta iota delta [files env log].
  - destruct (sys (EvRename (out r0) path) e1) as [r2 e2].
    destruct (ok r2); cbn beta iota delta [files env log].
    + rewrite Hw, lookup_insert_eq. cbn beta iota delta [files env log].
      destruct (sys _ e2) as [r3 e3]. cbn beta iota delta [files env log].
      destruct (ok r3); intros [= <- <-]; cbn [files];
        rewrite delete_insert_id by exact Hfresh; reflexivity.
    + intros [= <- <-]. cbn [files]. rewrite Hw.
      apply delete_insert_id, Hfresh.
  - intros [= <- <-]. cbn [files]. rewrite Hw.
    apply delete_insert_id, Hfresh.
Qed.

End AtomicSave.

(** A host on which the calls [fails] selects fail. *)
Definition faultySys (fails : Host.Event -> bool) (ev : Host.Event) (e : Sim.Env)
  : Host.Reply * Sim.Env :=
  if fails ev then (Sim.bad "input/output error", e) else Sim.simSys ev e.

Definition faultyHost (fails : Host.Event -> bool) : Host.Host Sim.Env :=
  {| Host.tool := Sim.simTool; Host.sys := faultySys fails |}.

Definition isSync (ev : Host.Event) : bool :=
  match ev with Host.EvSync _ => true | _ => false end.

Lemma save_all_or_nothing_witness :
  let path := "/home/u/.config/bottle-launch/0123456789ab.conf" in
  let p := Permissions.defaultPermissions in
  let s := Host.MkSt {[ path := "PREF_CAMERA=1" ]} (Sim.MkEnv [] 0) [] in
  let good := Permissions.savePermissionsAtomic path p s in
  let bad := @Permissions.savePermissionsAtomic _ _ (faultyHost isSync) path p s in
  (fst good = None /\
   Host.files (snd good) =
     <[path := joinLines (Permissions.configLines p)]> (Host.files s)) /\
  (fst bad = Some (Host.osError "input/output error") /\
   Host.files (snd bad) = Host.files s).
Proof.
  intros path p s good bad. split.
  - split; [by_eval|].
    apply (save_all_or_nothing path p s (snd good) None). by_eval.
  - split; [by_eval|].
    apply (@save_all_or_nothing _ _ (faultyHost isSync) path p s (snd bad)
             (Some (Host.osError "input/output error"))).
    by_eval.
Defined.

(** ** What the loader skips *)
Section LoaderSkips.
Import GoStrings Permissions.

(** The keys [loadPermissions] knows. *)
Definition knownKeys : list string :=
  [ "PREF_NETWORK"; "PREF_AUDIO"; "PREF_GPU"; "PREF_WAYLAND"; "PREF_X11";
    "PREF_CAMERA"; "PREF_PORTALS"; "PREF_LAST_APP"; "FIDO2_BOTTLE_ID";
    "FIDO2_CREDENTIAL_ID"; "FIDO2_SALT"; "FIDO2_DEVICE_HINT" ].

(** A line that is blank, a comment, has no equals sign, or sets a key the
    loader does not know. *)
Definition skipped (text : string) : Prop :=
  let line := TrimSpace text in
  line = "" \/ HasPrefix line "#" = true \/ cut "=" line = None \/
  exists k v, cut "=" line = Some (k, v) /\ ~ In (TrimSpace k) knownKeys.

(** A line of a text file as the scanner returns it unchanged: no newline
    in it, no carriage return at its end, and short enough. *)
Definition scannable (l : string) : Prop := noLF l /\ lineOK l.

Lemma assign_unknown (p : Permissions) (key val : string) :
  ~ In key knownKeys -> assign p key val = p.
Proof.
  intros Hk. destruct p as [n a g w x c po la bid cid sa hint].
  unfold assign.
  repeat match goal with
  | |- context [String.eqb key ?lit] =>
      destruct (String.eqb_spec key lit) as [->|_];
        [exfalso; apply Hk; cbn; tauto|]
  end.
  reflexivity.
Qed.

Lemma loadLine_skipped (p : Permissions) (text : string) :
  skipped text -> loadLine p text = p.
Proof.
  unfold skipped, loadLine. intros [Hb|[Hc|[Hn|(k & v & Hkv & Hk)]]].
  - rewrite Hb. reflexivity.
  - rewrite Hc, orb_true_r. reflexivity.
  - rewrite Hn. destruct (_ || _); reflexivity.
  - rewrite Hkv. destruct (_ || _); [reflexivity|].
    apply assign_unknown, Hk.
Qed.

Lemma parse_lines (lines : list string) :
  Forall scannable lines ->
  parsePermissions (joinLines lines) = fold_left loadLine lines defaultPermissions.
Proof.
  intros Hl. unfold parsePermissions, GoBufio.scanLines.
  rewrite Split_joinLines, scanPieces_lines; [reflexivity| |].
  - eapply Forall_impl; [exact Hl|]. intros l [_ Hok]. exact Hok.
  - eapply Forall_impl; [exact Hl|]. intros l [Hno _]. exact Hno.
Qed.

(** Blank lines, comments, lines without an equals sign and settings with
    an unknown key can stand anywhere in a config file: the permissions
    loaded are those of the file without them. *)
Theorem load_skips_what_it_does_not_know (before after : list string)
  (junk : string) :
  Forall scannable (before ++ junk :: after) ->
  skipped junk ->
  parsePermissions (joinLines (before ++ junk :: after)) =
  parsePermissions (joinLines (before ++ after)).
Proof.
  intros Hall Hj.
  assert (Hrest : Forall scannable (before ++ after)).
  { apply Forall_app in Hall. destruct Hall as [Hb Ha].
    apply Forall_app. split; [exact Hb|]. inversion Ha; assumption. }
  rewrite !parse_lines by assumption.
  rewrite !fold_left_app. cbn [fold_left].
  rewrite loadLine_skipped by exact Hj. reflexivity.
Qed.

End LoaderSkips.

Lemma load_skips_what_it_does_not_know_witness :
  Permissions.parsePermissions
    (joinLines ["PREF_CAMERA=1"; "THEME = dark"; "PREF_NETWORK=0"]) =
  Permissions.parsePermissions (joinLines ["PREF_CAMERA=1"; "PREF_NETWORK=0"]).
Proof.
  apply (load_skips_what_it_does_not_know ["PREF_CAMERA=1"] ["PREF_NETWORK=0"]
           "THEME = dark").
  - repeat constructor; by_eval.
  - right. right. right. exists "THEME ", " dark". split; [by_eval|].
    intros Hin. cbn in Hin.
    repeat (destruct Hin as [Hin|Hin]; [vm_compute in Hin; discriminate Hin|]).
    exact Hin.
Defined.

(** ** The file-system label *)
Section Label.
Import GoStrings Bottle.

Lemma take_drop (n : nat) (s : string) : take n s +:+ drop n s = s.
Proof.
  revert s. induction n as [|n IH]; intros [|c s]; try reflexivity.
  cbn [take drop]. rewrite append_cons, IH. reflexivity.
Qed.

(** The label handed to [mkfs.ext4] never exceeds the 16 bytes ext4
    allows; it is the start of the bottle's base name without its
    [.bottle] suffix, and all of it when that is short enough. *)
Theorem getFSLabel_fits (bottle : string) :
  String.length (getFSLabel bottle) <= 16 /\
  exists rest,
    TrimSuffix (GoPath.Base bottle) ".bottle" = getFSLabel bottle +:+ rest /\
    (String.length (TrimSuffix (GoPath.Base bottle) ".bottle") <= 16 -> rest = "").
Proof.
  unfold getFSLabel. set (name := TrimSuffix (GoPath.Base bottle) ".bottle").
  destruct (Nat.ltb_spec 16 (String.length name)) as [Hlong|Hshort].
  - split; [rewrite length_take; lia|].
    exists (drop 16 name). split; [symmetry; apply take_drop|]. lia.
  - split; [exact Hshort|]. exists "". split; [|reflexivity].
    symmetry. apply append_nil_r.
Qed.

End Label.

Lemma getFSLabel_fits_witness :
  Bottle.getFSLabel "/home/u/.local/share/bottles/a-very-long-bottle-name.bottle"
    = "a-very-long-bott" /\
  Bottle.getFSLabel "/home/u/.local/share/bottles/keepass.bottle" = "keepass".
Proof.
  destruct (getFSLabel_fits "/home/u/.local/share/bottles/keepass.bottle")
    as (_ & rest & Heq & Hshort).
  split; [by_eval|].
  rewrite (Hshort ltac:(vm_compute; lia)), append_nil_r in Heq.
  rewrite <- Heq. by_eval.
Defined.

(** ** The sandbox *)
Section Sandbox.
Import GoStrings Permissions Flatpak.

Lemma app_if {A} (b : bool) (l x : list A) :
  (if b then l ++ x else l) = l ++ (if b then x else []).
Proof. destruct b; [reflexivity | symmetry; apply app_nil_r]. Qed.

Lemma forallb_if {A} (P : A -> bool) (b : bool) (l : list A) :
  forallb P l = true -> forallb P (if b then l else []) = true.
Proof. destruct b; auto. Qed.

(** One of the equivalences below, once membership is spelled out. *)
Ltac flag_iff :=
  split;
  [ intros Hin;
    repeat (apply in_app_or in Hin; destruct Hin as [Hin|Hin]);
    try match type of Hin with In _ (if ?b then _ else _) => destruct b end;
    cbn [In] in Hin;
    repeat (destruct Hin as [Hin|Hin]);
    first [ reflexivity | discriminate Hin
          | rewrite !append_cons in Hin; discriminate Hin | destruct Hin ]
  | intros ->;
    repeat first [ apply in_or_app; left; cbn; tauto | apply in_or_app; right ] ].

(** The sandbox is granted exactly the permissions that are enabled.  The
    arguments are [run --sandbox --filesystem=<mount point>], options, the
    application and the caller's extra arguments; among the options the
    flag of a permission (for portals, each of its three bus names)
    occurs if and only if the permission is enabled, and no option is a
    second [--filesystem=]. *)
Theorem sandbox_grants_what_is_enabled
  (appID mountPoint : string) (perms : Permissions) (extraArgs : list string) :
  exists opts,
    buildFlatpakArgs appID mountPoint perms extraArgs =
      "run" :: "--sandbox" :: ("--filesystem=" +:+ mountPoint) :: opts
      ++ appID :: extraArgs /\
    (In "--share=network" opts <-> IsEnabled perms 0 = true) /\
    (In "--socket=pulseaudio" opts <-> IsEnabled perms 1 = true) /\
    (In "--device=dri" opts <-> IsEnabled perms 2 = true) /\
    (In "--socket=wayland" opts <-> IsEnabled perms 3 = true) /\
    (In "--socket=fallback-x11" opts <-> IsEnabled perms 4 = true) /\
    (In "--device=video0" opts <-> IsEnabled perms 5 = true) /\
    (In "--talk-name=org.freedesktop.portal.Desktop" opts <->
       IsEnabled perms 6 = true) /\
    (In "--talk-name=org.freedesktop.portal.Notification" opts <->
       IsEnabled perms 6 = true) /\
    (In "--talk-name=org.freedesktop.portal.FileChooser" opts <->
       IsEnabled perms 6 = true) /\
    forallb (fun o => HasPrefix o "--" && negb (HasPrefix o "--filesystem="))
            opts = true.
Proof.
  destruct perms as [n a g w x c po la bid cid sa hint].
  unfold buildFlatpakArgs.
  cbn [Network Audio GPU Wayland X11 Camera Portals IsEnabled].
  rewrite !app_if.
  match goal with
  | |- exists opts,
         (((((((((_ ++ ?A1) ++ ?A2) ++ ?A3) ++ ?A4) ++ ?A5) ++ ?A6) ++ ?A7)
            ++ ?ENV) ++ _) ++ _ = _ /\ _ =>
      exists (A1 ++ A2 ++ A3 ++ A4 ++ A5 ++ A6 ++ A7 ++ ENV)
  end.
  split; [rewrite <- !app_assoc; reflexivity|].
  do 9 (split; [flag_iff|]).
  rewrite !forallb_app.
  repeat (apply andb_true_intro; split);
    first [ apply forallb_if; reflexivity | vm_compute; reflexivity ].
Qed.

End Sandbox.

(** ** Stepping through a run *)
Section Stepping.
Import Host.
Context {E : Type} `{Host E}.

Lemma bind_assoc {A B C} (m : M E A) (k1 : A -> M E B) (k2 : B -> M E C)
  (s : St E) :
  bind (bind m k1) k2 s = bind m (fun a => bind (k1 a) k2) s.
Proof. unfold bind. destruct (m s). reflexivity. Qed.

Lemma bind_ret {A B} (a : A) (k : A -> M E B) (s : St E) :
  bind (ret a) k s = k a s.
Proof. reflexivity. Qed.

Lemma note_log (ev : Event) (s s' : St E) (u : unit) :
  note ev s = (u, s') ->
  log s' = log s ++ [ev] /\ files s' = files s /\ env s' = env s.
Proof. unfold note, record. intros [= <- <-]. auto. Qed.

Lemma ask_log (ev : Event) (s s' : St E) (r : Reply) :
  ask ev s = (r, s') -> log s' = log s ++ [ev] /\ files s' = files s.
Proof.
  unfold ask, record. destruct (sys ev (env s)). intros [= <- <-]. auto.
Qed.

Lemma log_start (s : St E) : log s = log s ++ [].
Proof. symmetry. apply app_nil_r. Qed.

Lemma log_step (l0 evs : list Event) (ev : Event) (s s1 : St E) :
  log s = l0 ++ evs -> log s1 = log s ++ [ev] -> log s1 = l0 ++ (evs ++ [ev]).
Proof. intros -> ->. symmetry. apply app_assoc. Qed.

End Stepping.

(** One step of a run [H : m s = (a, s')] whose log so far is described by
    [HL : log s = l0 ++ evs]. *)
Ltac run_step H HL :=
  lazymatch type of H with
  | Host.bind (Host.bind _ _) _ _ = _ => rewrite bind_assoc in H
  | Host.bind (Host.ret _) _ _ = _ => rewrite bind_ret in H
  | Host.bind (if ?b then _ else _) _ _ = _ => destruct b eqn:?
  | Host.bind (Host.exec ?c) _ ?s = _ =>
      let r := fresh "r" in
      let s1 := fresh "s" in
      let Hx := fresh "Hx" in
      rewrite bind_unfold in H;
      destruct (Host.exec c s) as [r s1] eqn:Hx;
      apply exec_log in Hx; cbn [fst snd] in H;
      apply (log_step _ _ _ _ _ HL) in Hx; cbn [app] in Hx;
      clear HL; rename Hx into HL
  | Host.bind (Host.note ?ev) _ ?s = _ =>
      let u := fresh "u" in
      let s1 := fresh "s" in
      let Hx := fresh "Hx" in
      rewrite bind_unfold in H;
      destruct (Host.note ev s) as [u s1] eqn:Hx;
      apply note_log in Hx; destruct Hx as (Hx & _ & _); cbn [fst snd] in H;
      apply (log_step _ _ _ _ _ HL) in Hx; cbn [app] in Hx;
      clear HL; rename Hx into HL
  | Host.bind (Host.Sleep ?ms) _ ?s = _ =>
      let u := fresh "u" in
      let s1 := fresh "s" in
      let Hx := fresh "Hx" in
      rewrite bind_unfold in H;
      destruct (Host.Sleep ms s) as [u s1] eqn:Hx;
      apply note_log in Hx; destruct Hx as (Hx & _ & _); cbn [fst snd] in H;
      apply (log_step _ _ _ _ _ HL) in Hx; cbn [app] in Hx;
      clear HL; rename Hx into HL
  | (if ?b then _ else _) _ = _ => destruct b eqn:?
  | Host.ret _ _ = _ => unfold Host.ret in H; injection H as <- <-
  end.

(** ** Looking for commands in a log *)
Section Looking.
Import Host.

Fixpoint argvEqb (a b : list string) : bool :=
  match a, b with
  | [], [] => true
  | x :: a', y :: b' => String.eqb x y && argvEqb a' b'
  | _, _ => false
  end.

Definition stdinEqb (a b : option string) : bool :=
  match a, b with
  | None, None => true
  | Some x, Some y => String.eqb x y
  | _, _ => false
  end.

Definition captureEqb (a b : Capture) : bool :=
  match a, b with
  | CombinedOutput, CombinedOutput | Output, Output | Run, Run => true
  | _, _ => false
  end.

Definition cmdEqb (c c' : Cmd) : bool :=
  argvEqb (argv c) (argv c') && stdinEqb (stdin c) (stdin c') &&
  captureEqb (capture c) (capture c').

Lemma argvEqb_eq (a b : list string) : argvEqb a b = true <-> a = b.
Proof.
  revert b. induction a as [|x a IH]; intros [|y b]; cbn;
    try (split; [discriminate|discriminate]); [tauto|].
  rewrite andb_true_iff, String.eqb_eq, IH. split.
  - intros [-> ->]. reflexivity.
  - intros [= -> ->]. auto.
Qed.

Lemma cmdEqb_eq (c c' : Cmd) : cmdEqb c c' = true <-> c = c'.
Proof.
  destruct c as [a i k], c' as [a' i' k']. unfold cmdEqb. cbn [argv stdin capture].
  rewrite !andb_true_iff, argvEqb_eq. split.
  - intros [[-> Hi] Hk].
    assert (i = i') as ->.
    { destruct i, i'; cbn in Hi; try discriminate; [|reflexivity].
      apply String.eqb_eq in Hi. congruence. }
    destruct k, k'; cbn in Hk; try discriminate; reflexivity.
  - intros [= -> -> ->]. repeat split.
    + destruct i'; cbn; [apply String.eqb_refl | reflexivity].
    + destruct k'; reflexivity.
Qed.

(** A command was run and succeeded. *)
Definition succeeded (c : Cmd) (evs : list Event) : Prop :=
  exists r, In (EvExec c r) evs /\ ok r = true.

(** A command was run. *)
Definition attempted (c : Cmd) (evs : list Event) : Prop :=
  exists r, In (EvExec c r) evs.

Definition succeededb (c : Cmd) (evs : list Event) : bool :=
  existsb (fun ev => match ev with
                     | EvExec c' r => cmdEqb c' c && ok r
                     | _ => false
                     end) evs.

Definition attemptedb (c : Cmd) (evs : list Event) : bool :=
  existsb (fun ev => match ev with
                     | EvExec c' _ => cmdEqb c' c
                     | _ => false
                     end) evs.

Lemma succeeded_b (c : Cmd) (evs : list Event) :
  succeededb c evs = true <-> succeeded c evs.
Proof.
  unfold succeededb, succeeded. rewrite existsb_exists. split.
  - intros (ev & Hin & Hev). destruct ev as [c' r| | | | | | | | | | | |];
      try discriminate.
    apply andb_true_iff in Hev. destruct Hev as [Hc Hr].
    apply cmdEqb_eq in Hc. subst c'. exists r. auto.
  - intros (r & Hin & Hr). exists (EvExec c r). split; [exact Hin|].
    apply andb_true_iff. split; [apply cmdEqb_eq; reflexivity | exact Hr].
Qed.

Lemma attempted_b (c : Cmd) (evs : list Event) :
  attemptedb c evs = true <-> attempted c evs.
Proof.
  unfold attemptedb, attempted. rewrite existsb_exists. split.
  - intros (ev & Hin & Hev). destruct ev as [c' r| | | | | | | | | | | |];
      try discriminate.
    apply cmdEqb_eq in Hev. subst c'. exists r. exact Hin.
  - intros (r & Hin). exists (EvExec c r). split; [exact Hin|].
    apply cmdEqb_eq. reflexivity.
Qed.

End Looking.

(** Evaluates a search through an explicit list of events. *)
Ltac look :=
  unfold succeededb, attemptedb, cmdEqb;
  cbn [existsb argvEqb stdinEqb captureEqb Host.argv Host.stdin Host.capture
       andb orb String.eqb Ascii.eqb Bool.eqb];
  rewrite ?String.eqb_refl;
  repeat match goal with
  | Hq : Host.ok ?r = _ |- context [Host.ok ?r] => rewrite Hq
  end;
  cbn [andb orb].

Ltac look_in H :=
  unfold succeededb, attemptedb, cmdEqb in H;
  cbn [existsb argvEqb stdinEqb captureEqb Host.argv Host.stdin Host.capture
       andb orb String.eqb Ascii.eqb Bool.eqb] in H;
  rewrite ?String.eqb_refl in H;
  repeat match type of H with
  | context [Host.ok ?r] =>
      match goal with Hq : Host.ok r = _ |- _ => rewrite Hq in H end
  end;
  cbn [andb orb] in H.

Ltac found :=
  first [ apply succeeded_b | apply attempted_b ]; look; reflexivity.

Ltac not_found :=
  match goal with
  | Hs : succeeded _ _ |- _ =>
      apply succeeded_b in Hs; look_in Hs; discriminate Hs
  | Hs : attempted _ _ |- _ =>
      apply attempted_b in Hs; look_in Hs; discriminate Hs
  end.

(** ** Releasing a mounted bottle *)
Section Release.
Import Host Mount.
Context {E : Type} `{Host E}.

Definition syncCmd (mountPoint : string) : Cmd :=
  MkCmd ["sync"; "-f"; mountPoint] None Run.
Definition unmountCmd (device : string) : Cmd :=
  MkCmd ["udisksctl"; "unmount"; "-b"; device] None CombinedOutput.
Definition forceUnmountCmd (device : string) : Cmd :=
  MkCmd ["udisksctl"; "unmount"; "-b"; device; "--force"] None CombinedOutput.
Definition loopDeleteCmd (loopDev : string) : Cmd :=
  MkCmd ["udisksctl"; "loop-delete"; "-b"; loopDev] None CombinedOutput.

(** The replies to the [udisksctl lock] commands, in order. *)
Definition isLock (c : Cmd) : bool :=
  match argv c with
  | ["udisksctl"; "lock"; "-b"; _] => true
  | _ => false
  end.

Definition lockReplies (evs : list Event) : list Reply :=
  omap (fun ev => match ev with
                  | EvExec c r => if isLock c then Some r else None
                  | _ => None
                  end) evs.

Definition sleeps (evs : list Event) : list N :=
  omap (fun ev => match ev with EvSleep ms => Some ms | _ => None end) evs.

(** What [udisksUnmountBottle] had to release has been released. *)
Definition released (info : MountInfo) (evs : list Event) : Prop :=
  (CleartextDevice info <> "" ->
   succeeded (unmountCmd (CleartextDevice info)) evs \/
   succeeded (forceUnmountCmd (CleartextDevice info)) evs) /\
  (LoopDevice info <> "" ->
   succeeded (lockCmd (LoopDevice info)) evs /\
   succeeded (loopDeleteCmd (LoopDevice info)) evs).

(** Every run of the unmount sequence, with all the facts used below. *)
Lemma unmount_runs (info : MountInfo) (s s' : St E) (res : option error) :
  udisksUnmountBottle (Some info) s = (res, s') ->
  exists evs, log s' = log s ++ evs /\
    (res = None <-> released info evs) /\
    (CleartextDevice info <> "" ->
     attempted (lockCmd (LoopDevice info)) evs \/
     attempted (loopDeleteCmd (LoopDevice info)) evs ->
     succeeded (unmountCmd (CleartextDevice info)) evs \/
     succeeded (forceUnmountCmd (CleartextDevice info)) evs) /\
    (attempted (loopDeleteCmd (LoopDevice info)) evs ->
     succeeded (lockCmd (LoopDevice info)) evs) /\
    length (lockReplies evs) <= UnmountRetryCount /\
    sleeps evs = repeat UnmountRetryDelay (length (lockReplies evs) - 1) /\
    Forall (fun r => ok r = false) (removelast (lockReplies evs)) /\
    (forall msg, res = Some (mountError "lock" msg) ->
       length (lockReplies evs) = UnmountRetryCount /\
       Forall (fun r => ok r = false) (lockReplies evs) /\
       msg = out (List.last (lockReplies evs) (MkReply true "" ""))).
Proof.
  intros Hrun. pose proof (log_start s) as HL.
  unfold udisksUnmountBottle, UnmountRetryCount in Hrun.
  cbn [lockRetry Nat.ltb Nat.leb] in Hrun.
  unfold released, UnmountRetryCount.
  destruct info as [ld cd mp bp]. cbn [LoopDevice CleartextDevice MountPoint] in *.
  repeat run_step Hrun HL.
  all: cbn [fst snd] in *; try discriminate.
  all: eexists; (split; [exact HL|]); clear HL.
  all: repeat match goal with
       | Hq : isEmpty _ = true |- _ => apply isEmpty_true in Hq; subst
       | Hq : isEmpty _ = false |- _ => apply isEmpty_false in Hq
       | Hq : negb _ = true |- _ => apply negb_true_iff in Hq
       | Hq : negb _ = false |- _ => apply negb_false_iff in Hq
       end.
  all: unfold unmountCmd, forceUnmountCmd, loopDeleteCmd, lockCmd.
  all: split;
    [ split;
      [ intros Hres;
        first [ discriminate Hres
              | split; intros ?;
                first [ congruence | split; found | left; found | right; found ] ]
      | first [ reflexivity
              | intros [Hc Hl]; exfalso;
                try (specialize (Hc ltac:(assumption)); destruct Hc);
                try (specialize (Hl ltac:(assumption)); destruct Hl);
                not_found ] ]
    | ].
  all: split;
    [ intros ? Hatt;
      first [ congruence | left; found | right; found
            | exfalso; destruct Hatt; not_found ] | ].
  all: split; [ intros Hatt; first [ found | exfalso; not_found ] | ].
  all: split; [ cbn; lia | ].
  all: split; [ reflexivity | ].
  all: split; [ cbn; repeat constructor; assumption | ].
  all: intros msg Hres;
    first [ discriminate Hres
          | injection Hres as <-;
            split; [ reflexivity | split; [|reflexivity] ];
            cbn; repeat constructor; assumption ].
Qed.

(** [udisksUnmountBottle] returns nil exactly when it has released what
    the [MountInfo] names: the file system was unmounted, by the plain or
    by the forced unmount, and the loop device was locked and deleted.  It
    works from the inside out: it locks only after an unmount succeeded,
    and deletes the loop device only after the lock succeeded. *)
Theorem unmount_releases_in_order
  (info : MountInfo) (s s' : St E) (res : option error) :
  udisksUnmountBottle (Some info) s = (res, s') ->
  exists evs, log s' = log s ++ evs /\
    (res = None <-> released info evs) /\
    (CleartextDevice info <> "" ->
     attempted (lockCmd (LoopDevice info)) evs \/
     attempted (loopDeleteCmd (LoopDevice info)) evs ->
     succeeded (unmountCmd (CleartextDevice info)) evs \/
     succeeded (forceUnmountCmd (CleartextDevice info)) evs) /\
    (attempted (loopDeleteCmd (LoopDevice info)) evs ->
     succeeded (lockCmd (LoopDevice info)) evs).
Proof.
  intros Hrun.
  destruct (unmount_runs info s s' res Hrun) as (evs & L & Hr & Ho1 & Ho2 & _).
  exists evs. auto.
Qed.

(** The lock is tried at most [UnmountRetryCount] times, each retry after a
    failed attempt and a pause of [UnmountRetryDelay]; the lock error is
    returned only when every one of the three attempts failed, with the
    output of the last. *)
Theorem lock_is_tried_three_times
  (info : MountInfo) (s s' : St E) (res : option error) :
  udisksUnmountBottle (Some info) s = (res, s') ->
  exists evs, log s' = log s ++ evs /\
    length (lockReplies evs) <= UnmountRetryCount /\
    sleeps evs = repeat UnmountRetryDelay (length (lockReplies evs) - 1) /\
    Forall (fun r => ok r = false) (removelast (lockReplies evs)) /\
    (forall msg, res = Some (mountError "lock" msg) ->
       length (lockReplies evs) = UnmountRetryCount /\
       Forall (fun r => ok r = false) (lockReplies evs) /\
       msg = out (List.last (lockReplies evs) (MkReply true "" ""))).
Proof.
  intros Hrun.
  destruct (unmount_runs info s s' res Hrun)
    as (evs & L & _ & _ & _ & Hn & Hs & Hf & Hm).
  exists evs. auto.
Qed.

End Release.

Lemma unmount_releases_in_order_witness :
  let info := Mount.MkMountInfo "/dev/loop3" "/dev/dm-2" "/run/media/u/x"
                "/home/u/x.bottle" in
  let s := Sim.start [Sim.good ""; Sim.bad "target is busy"; Sim.good "";
                      Sim.good ""; Sim.good ""] in
  let run := Mount.udisksUnmountBottle (Some info) s in
  fst run = None /\
  exists evs, Host.log (snd run) = Host.log s ++ evs /\
    (fst run = None <-> released info evs) /\
    (Mount.CleartextDevice info <> "" ->
     attempted (Mount.lockCmd (Mount.LoopDevice info)) evs \/
     attempted (loopDeleteCmd (Mount.LoopDevice info)) evs ->
     succeeded (unmountCmd (Mount.CleartextDevice info)) evs \/
     succeeded (forceUnmountCmd (Mount.CleartextDevice info)) evs) /\
    (attempted (loopDeleteCmd (Mount.LoopDevice info)) evs ->
     succeeded (Mount.lockCmd (Mount.LoopDevice info)) evs).
Proof.
  intros info s run. split; [by_eval|].
  apply (unmount_releases_in_order info s (snd run) (fst run)). by_eval.
Defined.

Lemma lock_is_tried_three_times_witness :
  let info := Mount.MkMountInfo "/dev/loop3" "" "" "/home/u/x.bottle" in
  let s := Sim.start [Sim.bad "busy 1"; Sim.bad "busy 2"; Sim.bad "busy 3"] in
  let run := Mount.udisksUnmountBottle (Some info) s in
  fst run = Some (Host.mountError "lock" "busy 3") /\
  exists evs, Host.log (snd run) = Host.log s ++ evs /\
    length (lockReplies evs) <= Mount.UnmountRetryCount /\
    sleeps evs = repeat Mount.UnmountRetryDelay (length (lockReplies evs) - 1) /\
    Forall (fun r => Host.ok r = false) (removelast (lockReplies evs)) /\
    (forall msg, fst run = Some (Host.mountError "lock" msg) ->
       length (lockReplies evs) = Mount.UnmountRetryCount /\
       Forall (fun r => Host.ok r = false) (lockReplies evs) /\
       msg = Host.out (List.last (lockReplies evs) (Host.MkReply true "" ""))).
Proof.
  intros info s run. split; [by_eval|].
  apply (lock_is_tried_three_times info s (snd run) (fst run)). by_eval.
Defined.

(** ** What a computation adds to the log *)
Section Traces.
Import Host.
Context {E : Type} `{Host E}.

(** Every run of [m] only adds events that pass the test [Q]. *)
Definition Emits {A} (Q : Event -> bool) (m : M E A) : Prop :=
  forall s a s', m s = (a, s') ->
  exists evs, log s' = log s ++ evs /\ forallb Q evs = true.

Lemma Emits_ret {A} (Q : Event -> bool) (a : A) : Emits Q (ret a).
Proof.
  intros s a' s' [= <- <-]. exists []. rewrite app_nil_r. auto.
Qed.

Lemma Emits_bind {A B} (Q : Event -> bool) (m : M E A) (k : A -> M E B) :
  Emits Q m -> (forall a, Emits Q (k a)) -> Emits Q (bind m k).
Proof.
  intros Hm Hk s b s'. unfold bind. destruct (m s) as [a s1] eqn:Hrun.
  intros Hb. destruct (Hm _ _ _ Hrun) as (e1 & L1 & Q1).
  destruct (Hk a _ _ _ Hb) as (e2 & L2 & Q2).
  exists (e1 ++ e2). rewrite L2, L1, <- app_assoc, forallb_app, Q1, Q2. auto.
Qed.

Lemma Emits_one {A} (Q : Event -> bool) (m : M E A) (ev : St E -> Event) :
  (forall s, log (snd (m s)) = log s ++ [ev s] /\ Q (ev s) = true) ->
  Emits Q m.
Proof.
  intros Hone s a s' Hrun. destruct (Hone s) as [L HQ]. rewrite Hrun in L.
  exists [ev s]. cbn. rewrite HQ. auto.
Qed.

Lemma Emits_note (Q : Event -> bool) (ev : Event) :
  Q ev = true -> Emits Q (note ev).
Proof. intros HQ. apply (Emits_one _ _ (fun _ => ev)). auto. Qed.

Lemma Emits_ask (Q : Event -> bool) (ev : Event) :
  Q ev = true -> Emits Q (ask ev).
Proof.
  intros HQ. apply (Emits_one _ _ (fun _ => ev)). intros s.
  unfold ask. destruct (sys ev (env s)). auto.
Qed.

Lemma Emits_exec (Q : Event -> bool) (c : Cmd) :
  (forall r, Q (EvExec c r) = true) -> Emits Q (exec c).
Proof.
  intros HQ. apply (Emits_one _ _ (fun s => EvExec c (fst (exec c s)))).
  intros s. unfold exec. destruct (tool c (files s) (env s)) as [[r f] e].
  cbn. auto.
Qed.

Lemma Emits_Stat (Q : Event -> bool) (p : string) :
  Q (EvStat p) = true -> Emits Q (Stat p).
Proof. intros HQ. apply (Emits_one _ _ (fun _ => EvStat p)). auto. Qed.

Lemma Emits_ReadFile (Q : Event -> bool) (p : string) :
  Q (EvOpen p) = true -> Emits Q (ReadFile p).
Proof. intros HQ. apply (Emits_one _ _ (fun _ => EvOpen p)). auto. Qed.

Lemma Emits_Remove (Q : Event -> bool) (p : string) :
  Q (EvRemove p) = true -> Emits Q (Remove p).
Proof. intros HQ. apply (Emits_one _ _ (fun _ => EvRemove p)). auto. Qed.

Lemma Emits_CreateTemp (Q : Event -> bool) (dir pattern : string) :
  Q (EvCreateTemp dir pattern) = true -> Emits Q (CreateTemp dir pattern).
Proof.
  intros HQ. apply (Emits_one _ _ (fun _ => EvCreateTemp dir pattern)).
  intros s. unfold CreateTemp. destruct (sys _ (env s)) as [r e].
  destruct (ok r); [destruct (files s !! out r)|]; auto.
Qed.

Lemma Emits_WriteString (Q : Event -> bool) (p data : string) :
  Q (EvWriteString p data) = true -> Emits Q (WriteString p data).
Proof.
  intros HQ. apply (Emits_one _ _ (fun _ => EvWriteString p data)).
  intros s. unfold WriteString. destruct (sys _ (env s)) as [r e].
  destruct (ok r); [destruct (files s !! p)|]; auto.
Qed.

Lemma Emits_Rename (Q : Event -> bool) (from to : string) :
  Q (EvRename from to) = true -> Emits Q (Rename from to).
Proof.
  intros HQ. apply (Emits_one _ _ (fun _ => EvRename from to)).
  intros s. unfold Rename. destruct (sys _ (env s)) as [r e].
  destruct (ok r); [destruct (files s !! from)|]; auto.
Qed.

Lemma Emits_AbsM (Q : Event -> bool) (p : string) :
  Q EvGetwd = true -> Emits Q (AbsM p).
Proof.
  intros HQ. unfold AbsM. destruct (GoPath.IsAbs p); [apply Emits_ret|].
  apply Emits_bind; [apply Emits_ask, HQ | intros r; apply Emits_ret].
Qed.

Lemma Emits_privCmd (Q : Event -> bool) (name : string) (args : list string) :
  Q (EvLookPath "pkexec") = true -> Emits Q (Fido2.privCmd name args).
Proof.
  intros HQ. unfold Fido2.privCmd, LookPath.
  apply Emits_bind.
  - apply Emits_bind; [apply Emits_ask, HQ | intros r; apply Emits_ret].
  - intros found. destruct found; apply Emits_ret.
Qed.

(** A privileged command and what follows it. *)
Lemma Emits_priv {A} (Q : Event -> bool) (name : string) (args : list string)
  (i : option string) (cap : Capture) (k : Reply -> M E A) :
  Q (EvLookPath "pkexec") = true ->
  (forall pv r, Q (EvExec (MkCmd (pv :: name :: args) i cap) r) = true) ->
  (forall r, Emits Q (k r)) ->
  Emits Q (bind (Fido2.privCmd name args)
                (fun av => bind (exec (MkCmd av i cap)) k)).
Proof.
  intros HL Hx Hk. unfold Fido2.privCmd, LookPath.
  intros s a s' Hrun. rewrite !bind_assoc, bind_unfold in Hrun.
  destruct (ask (EvLookPath "pkexec") s) as [r0 s0] eqn:Ha. cbn [fst snd] in Hrun.
  destruct (Emits_ask Q _ HL _ _ _ Ha) as (e0 & L0 & Q0).
  rewrite bind_ret in Hrun.
  assert (Hgo : forall pv,
            bind (exec (MkCmd (pv :: name :: args) i cap)) k s0 = (a, s') ->
            exists evs, log s' = log s0 ++ evs /\ forallb Q evs = true).
  { intros pv. apply Emits_bind; [apply Emits_exec, Hx | exact Hk]. }
  destruct (ok r0); rewrite bind_ret in Hrun; apply Hgo in Hrun;
    destruct Hrun as (e1 & L1 & Q1); exists (e0 ++ e1);
    rewrite L1, L0, <- app_assoc, forallb_app, Q0, Q1; auto.
Qed.

End Traces.

(** Proves [Emits Q m] for a computation spelled out down to the
    primitives, when [Q] holds of each event by evaluation. *)
Ltac emits :=
  repeat first
    [ apply Emits_ret
    | apply Emits_priv; [reflexivity | intros ? ?; reflexivity | intros ?]
    | apply Emits_bind; [|intros ?]
    | apply Emits_exec; intros ?; reflexivity
    | apply Emits_note; reflexivity
    | apply Emits_ask; reflexivity
    | apply Emits_Stat; reflexivity
    | apply Emits_ReadFile; reflexivity
    | apply Emits_Remove; reflexivity
    | apply Emits_CreateTemp; reflexivity
    | apply Emits_WriteString; reflexivity
    | apply Emits_Rename; reflexivity
    | assumption
    | match goal with
      | |- Emits _ (if ?b then _ else _) => destruct b
      | |- Emits _ (match ?x with _ => _ end) => destruct x
      end ].

(** ** What a successful mount returns *)
Section MountResult.
Import Host Locator Mount.
Context {E : Type} `{Host E}.

Lemma takeWhile_cons_nonempty (lit : string) (f : ascii -> bool) (s run : string) :
  GoRegexp.matchHere lit f s = Some run -> run <> "".
Proof.
  unfold GoRegexp.matchHere. destruct (GoStrings.stripPrefix lit s); [|discriminate].
  destruct (GoRegexp.takeWhile f s0); [discriminate|]. intros [= <-]. discriminate.
Qed.

Lemma findFirst_nonempty (lit : string) (f : ascii -> bool) (s run : string) :
  GoRegexp.findFirst lit f s = Some run -> run <> "".
Proof.
  induction s as [|c s IH]; cbn [GoRegexp.findFirst].
  - destruct (GoRegexp.matchHere lit f "") eqn:Hm; [|discriminate].
    intros [= <-]. eapply takeWhile_cons_nonempty, Hm.
  - destruct (GoRegexp.matchHere lit f (String c s)) eqn:Hm.
    + intros [= <-]. eapply takeWhile_cons_nonempty, Hm.
    + exact IH.
Qed.

(** A mount point parsed from the tool's text is an absolute path. *)
Lemma parseMountPoint_Ok (info info' : MountInfo) (outStr : string) :
  parseMountPoint info outStr = Ok info' ->
  GoPath.IsAbs (MountPoint info') = true /\
  LoopDevice info' = LoopDevice info /\
  CleartextDevice info' = CleartextDevice info /\
  BottlePath info' = BottlePath info.
Proof.
  unfold parseMountPoint, GoRegexp.findMountPath.
  destruct (GoRegexp.findFirst _ _ outStr) as [rest|] eqn:Hf; [|discriminate].
  intros [= <-]. cbn. repeat split.
  apply findFirst_nonempty in Hf. destruct rest as [|c rest]; [congruence|].
  rewrite append_cons, append_nil.
  unfold GoStrings.TrimSuffix.
  destruct (GoStrings.HasSuffix _ _); [|reflexivity].
  cbn [String.length Nat.sub GoStrings.take]. reflexivity.
Qed.


(** The fields of a [MountInfo] that are set, from the loop device on. *)
Definition loopSet (info : MountInfo) : Prop := LoopDevice info <> "".
Definition cleartextSet (info : MountInfo) : Prop := CleartextDevice info <> "".
Definition mountPointSet (info : MountInfo) : Prop := MountPoint info <> "".

Lemma IsAbs_nonempty (p : string) : GoPath.IsAbs p = true -> p <> "".
Proof. intros Hp ->. discriminate Hp. Qed.

Lemma checkMounted_shape (realPath : string) (s s' : St E) (info : MountInfo) :
  checkMounted realPath s = (info, s') ->
  BottlePath info = realPath /\
  (cleartextSet info -> loopSet info) /\
  (mountPointSet info -> cleartextSet info).
Proof.
  unfold checkMounted, loopSet, cleartextSet, mountPointSet.
  rewrite bind_unfold. destruct (findLoopForFile realPath s) as [loopDev s0].
  cbn [fst snd]. destruct (isEmpty loopDev) eqn:El; cbn [negb].
  - intros [= <- <-]. cbn. intuition congruence.
  - rewrite bind_unfold. destruct (findCleartextForLoop loopDev s0) as [clear s1].
    cbn [fst snd]. apply isEmpty_false in El.
    destruct (isEmpty clear) eqn:Ec; cbn [negb].
    + intros [= <- <-]. cbn. intuition congruence.
    + rewrite bind_unfold. destruct (findMountForDevice clear s1) as [mp s2].
      cbn [fst snd]. apply isEmpty_false in Ec.
      intros [= <- <-]. cbn. intuition congruence.
Qed.

Lemma setupLoop_Ok (info info' : MountInfo) (s s' : St E) :
  setupLoop info s = (Ok info', s') ->
  loopSet info' /\ CleartextDevice info' = CleartextDevice info /\
  MountPoint info' = MountPoint info /\ BottlePath info' = BottlePath info.
Proof.
  unfold setupLoop, loopSet. destruct (isEmpty (LoopDevice info)) eqn:El.
  - rewrite bind_unfold. destruct (exec _ s) as [r s1]. cbn [fst snd].
    destruct (negb (ok r)); [discriminate|].
    destruct (isEmpty (GoRegexp.findLoopDevice (out r))) eqn:Em; [discriminate|].
    intros [= <- <-]. cbn. apply isEmpty_false in Em. auto.
  - intros [= <- <-]. apply isEmpty_false in El. auto.
Qed.

Lemma unlockIfNeeded_Ok (info info' : MountInfo) (password : string)
  (s s' : St E) :
  unlockIfNeeded info password s = (Ok info', s') ->
  cleartextSet info' /\ LoopDevice info' = LoopDevice info /\
  MountPoint info' = MountPoint info /\ BottlePath info' = BottlePath info.
Proof.
  unfold unlockIfNeeded, cleartextSet.
  destruct (isEmpty (CleartextDevice info)) eqn:Ec.
  - rewrite bind_unfold. destruct (exec _ s) as [r s1]. cbn [fst snd].
    destruct (negb (ok r)); [destruct (wrongKeyText (out r)); discriminate|].
    destruct (isEmpty (GoRegexp.findDmDevice (out r))) eqn:Em; [discriminate|].
    intros [= <- <-]. cbn. apply isEmpty_false in Em. auto.
  - intros [= <- <-]. apply isEmpty_false in Ec. auto.
Qed.

Lemma unlockIfNeededFIDO2_Ok (info info' : MountInfo) (secret : string)
  (keys : list string) (s s' : St E) :
  unlockIfNeededFIDO2 info secret s = ((Ok info', keys), s') ->
  cleartextSet info' /\ LoopDevice info' = LoopDevice info /\
  MountPoint info' = MountPoint info /\ BottlePath info' = BottlePath info.
Proof.
  unfold unlockIfNeededFIDO2, cleartextSet.
  destruct (isEmpty (CleartextDevice info)) eqn:Ec.
  - rewrite bind_unfold.
    destruct (Fido2.writeSecretToTempFile _ _ s) as [[keyPath|err] s0];
      cbn [fst snd]; [|discriminate].
    rewrite bind_unfold. destruct (exec _ s0) as [r s1]. cbn [fst snd].
    destruct (negb (ok r)); [destruct (wrongKeyText (out r)); discriminate|].
    destruct (isEmpty (GoRegexp.findDmDevice (out r))) eqn:Em; [discriminate|].
    intros [= <- <- <-]. cbn. apply isEmpty_false in Em. auto.
  - intros [= <- <- <-]. apply isEmpty_false in Ec. auto.
Qed.

Lemma mountIfNeeded_Ok (info info' : MountInfo) (password : string)
  (s s' : St E) :
  mountIfNeeded info password s = (Ok info', s') ->
  cleartextSet info ->
  mountPointSet info' /\ cleartextSet info' /\
  LoopDevice info' = LoopDevice info /\ BottlePath info' = BottlePath info.
Proof.
  unfold mountIfNeeded, cleartextSet, mountPointSet. intros Hrun Hc.
  destruct (isEmpty (MountPoint info)) eqn:Em.
  - rewrite bind_unfold in Hrun. destruct (exec _ s) as [r s1]. cbn [fst snd] in Hrun.
    destruct (negb (ok r)).
    + destruct (staleText (out r) && negb (isEmpty (LoopDevice info)));
        [|discriminate].
      rewrite bind_unfold in Hrun. destruct (exec _ s1) as [rl s2].
      cbn [fst snd] in Hrun.
      rewrite bind_unfold in Hrun. destruct (exec _ s2) as [r2 s3].
      cbn [fst snd] in Hrun.
      destruct (negb (ok r2)); [discriminate|].
      destruct (isEmpty (GoRegexp.findDmDevice (out r2))) eqn:Ed; [discriminate|].
      rewrite bind_unfold in Hrun. destruct (exec _ s3) as [r3 s4].
      cbn [fst snd] in Hrun.
      destruct (negb (ok r3)); [discriminate|].
      injection Hrun as Hp _. apply parseMountPoint_Ok in Hp.
      destruct Hp as (Ha & Hl & Hcl & Hb). cbn in Hl, Hcl, Hb.
      apply isEmpty_false in Ed. apply IsAbs_nonempty in Ha.
      rewrite Hcl. auto.
    + injection Hrun as Hp _. apply parseMountPoint_Ok in Hp.
      destruct Hp as (Ha & Hl & Hcl & Hb). apply IsAbs_nonempty in Ha.
      rewrite Hcl. auto.
  - injection Hrun as <- <-. apply isEmpty_false in Em. auto.
Qed.

Lemma mountIfNeededFIDO2_Ok (info info' : MountInfo) (secret : string)
  (keys : list string) (s s' : St E) :
  mountIfNeededFIDO2 info secret s = ((Ok info', keys), s') ->
  cleartextSet info ->
  mountPointSet info' /\ cleartextSet info' /\
  LoopDevice info' = LoopDevice info /\ BottlePath info' = BottlePath info.
Proof.
  unfold mountIfNeededFIDO2, cleartextSet, mountPointSet. intros Hrun Hc.
  destruct (isEmpty (MountPoint info)) eqn:Em.
  - rewrite bind_unfold in Hrun. destruct (exec _ s) as [r s1]. cbn [fst snd] in Hrun.
    destruct (negb (ok r)).
    + destruct (staleText (out r) && negb (isEmpty (LoopDevice info)));
        [|discriminate].
      rewrite bind_unfold in Hrun. destruct (exec _ s1) as [rl s2].
      cbn [fst snd] in Hrun.
      rewrite bind_unfold in Hrun.
      destruct (Fido2.writeSecretToTempFile _ _ s2) as [[keyPath|err] sk];
        cbn [fst snd] in Hrun; [|discriminate].
      rewrite bind_unfold in Hrun. destruct (exec _ sk) as [r2 s3].
      cbn [fst snd] in Hrun.
      destruct (negb (ok r2)); [discriminate|].
      destruct (isEmpty (GoRegexp.findDmDevice (out r2))) eqn:Ed; [discriminate|].
      rewrite bind_unfold in Hrun. destruct (exec _ s3) as [r3 s4].
      cbn [fst snd] in Hrun.
      destruct (negb (ok r3)); [discriminate|].
      injection Hrun as Hp _ _. apply parseMountPoint_Ok in Hp.
      destruct Hp as (Ha & Hl & Hcl & Hb). cbn in Hl, Hcl, Hb.
      apply isEmpty_false in Ed. apply IsAbs_nonempty in Ha.
      rewrite Hcl. auto.
    + injection Hrun as Hp _ _. apply parseMountPoint_Ok in Hp.
      destruct Hp as (Ha & Hl & Hcl & Hb). apply IsAbs_nonempty in Ha.
      rewrite Hcl. auto.
  - injection Hrun as <- <- <-. apply isEmpty_false in Em. auto.
Qed.

Lemma udisksMountBottle_Ok_fields
  (bottle password : string) (s s' : St E) (info : MountInfo) :
  udisksMountBottle bottle password s = (Ok info, s') ->
  LoopDevice info <> "" /\ CleartextDevice info <> "" /\
  MountPoint info <> "" /\ fst (AbsM bottle s) = Ok (BottlePath info).
Proof.
  intros Hrun.
  - unfold udisksMountBottle in Hrun. rewrite bind_unfold in Hrun.
    destruct (AbsM bottle s) as [[realPath|err] s0]; cbn [fst snd] in *;
      [|discriminate].
    rewrite bind_unfold in Hrun.
    destruct (checkMounted realPath s0) as [i0 s1] eqn:Hc. cbn [fst snd] in Hrun.
    apply checkMounted_shape in Hc. destruct Hc as (Hb & Hcl & Hmp).
    destruct (isEmpty (MountPoint i0)) eqn:Em; cbn [negb] in Hrun.
    + rewrite bind_unfold in Hrun.
      destruct (setupLoop i0 s1) as [[i1|err] s2] eqn:Hl; cbn [fst snd] in Hrun;
        [|discriminate].
      apply setupLoop_Ok in Hl. destruct Hl as (Hl1 & Hl2 & Hl3 & Hl4).
      rewrite bind_unfold in Hrun.
      destruct (unlockIfNeeded i1 password s2) as [[i2|err] s3] eqn:Hu;
        cbn [fst snd] in Hrun; [|discriminate].
      apply unlockIfNeeded_Ok in Hu. destruct Hu as (Hu1 & Hu2 & Hu3 & Hu4).
      apply mountIfNeeded_Ok in Hrun; [|exact Hu1].
      destruct Hrun as (Hm1 & Hm2 & Hm3 & Hm4).
      unfold loopSet, cleartextSet, mountPointSet in *.
      repeat split; try assumption; congruence.
    + injection Hrun as <- <-. apply isEmpty_false in Em.
      unfold loopSet, cleartextSet, mountPointSet in *.
      repeat split; auto. congruence.
Qed.

Lemma udisksMountBottleFIDO2_Ok_fields
  (bottle secret : string) (s s' : St E) (info : MountInfo) :
  udisksMountBottleFIDO2 bottle secret s = (Ok info, s') ->
  LoopDevice info <> "" /\ CleartextDevice info <> "" /\
  MountPoint info <> "" /\ fst (AbsM bottle s) = Ok (BottlePath info).
Proof.
  intros Hrun.
  - unfold udisksMountBottleFIDO2 in Hrun. rewrite bind_unfold in Hrun.
    destruct (AbsM bottle s) as [[realPath|err] s0]; cbn [fst snd] in *;
      [|discriminate].
    rewrite bind_unfold in Hrun.
    destruct (checkMounted realPath s0) as [i0 s1] eqn:Hc. cbn [fst snd] in Hrun.
    apply checkMounted_shape in Hc. destruct Hc as (Hb & Hcl & Hmp).
    destruct (isEmpty (MountPoint i0)) eqn:Em; cbn [negb] in Hrun.
    + rewrite bind_unfold in Hrun.
      destruct (setupLoop i0 s1) as [[i1|err] s2] eqn:Hl; cbn [fst snd] in Hrun;
        [|discriminate].
      apply setupLoop_Ok in Hl. destruct Hl as (Hl1 & Hl2 & Hl3 & Hl4).
      rewrite bind_unfold in Hrun.
      destruct (unlockIfNeededFIDO2 i1 secret s2) as [[[i2|err] keys1] s3] eqn:Hu;
        cbn [fst snd] in Hrun;
        [|rewrite bind_unfold in Hrun; discriminate].
      apply unlockIfNeededFIDO2_Ok in Hu. destruct Hu as (Hu1 & Hu2 & Hu3 & Hu4).
      rewrite bind_unfold in Hrun.
      destruct (mountIfNeededFIDO2 i2 secret s3) as [[m keys2] s4] eqn:Hm.
      cbn [fst snd] in Hrun. rewrite bind_unfold in Hrun.
      injection Hrun as -> _.
      apply mountIfNeededFIDO2_Ok in Hm; [|exact Hu1].
      destruct Hm as (Hm1 & Hm2 & Hm3 & Hm4).
      unfold loopSet, cleartextSet, mountPointSet in *.
      repeat split; try assumption; congruence.
    + injection Hrun as <- <-. apply isEmpty_false in Em.
      unfold loopSet, cleartextSet, mountPointSet in *.
      repeat split; auto. congruence.
Qed.

(** A mount that succeeds returns a [MountInfo] with every field set: the
    loop device, the cleartext device and the mount point are not empty,
    and the bottle path is the absolute path of the bottle. *)
Theorem mount_success_names_everything
  (bottle password secret : string) (s s' : St E) (info : MountInfo) :
  udisksMountBottle bottle password s = (Ok info, s') \/
  udisksMountBottleFIDO2 bottle secret s = (Ok info, s') ->
  LoopDevice info <> "" /\ CleartextDevice info <> "" /\
  MountPoint info <> "" /\ fst (AbsM bottle s) = Ok (BottlePath info).
Proof.
  intros [Hrun|Hrun].
  - exact (udisksMountBottle_Ok_fields bottle password s s' info Hrun).
  - exact (udisksMountBottleFIDO2_Ok_fields bottle secret s s' info Hrun).
Qed.

End MountResult.

Lemma mount_success_names_everything_witness :
  let s := Sim.start
    [Sim.good ""; Sim.good "Mapped file /home/u/x.bottle as /dev/loop3.";
     Sim.good "Unlocked /dev/loop3 as /dev/dm-2.";
     Sim.good "Mounted /dev/dm-2 at /run/media/u/x."] in
  let info := Mount.MkMountInfo "/dev/loop3" "/dev/dm-2" "/run/media/u/x"
                "/home/u/x.bottle" in
  fst (Mount.udisksMountBottle "x.bottle" "pw" s) = Host.Ok info /\
  (Mount.LoopDevice info <> "" /\ Mount.CleartextDevice info <> "" /\
   Mount.MountPoint info <> "" /\
   fst (Host.AbsM "x.bottle" s) = Host.Ok (Mount.BottlePath info)).
Proof.
  intros s info. split; [by_eval|].
  apply (mount_success_names_everything "x.bottle" "pw" "" s
           (snd (Mount.udisksMountBottle "x.bottle" "pw" s)) info).
  left. by_eval.
Defined.

(** ** Key files do not outlive the call *)
Section KeyFiles.
Import Host Locator Fido2 Mount.
Context {E : Type} `{Host E}.

Definition notWrite (ev : Event) : bool :=
  match ev with
  | EvWriteString _ _ => false
  | _ => true
  end.

(** The paths written to among some events. *)
Definition writes (evs : list Event) : list string :=
  omap (fun ev => match ev with EvWriteString p _ => Some p | _ => None end) evs.

Lemma writes_app (l1 l2 : list Event) : writes (l1 ++ l2) = writes l1 ++ writes l2.
Proof. apply omap_app. Qed.

Lemma writes_none (evs : list Event) : forallb notWrite evs = true -> writes evs = [].
Proof.
  induction evs as [|ev evs IH]; [reflexivity|]. cbn [forallb].
  intros Hq. apply andb_true_iff in Hq. destruct Hq as [Hev Hq].
  destruct ev; try discriminate; cbn; apply IH, Hq.
Qed.

Lemma in_writes (evs : list Event) (p d : string) :
  In (EvWriteString p d) evs -> In p (writes evs).
Proof.
  induction evs as [|ev evs IH]; [intros []|]. intros [->|Hin].
  - left. reflexivity.
  - destruct ev; cbn; auto.
Qed.

(** In a run started with log [l0], every path written to so far is among
    [K]. *)
Definition Written (l0 : list Event) (K : list string) (s : St E) : Prop :=
  exists evs, log s = l0 ++ evs /\ incl (writes evs) K.

(** At the end of a run started with log [l0], no file written to during
    the run exists. *)
Definition Wiped (l0 : list Event) (s : St E) : Prop :=
  exists evs, log s = l0 ++ evs /\
    forall p d, In (EvWriteString p d) evs -> files s !! p = None.

Lemma Written_frame {A} (l0 : list Event) (K : list string) (m : M E A) :
  Emits notWrite m -> triple (Written l0 K) m (fun _ => Written l0 K).
Proof.
  intros Hm s a s' (evs & L & W) Hrun.
  destruct (Hm _ _ _ Hrun) as (evs' & L' & Q').
  exists (evs ++ evs'). rewrite L', L, <- app_assoc, writes_app.
  rewrite (writes_none _ Q'), app_nil_r. auto.
Qed.

Lemma Written_mono (l0 : list Event) (K K' : list string) (s : St E) :
  incl K K' -> Written l0 K s -> Written l0 K' s.
Proof.
  intros HK (evs & L & W). exists evs. split; [exact L|].
  eapply incl_tran; eassumption.
Qed.

Lemma Written_nil_Wiped (l0 : list Event) (s : St E) :
  Written l0 [] s -> Wiped l0 s.
Proof.
  intros (evs & L & W). exists evs. split; [exact L|].
  intros p d Hin. apply in_writes, W in Hin. destruct Hin.
Qed.

Lemma Written_start (s : St E) : Written (log s) [] s.
Proof. exists []. rewrite app_nil_r. split; [reflexivity | intros x []]. Qed.

Lemma WriteString_Written (l0 : list Event) (K : list string) (path data : string) :
  triple (Written l0 K) (WriteString path data) (fun _ => Written l0 (path :: K)).
Proof.
  intros s a s' (evs & L & W). unfold WriteString.
  destruct (sys _ (env s)) as [r e].
  assert (Hlog : forall fs,
            Written l0 (path :: K)
              (MkSt fs e (record (EvWriteString path data) s))).
  { intros fs. exists (evs ++ [EvWriteString path data]).
    unfold record. cbn [log]. rewrite L, <- app_assoc, writes_app.
    split; [reflexivity|]. cbn. apply incl_app.
    - apply incl_tl, W.
    - intros x [<-|[]]. left. reflexivity. }
  destruct (ok r); [destruct (files s !! path)|]; intros [= <- <-]; apply Hlog.
Qed.

Lemma writeSecret_Written (l0 : list Event) (K : list string)
  (secret prefix : string) :
  triple (Written l0 K) (writeSecretToTempFile secret prefix)
    (fun res => Written l0 (match res with Ok p => p :: K | Err _ => K end)).
Proof.
  unfold writeSecretToTempFile, Chmod.
  eapply triple_bind.
  { apply Written_frame. emits. }
  intros [path|err]; [|apply triple_ret; auto].
  eapply triple_bind.
  { apply Written_frame. emits. }
  intros u.
  eapply triple_bind; [apply WriteString_Written|].
  intros w. apply triple_ret. auto.
Qed.

Lemma Remove_Wiped (l0 : list Event) (k : string) :
  triple (Written l0 [k]) (Remove k) (fun _ => Wiped l0).
Proof.
  intros s a s' (evs & L & W). unfold Remove. intros [= _ <-].
  exists (evs ++ [EvRemove k]). unfold record. cbn [log files].
  rewrite L, <- app_assoc. split; [reflexivity|].
  intros p d Hin. apply in_app_or in Hin.
  destruct Hin as [Hin|[Hin|[]]]; [|discriminate Hin].
  apply in_writes, W in Hin. destruct Hin as [<-|[]]. apply lookup_delete_eq.
Qed.

(** Removing the key files, last in first out, wipes them all. *)
Lemma runDeferred_Wiped (l0 : list Event) (keys : list string) :
  triple (Written l0 keys) (runDeferred keys) (fun _ => Wiped l0).
Proof.
  assert (Hgen : forall done (s : St E) u s',
            (forall p, In p done -> files s !! p = None) ->
            runDeferred keys s = (u, s') ->
            (forall p, In p (done ++ keys) -> files s' !! p = None) /\
            exists evs, log s' = log s ++ evs /\ writes evs = []).
  { induction keys as [|k keys IH]; intros done s u s' Hdone.
    - cbn [runDeferred]. unfold ret. intros [= _ <-]. rewrite app_nil_r.
      split; [exact Hdone|]. exists []. rewrite app_nil_r. auto.
    - cbn [runDeferred]. unfold bind at 1. unfold Remove at 1.
      intros Hrun. apply (IH (done ++ [k])) in Hrun.
      + destruct Hrun as (Hall & evs & L & W). split.
        * intros p Hin. apply Hall. rewrite <- app_assoc. exact Hin.
        * exists (EvRemove k :: evs). rewrite L. unfold record. cbn [log].
          rewrite <- app_assoc. auto.
      + cbn [files]. intros p Hin. apply lookup_delete_None.
        apply in_app_or in Hin. destruct Hin as [Hin|[<-|[]]]; auto. }
  intros s u s' (evs & L & W) Hrun.
  destruct (Hgen [] s u s' (fun p Hin => match Hin with end) Hrun)
    as (Hall & evs' & L' & W').
  exists (evs ++ evs'). rewrite L', L, <- app_assoc. split; [reflexivity|].
  intros p d Hin. apply Hall. cbn [app].
  apply in_writes in Hin. rewrite writes_app, W', app_nil_r in Hin.
  apply W, Hin.
Qed.

Lemma Wiped_ret {A} (l0 : list Event) (a : A) :
  triple (Wiped l0) (ret a) (fun _ => Wiped l0).
Proof. apply triple_ret. auto. Qed.

Lemma unlockIfNeededFIDO2_Written (l0 : list Event) (info : MountInfo)
  (secret : string) :
  triple (Written l0 []) (unlockIfNeededFIDO2 info secret)
    (fun res => Written l0 (snd res)).
Proof.
  unfold unlockIfNeededFIDO2.
  destruct (isEmpty (CleartextDevice info)); [|apply triple_ret; auto].
  eapply triple_bind; [apply writeSecret_Written|].
  intros [keyPath|err]; [|apply triple_ret; auto].
  eapply triple_bind.
  { apply Written_frame. unfold unlockKeyFileCmd. emits. }
  intros r. destruct (negb (ok r)); [destruct (wrongKeyText (out r))|];
    [| |destruct (isEmpty _)]; apply triple_ret; auto.
Qed.

Lemma mountIfNeededFIDO2_Written (l0 : list Event) (K : list string)
  (info : MountInfo) (secret : string) :
  triple (Written l0 K) (mountIfNeededFIDO2 info secret)
    (fun res => Written l0 (snd res ++ K)).
Proof.
  unfold mountIfNeededFIDO2.
  destruct (isEmpty (MountPoint info)); [|apply triple_ret; auto].
  eapply triple_bind.
  { apply Written_frame. unfold mountCmd. emits. }
  intros r. destruct (negb (ok r)); [|apply triple_ret; auto].
  destruct (staleText (out r) && negb (isEmpty (LoopDevice info)));
    [|apply triple_ret; auto].
  eapply triple_bind.
  { apply Written_frame. unfold lockCmd. emits. }
  intros u.
  eapply triple_bind; [apply writeSecret_Written|].
  intros [keyPath|err]; [|apply triple_ret; auto].
  eapply triple_bind.
  { apply Written_frame. unfold unlockKeyFileCmd. emits. }
  intros r2. destruct (negb (ok r2)); [apply triple_ret; auto|].
  destruct (isEmpty _); [apply triple_ret; auto|].
  eapply triple_bind.
  { apply Written_frame. unfold mountCmd. emits. }
  intros r3. destruct (negb (ok r3)); apply triple_ret; auto.
Qed.

Lemma udisksMountBottleFIDO2_Wiped (l0 : list Event) (bottle secret : string) :
  triple (Written l0 []) (udisksMountBottleFIDO2 bottle secret)
    (fun _ => Wiped l0).
Proof.
  unfold udisksMountBottleFIDO2.
  eapply triple_bind.
  { apply Written_frame. apply Emits_AbsM. reflexivity. }
  intros [realPath|err]; [|apply triple_ret; apply Written_nil_Wiped].
  eapply triple_bind.
  { apply Written_frame.
    unfold checkMounted, findLoopForFile, findCleartextForLoop,
      findMountForDevice, AbsM.
    emits. }
  intros info. destruct (negb (isEmpty (MountPoint info)));
    [apply triple_ret; apply Written_nil_Wiped|].
  eapply triple_bind.
  { apply Written_frame. unfold setupLoop, loopSetupCmd. emits. }
  intros [info1|err]; [|apply triple_ret; apply Written_nil_Wiped].
  eapply triple_bind; [apply unlockIfNeededFIDO2_Written|].
  intros [[info2|err] keys1]; cbn [snd].
  - eapply triple_bind; [apply mountIfNeededFIDO2_Written|].
    intros [m keys2]. cbn [fst snd].
    eapply triple_bind; [apply runDeferred_Wiped|].
    intros u. apply Wiped_ret.
  - eapply triple_bind; [apply runDeferred_Wiped|].
    intros u. apply Wiped_ret.
Qed.


Lemma FormatBottleWithFIDO2_Wiped (l0 : list Event) (bottlePath secret : string) :
  triple (Written l0 []) (FormatBottleWithFIDO2 bottlePath secret)
    (fun _ => Wiped l0).
Proof.
  unfold FormatBottleWithFIDO2, cryptsetupCmd.
  eapply triple_bind; [apply writeSecret_Written|].
  intros [keyPath|err]; [|apply triple_ret; apply Written_nil_Wiped].
  eapply triple_bind.
  { apply Written_frame, Emits_privCmd. reflexivity. }
  intros av. eapply triple_bind.
  { apply Written_frame. emits. }
  intros r. eapply triple_bind; [apply Remove_Wiped|].
  intros u. destruct (negb (ok r)); apply Wiped_ret.
Qed.

Lemma OpenLUKSWithFIDO2_Wiped (l0 : list Event) (loopDev mapperName secret : string) :
  triple (Written l0 []) (OpenLUKSWithFIDO2 loopDev mapperName secret)
    (fun _ => Wiped l0).
Proof.
  unfold OpenLUKSWithFIDO2, cryptsetupCmd.
  eapply triple_bind; [apply writeSecret_Written|].
  intros [keyPath|err]; [|apply triple_ret; apply Written_nil_Wiped].
  eapply triple_bind.
  { apply Written_frame, Emits_privCmd. reflexivity. }
  intros av. eapply triple_bind.
  { apply Written_frame. emits. }
  intros r. eapply triple_bind; [apply Remove_Wiped|].
  intros u. destruct (negb (ok r)); apply Wiped_ret.
Qed.

Lemma GetFIDO2Secret_Wiped (l0 : list Event) (device bottleID credID salt : string) :
  triple (Written l0 []) (GetFIDO2Secret device bottleID credID salt)
    (fun _ => Wiped l0).
Proof.
  unfold GetFIDO2Secret, Chmod.
  eapply triple_bind.
  { apply Written_frame. emits. }
  intros [name|err]; [|apply triple_ret; apply Written_nil_Wiped].
  eapply triple_bind.
  { apply Written_frame. emits. }
  intros u. eapply triple_bind; [apply WriteString_Written|].
  intros w. eapply triple_bind.
  { apply Written_frame. emits. }
  intros [text|].
  - eapply triple_bind.
    { apply Written_frame. emits. }
    intros r. eapply triple_bind; [apply Remove_Wiped|].
    intros u'. destruct (negb (ok r)); apply Wiped_ret.
  - eapply triple_bind; [apply Remove_Wiped|].
    intros u'. apply Wiped_ret.
Qed.

(** No file the computation writes to exists when it returns. *)
Definition LeavesNoFile {A} (m : M E A) : Prop :=
  forall s a s', m s = (a, s') ->
  exists evs, log s' = log s ++ evs /\
    forall p d, In (EvWriteString p d) evs -> files s' !! p = None.

(** The functions that put the FIDO2 secret, or the input of the
    assertion, in a temporary file remove that file before they return,
    whatever the outcome: the hardware-key mount (both of its key files
    when the stale-mapping recovery writes a second one), the format and
    open steps of creation, and the assertion itself. *)
Theorem key_files_are_removed
  (bottle secret bottlePath loopDev mapperName device bottleID credID salt : string) :
  LeavesNoFile (udisksMountBottleFIDO2 bottle secret) /\
  LeavesNoFile (FormatBottleWithFIDO2 bottlePath secret) /\
  LeavesNoFile (OpenLUKSWithFIDO2 loopDev mapperName secret) /\
  LeavesNoFile (GetFIDO2Secret device bottleID credID salt).
Proof.
  unfold LeavesNoFile.
  split; [|split; [|split]]; intros s a s' Hrun.
  - exact (udisksMountBottleFIDO2_Wiped (log s) _ _ s a s' (Written_start s) Hrun).
  - exact (FormatBottleWithFIDO2_Wiped (log s) _ _ s a s' (Written_start s) Hrun).
  - exact (OpenLUKSWithFIDO2_Wiped (log s) _ _ _ s a s' (Written_start s) Hrun).
  - exact (GetFIDO2Secret_Wiped (log s) _ _ _ _ s a s' (Written_start s) Hrun).
Qed.

End KeyFiles.

Lemma key_files_are_removed_witness :
  let s := Sim.start
    [Sim.good ""; Sim.good "Mapped file /home/u/x.bottle as /dev/loop3.";
     Sim.bad "Error unlocking /dev/loop3: Failed to activate device"] in
  let run := Mount.udisksMountBottleFIDO2 "x.bottle" "0123456789abcdef0123456789abcdef" s in
  In (Host.EvWriteString "/tmp/fido2-unlock-0" "0123456789abcdef0123456789abcdef")
     (Host.log (snd run)) /\
  Host.files (snd run) !! "/tmp/fido2-unlock-0" = None.
Proof.
  intros s run.
  assert (Hin : In (Host.EvWriteString "/tmp/fido2-unlock-0"
                      "0123456789abcdef0123456789abcdef") (Host.log (snd run))).
  { vm_compute. repeat first [ left; reflexivity | right ]. }
  split; [exact Hin|].
  destruct (key_files_are_removed "x.bottle" "0123456789abcdef0123456789abcdef"
              "" "" "" "" "" "" "") as (Hmount & _).
  destruct (Hmount s (fst run) (snd run)) as (evs & L & Hw); [by_eval|].
  apply (Hw _ "0123456789abcdef0123456789abcdef").
  change (Host.log s) with (@nil Host.Event) in L. cbn [app] in L.
  rewrite <- L. exact Hin.
Defined.

(** ** What the interface's commands report *)
Section Reports.
Import Host Locator Fido2 Bottle Mount Commands.
Context {D : Dirs} {U : Permissions.Unicode} {E : Type} `{Host E}.

Definition anyEvent (ev : Event) : bool := true.

Lemma Emits_log {A} (m : M E A) (s s' : St E) (a : A) :
  Emits anyEvent m -> m s = (a, s') -> exists evs, log s' = log s ++ evs.
Proof. intros Hm Hrun. destruct (Hm _ _ _ Hrun) as (evs & L & _). eauto. Qed.

Lemma checkMounted_any (realPath : string) : Emits anyEvent (checkMounted realPath).
Proof.
  unfold checkMounted, findLoopForFile, findCleartextForLoop,
    findMountForDevice, AbsM.
  emits.
Qed.

Lemma setupLoop_any (info : MountInfo) : Emits anyEvent (setupLoop info).
Proof. unfold setupLoop. emits. Qed.

Lemma AbsM_Err (path : string) (s s' : St E) (err : error) :
  AbsM path s = (Err err, s') -> isWrongPassword err = false.
Proof.
  unfold AbsM. destruct (GoPath.IsAbs path); [discriminate|].
  rewrite bind_unfold. destruct (ask EvGetwd s) as [r s1]. cbn [fst snd].
  destruct (ok r); [discriminate|]. intros [= <- _]. reflexivity.
Qed.

Lemma setupLoop_Err (info : MountInfo) (s s' : St E) (err : error) :
  setupLoop info s = (Err err, s') -> isWrongPassword err = false.
Proof.
  unfold setupLoop. destruct (isEmpty (LoopDevice info)); [|discriminate].
  rewrite bind_unfold. destruct (exec _ s) as [r s1]. cbn [fst snd].
  destruct (negb (ok r)); [intros [= <- _]; reflexivity|].
  destruct (isEmpty _); [intros [= <- _]; reflexivity | discriminate].
Qed.

Lemma mountIfNeeded_Err (info : MountInfo) (password : string)
  (s s' : St E) (err : error) :
  mountIfNeeded info password s = (Err err, s') -> isWrongPassword err = false.
Proof.
  unfold mountIfNeeded, parseMountPoint.
  destruct (isEmpty (MountPoint info)); [|discriminate].
  rewrite bind_unfold. destruct (exec _ s) as [r s1]. cbn [fst snd].
  destruct (negb (ok r)).
  - destruct (staleText (out r) && negb (isEmpty (LoopDevice info)));
      [|intros [= <- _]; reflexivity].
    rewrite bind_unfold. destruct (exec _ s1) as [rl s2]. cbn [fst snd].
    rewrite bind_unfold. destruct (exec _ s2) as [r2 s3]. cbn [fst snd].
    destruct (negb (ok r2)); [intros [= <- _]; reflexivity|].
    destruct (isEmpty _); [intros [= <- _]; reflexivity|].
    rewrite bind_unfold. destruct (exec _ s3) as [r3 s4]. cbn [fst snd].
    destruct (negb (ok r3)); [intros [= <- _]; reflexivity|].
    destruct (GoRegexp.findMountPath (out r3));
      [discriminate | intros [= <- _]; reflexivity].
  - destruct (GoRegexp.findMountPath (out r));
      [discriminate | intros [= <- _]; reflexivity].
Qed.

Lemma unlockIfNeeded_Err (info : MountInfo) (password : string)
  (s s' : St E) (err : error) :
  unlockIfNeeded info password s = (Err err, s') ->
  isWrongPassword err = true ->
  exists r, log s' = log s ++ [EvExec (unlockCmd password (LoopDevice info)) r] /\
            ok r = false /\ wrongKeyText (out r) = true.
Proof.
  unfold unlockIfNeeded. destruct (isEmpty (CleartextDevice info)); [|discriminate].
  rewrite bind_unfold. destruct (exec _ s) as [r s1] eqn:Hx. cbn [fst snd].
  apply exec_log in Hx.
  destruct (ok r) eqn:Hok; cbn [negb].
  - destruct (isEmpty _); [intros [= <- _]; discriminate | discriminate].
  - destruct (wrongKeyText (out r)) eqn:Hw; intros [= <- <-]; [|discriminate].
    intros _. exists r. auto.
Qed.

(** The interface asks for the password again ([wrongPassword] is set)
    only when the unlock step itself was refused with a wrong-key
    diagnostic, and then that refused unlock is the last thing the mount
    did.  Every other failure, the failed re-unlock of the stale-mapping
    recovery included, is reported with the flag unset and an error that
    is not the wrong-password sentinel. *)
Theorem wrong_password_flag_means_refused_unlock
  (bottle password : string) (s s' : St E) (err : error) (flag : bool) :
  mountBottleCmd bottle password s = (mountFailedMsg err flag, s') ->
  if flag then
    err = errWrongPassword /\
    exists evs loopDev r,
      log s' = log s ++ evs ++ [EvExec (unlockCmd password loopDev) r] /\
      ok r = false /\ wrongKeyText (out r) = true
  else err <> errWrongPassword.
Proof.
  unfold mountBottleCmd. rewrite bind_unfold.
  destruct (udisksMountBottle bottle password s) as [[info|e] s1] eqn:Hm;
    cbn [fst snd]; [discriminate|].
  intros Hmsg.
  assert (Hflag : isWrongPassword e = flag /\ e = err /\ s1 = s').
  { destruct (isWrongPassword e); injection Hmsg as <- <- <-; auto. }
  clear Hmsg. destruct Hflag as (Hflag & -> & ->).
  destruct flag.
  - split; [destruct err; cbn in Hflag; first [reflexivity | discriminate Hflag]|].
    unfold udisksMountBottle in Hm. rewrite bind_unfold in Hm.
    destruct (AbsM bottle s) as [[realPath|e0] s0] eqn:Ha; cbn [fst snd] in Hm;
      [|injection Hm as <- _; apply AbsM_Err in Ha; congruence].
    apply (Emits_log _ _ _ _ (Emits_AbsM anyEvent bottle eq_refl)) in Ha.
    destruct Ha as (evs0 & L0).
    rewrite bind_unfold in Hm.
    destruct (checkMounted realPath s0) as [i0 s2] eqn:Hc. cbn [fst snd] in Hm.
    apply (Emits_log _ _ _ _ (checkMounted_any realPath)) in Hc.
    destruct Hc as (evs1 & L1).
    destruct (negb (isEmpty (MountPoint i0))); [discriminate|].
    rewrite bind_unfold in Hm.
    destruct (setupLoop i0 s2) as [[i1|e1] s3] eqn:Hl; cbn [fst snd] in Hm.
    + apply (Emits_log _ _ _ _ (setupLoop_any i0)) in Hl.
      destruct Hl as (evs2 & L2).
      rewrite bind_unfold in Hm.
      destruct (unlockIfNeeded i1 password s3) as [[i2|e2] s4] eqn:Hu;
        cbn [fst snd] in Hm.
      * apply mountIfNeeded_Err in Hm. congruence.
      * injection Hm as <- <-.
        destruct (unlockIfNeeded_Err _ _ _ _ _ Hu Hflag) as (r & L3 & Hok & Hw).
        exists (evs0 ++ evs1 ++ evs2), (LoopDevice i1), r.
        rewrite L3, L2, L1, L0, <- !app_assoc. auto.
    + injection Hm as <- <-. apply setupLoop_Err in Hl. congruence.
  - intros ->. discriminate Hflag.
Qed.

(** The assertion helper is the only program [GetFIDO2Secret] runs. *)
Definition onlyAssert (ev : Event) : bool :=
  match ev with
  | EvExec c _ => String.eqb (List.hd "" (argv c)) "fido2-assert"
  | _ => true
  end.

Lemma GetFIDO2Secret_onlyAssert (device bottleID credID salt : string) :
  Emits onlyAssert (GetFIDO2Secret device bottleID credID salt).
Proof. unfold GetFIDO2Secret, Chmod. emits. Qed.

(** When the authenticator does not yield a secret, the hardware-key
    mount command reports that failure and nothing is set up or
    unlocked: the only program run is [fido2-assert]. *)
Theorem failed_assertion_unlocks_nothing
  (bottle device bottleID credID salt : string) (s s1 : St E) (err : error) :
  GetFIDO2Secret device bottleID credID salt s = (Err err, s1) ->
  mountBottleFIDO2Cmd bottle device bottleID credID salt s =
    (fido2UnlockFailedMsg err, s1) /\
  exists evs, log s1 = log s ++ evs /\
    forall c r, In (EvExec c r) evs -> List.hd "" (argv c) = "fido2-assert".
Proof.
  intros Hg. split.
  - unfold mountBottleFIDO2Cmd. rewrite (bind_run _ _ _ _ _ Hg). reflexivity.
  - destruct (GetFIDO2Secret_onlyAssert _ _ _ _ _ _ _ Hg) as (evs & L & Q).
    exists evs. split; [exact L|]. intros c r Hin.
    rewrite forallb_forall in Q. apply Q in Hin. apply String.eqb_eq, Hin.
Qed.

End Reports.

Lemma wrong_password_flag_means_refused_unlock_witness :
  let s := Sim.start
    [Sim.good ""; Sim.good "Mapped file /home/u/x.bottle as /dev/loop3.";
     Sim.bad "Error unlocking /dev/loop3: Failed to activate device"] in
  let run := Commands.mountBottleCmd "x.bottle" "pw" s in
  fst run = Commands.mountFailedMsg Host.errWrongPassword true /\
  exists evs loopDev r,
    Host.log (snd run) =
      Host.log s ++ evs ++ [Host.EvExec (Mount.unlockCmd "pw" loopDev) r] /\
    Host.ok r = false /\ Mount.wrongKeyText (Host.out r) = true.
Proof.
  intros s run. split; [by_eval|].
  apply (wrong_password_flag_means_refused_unlock "x.bottle" "pw" s (snd run)
           Host.errWrongPassword true).
  by_eval.
Defined.

Lemma failed_assertion_unlocks_nothing_witness :
  let s := Sim.start [Sim.bad "fido2-assert: no device"] in
  let err := Host.fmtError "fido2-assert failed: fido2-assert: no device" in
  let got := Fido2.GetFIDO2Secret "/dev/hidraw3" "id" "cred" "salt" s in
  Commands.mountBottleFIDO2Cmd "x.bottle" "/dev/hidraw3" "id" "cred" "salt" s =
    (Commands.fido2UnlockFailedMsg err, snd got) /\
  exists evs, Host.log (snd got) = Host.log s ++ evs /\
    forall c r, In (Host.EvExec c r) evs ->
                List.hd "" (Host.argv c) = "fido2-assert".
Proof.
  intros s err got.
  apply (failed_assertion_unlocks_nothing "x.bottle" "/dev/hidraw3" "id" "cred"
           "salt" s (snd got) err).
  by_eval.
Defined.

(** ** Running an application from the command line *)
Section CommandLine.
Import Host Locator Permissions Bottle Mount Flatpak Main.
Context {D : Dirs} {U : Unicode} {E : Type} `{Host E}.

Definition notFlatpak (ev : Event) : bool :=
  match ev with
  | EvExec c _ => negb (String.eqb (List.hd "" (argv c)) "flatpak")
  | _ => true
  end.

Lemma getConfigPath_notFlatpak (bottle : string) :
  Emits notFlatpak (getConfigPath bottle).
Proof. unfold getConfigPath, getBottleHash, AbsM. emits. Qed.

Lemma loadPermissions_notFlatpak (path : string) :
  Emits notFlatpak (loadPermissions path).
Proof. unfold loadPermissions. emits. Qed.

Lemma udisksMountBottle_notFlatpak (bottle : string) :
  Emits notFlatpak (udisksMountBottle bottle "").
Proof.
  unfold udisksMountBottle, checkMounted, findLoopForFile, findCleartextForLoop,
    findMountForDevice, AbsM, setupLoop, unlockIfNeeded, mountIfNeeded.
  emits.
Qed.

Lemma makeDirs_notFlatpak (mountPoint : string) (dirs : list string) :
  Emits notFlatpak (makeDirs (E := E) mountPoint dirs).
Proof.
  induction dirs as [|d dirs IH]; cbn [makeDirs]; unfold MkdirAll; emits.
Qed.

(** On a [MountInfo] with a mount point and a cleartext device, the
    unmount sequence starts with the sync and the unmount. *)
Lemma unmount_begins (info : MountInfo) (s s' : St E) (res : option error) :
  MountPoint info <> "" -> CleartextDevice info <> "" ->
  udisksUnmountBottle (Some info) s = (res, s') ->
  exists r1 r2 post,
    log s' = log s ++ EvExec (syncCmd (MountPoint info)) r1
                   :: EvExec (unmountCmd (CleartextDevice info)) r2 :: post /\
    forallb notFlatpak post = true.
Proof.
  intros Hmp Hcd Hrun. apply isEmpty_false in Hmp, Hcd.
  pose proof (log_start s) as HL.
  unfold udisksUnmountBottle, UnmountRetryCount in Hrun.
  rewrite Hmp, Hcd in Hrun.
  cbn [lockRetry Nat.ltb Nat.leb negb] in Hrun.
  repeat run_step Hrun HL.
  all: cbn [fst snd] in *; try discriminate.
  all: eexists _, _, _; split; [exact HL | reflexivity].
Qed.

(** [cmdRun] either reports an error without having started the
    application, or starts it exactly once, sandboxed on the mount point of
    a mount that succeeded; in that case, whatever the application
    returns, the file system is synced and the unmount attempted right
    after it, and the result of [cmdRun] is the application's. *)
Theorem cmdRun_unmounts_after_the_app
  (bottle appID : string) (extraArgs : list string)
  (s s' : St E) (res : option error) :
  cmdRun bottle appID extraArgs s = (res, s') ->
  exists evs, log s' = log s ++ evs /\
    ((forallb notFlatpak evs = true /\ exists err, res = Some err) \/
     exists pre info perms r r1 r2 post,
       evs = pre ++
             [EvExec (flatpakCmd (buildFlatpakArgs appID (MountPoint info)
                                    perms extraArgs)) r;
              EvExec (syncCmd (MountPoint info)) r1;
              EvExec (unmountCmd (CleartextDevice info)) r2] ++ post /\
       forallb notFlatpak pre = true /\ forallb notFlatpak post = true /\
       MountPoint info <> "" /\ CleartextDevice info <> "" /\
       res = (if ok r then None else Some (osError (errText r)))).
Proof.
  unfold cmdRun. rewrite bind_unfold.
  destruct (getConfigPath bottle s) as [configPath s0] eqn:Hg. cbn [fst snd].
  destruct (getConfigPath_notFlatpak _ _ _ _ Hg) as (e0 & L0 & Q0).
  rewrite bind_unfold.
  destruct (loadPermissions configPath s0) as [perms s1] eqn:Hp. cbn [fst snd].
  destruct (loadPermissions_notFlatpak _ _ _ _ Hp) as (e1 & L1 & Q1).
  rewrite bind_unfold.
  destruct (udisksMountBottle bottle "" s1) as [[info|err] s2] eqn:Hm;
    cbn [fst snd].
  - destruct (udisksMountBottle_notFlatpak _ _ _ _ Hm) as (e2 & L2 & Q2).
    destruct (udisksMountBottle_Ok_fields bottle "" s1 s2 info Hm)
      as (_ & Hcd & Hmp & _).
    unfold runFlatpakApp. rewrite !bind_assoc, bind_unfold.
    destruct (makeDirs _ _ s2) as [u s3] eqn:Hd. cbn [fst snd].
    destruct (makeDirs_notFlatpak _ _ _ _ _ Hd) as (e3 & L3 & Q3).
    rewrite bind_assoc, bind_unfold.
    destruct (exec (flatpakCmd (buildFlatpakArgs appID (MountPoint info)
                                  perms extraArgs)) s3) as [r s4] eqn:Hx.
    cbn [fst snd]. apply exec_log in Hx. rewrite bind_ret, bind_unfold.
    destruct (udisksUnmountBottle (Some info) s4) as [ur s5] eqn:Hu.
    cbn [fst snd]. intros [= <- <-].
    destruct (unmount_begins info s4 s5 ur Hmp Hcd Hu) as (r1 & r2 & post & L5 & Q5).
    exists (e0 ++ e1 ++ e2 ++ e3 ++
            [EvExec (flatpakCmd (buildFlatpakArgs appID (MountPoint info)
                                   perms extraArgs)) r;
             EvExec (syncCmd (MountPoint info)) r1;
             EvExec (unmountCmd (CleartextDevice info)) r2] ++ post).
    split.
    + rewrite L5, Hx, L3, L2, L1, L0, <- !app_assoc. reflexivity.
    + right. exists (e0 ++ e1 ++ e2 ++ e3), info, perms, r, r1, r2, post.
      rewrite !forallb_app, Q0, Q1, Q2, Q3, Q5, <- !app_assoc.
      repeat split; auto.
  - destruct (udisksMountBottle_notFlatpak _ _ _ _ Hm) as (e2 & L2 & Q2).
    intros [= <- <-]. exists (e0 ++ e1 ++ e2). split.
    + rewrite L2, L1, L0, <- !app_assoc. reflexivity.
    + left. rewrite !forallb_app, Q0, Q1, Q2. eauto.
Qed.

Lemma JoinPath_share (mountPoint : string) :
  GoPath.JoinPath [mountPoint; ".local"; "share"] =
  GoPath.JoinPath [mountPoint; ".local/share"].
Proof.
  unfold GoPath.JoinPath. cbn [List.filter String.eqb negb Ascii.eqb Bool.eqb].
  destruct (String.eqb mountPoint ""); reflexivity.
Qed.

(** Before it starts the application, [runFlatpakApp] creates each of the
    four directories the sandbox is told to use through the [XDG_]
    variables; its result is that of the application. *)
Theorem run_creates_the_dirs_it_exports
  (appID mountPoint : string) (perms : Permissions) (extraArgs : list string)
  (s s' : St E) (res : option error) :
  runFlatpakApp appID mountPoint perms extraArgs s = (res, s') ->
  let args := buildFlatpakArgs appID mountPoint perms extraArgs in
  exists dirs r,
    log s' = log s ++ map EvMkdirAll dirs ++ [EvExec (flatpakCmd args) r] /\
    res = (if ok r then None else Some (osError (errText r))) /\
    forall name,
      In name ["XDG_DATA_HOME"; "XDG_CONFIG_HOME"; "XDG_CACHE_HOME";
               "XDG_DOWNLOAD_DIR"] ->
      exists dir, In dir dirs /\ In ("--env=" +:+ name +:+ "=" +:+ dir) args.
Proof.
  intros Hrun args. subst args. unfold runFlatpakApp in Hrun.
  cbn [makeDirs] in Hrun. unfold MkdirAll in Hrun.
  pose proof (log_start s) as HL.
  repeat run_step Hrun HL.
  exists [GoPath.JoinPath [mountPoint; "Downloads"];
          GoPath.JoinPath [mountPoint; ".config"];
          GoPath.JoinPath [mountPoint; ".local/share"];
          GoPath.JoinPath [mountPoint; ".cache"]], r.
  split; [exact HL|].
  split; [reflexivity|].
  unfold buildFlatpakArgs. rewrite !app_if, <- !app_assoc.
  intros name [<-|[<-|[<-|[<-|[]]]]].
  - exists (GoPath.JoinPath [mountPoint; ".local/share"]). split; [cbn; tauto|].
    rewrite <- JoinPath_share.
    repeat first [ apply in_or_app; left; cbn; tauto | apply in_or_app; right ].
  - exists (GoPath.JoinPath [mountPoint; ".config"]). split; [cbn; tauto|].
    repeat first [ apply in_or_app; left; cbn; tauto | apply in_or_app; right ].
  - exists (GoPath.JoinPath [mountPoint; ".cache"]). split; [cbn; tauto|].
    repeat first [ apply in_or_app; left; cbn; tauto | apply in_or_app; right ].
  - exists (GoPath.JoinPath [mountPoint; "Downloads"]). split; [cbn; tauto|].
    repeat first [ apply in_or_app; left; cbn; tauto | apply in_or_app; right ].
Qed.

End CommandLine.

Lemma cmdRun_unmounts_after_the_app_witness :
  let s := Sim.start
    [Sim.good ""; Sim.good "Mapped file /home/u/x.bottle as /dev/loop3.";
     Sim.good "Unlocked /dev/loop3 as /dev/dm-2.";
     Sim.good "Mounted /dev/dm-2 at /run/media/u/x.";
     Sim.bad "exit status 1";
     Sim.good ""; Sim.good ""; Sim.good ""; Sim.good ""] in
  let run := Main.cmdRun "x.bottle" "org.keepassxc.KeePassXC" [] s in
  fst run = Some (Host.osError "exit status 1") /\
  exists evs, Host.log (snd run) = Host.log s ++ evs /\
    ((forallb notFlatpak evs = true /\ exists err, fst run = Some err) \/
     exists pre info perms r r1 r2 post,
       evs = pre ++
             [Host.EvExec (Flatpak.flatpakCmd
                 (Flatpak.buildFlatpakArgs "org.keepassxc.KeePassXC"
                    (Mount.MountPoint info) perms [])) r;
              Host.EvExec (syncCmd (Mount.MountPoint info)) r1;
              Host.EvExec (unmountCmd (Mount.CleartextDevice info)) r2] ++ post /\
       forallb notFlatpak pre = true /\ forallb notFlatpak post = true /\
       Mount.MountPoint info <> "" /\ Mount.CleartextDevice info <> "" /\
       fst run = (if Host.ok r then None
                  else Some (Host.osError (Host.errText r)))).
Proof.
  intros s run. split; [by_eval|].
  apply (cmdRun_unmounts_after_the_app "x.bottle" "org.keepassxc.KeePassXC" []
           s (snd run) (fst run)).
  by_eval.
Defined.

Lemma run_creates_the_dirs_it_exports_witness :
  let s := Sim.start [Sim.good ""] in
  let p := Permissions.defaultPermissions in
  let run := Flatpak.runFlatpakApp "org.app" "/run/media/u/x" p [] s in
  let args := Flatpak.buildFlatpakArgs "org.app" "/run/media/u/x" p [] in
  exists dirs r,
    Host.log (snd run) =
      Host.log s ++ map Host.EvMkdirAll dirs ++ [Host.EvExec (Flatpak.flatpakCmd args) r] /\
    fst run = (if Host.ok r then None else Some (Host.osError (Host.errText r))) /\
    forall name,
      In name ["XDG_DATA_HOME"; "XDG_CONFIG_HOME"; "XDG_CACHE_HOME";
               "XDG_DOWNLOAD_DIR"] ->
      exists dir, In dir dirs /\ In ("--env=" +:+ name +:+ "=" +:+ dir) args.
Proof.
  intros s p run args.
  apply (run_creates_the_dirs_it_exports "org.app" "/run/media/u/x" p [] s
           (snd run) (fst run)).
  by_eval.
Defined.

(** ** Creating over an existing bottle, and deleting *)
Section CreateDelete.
Import Host Locator Permissions Fido2 Bottle.
Context {D : Dirs} {U : Unicode} {E : Type} `{Host E}.

(** Neither creation function touches a bottle file that is already
    there: when [os.Stat] finds the file, the call ends with
    [errBottleExists] before any program is run, and the file system is
    as it was; the bottle keeps its content. *)
Theorem create_refuses_existing
  (bottle size password secret bottleID credID salt deviceHint content : string)
  (interactive : bool) (s : St E) :
  bottle <> "" -> size <> "" ->
  files s !! bottleFile bottle = Some content ->
  (exists s',
     createBottleBase bottle size password interactive s
       = (Some errBottleExists, s') /\
     files s' = files s /\ env s' = env s /\
     log s' = log s ++ [EvMkdirAll bottleDir; EvStat (bottleFile bottle)]) /\
  (String.length secret = 32 ->
   exists s',
     CreateBottleWithYubiKey bottle size secret bottleID credID salt deviceHint s
       = (Some errBottleExists, s') /\
     files s' = files s /\ env s' = env s /\
     log s' = log s ++ [EvStat (bottleFile bottle)]).
Proof.
  intros Hb Hs Hex. apply String.eqb_neq in Hb, Hs. split.
  - unfold createBottleBase, MkdirAll. rewrite Hb, Hs.
    unfold bind, note, Stat, ret, record. cbn [files env log].
    rewrite Hex, bool_decide_eq_true_2 by eauto.
    eexists. split; [reflexivity|]. cbn [files env log].
    rewrite <- app_assoc. auto.
  - intros Hlen. unfold CreateBottleWithYubiKey. rewrite Hb, Hs, Hlen.
    cbn [Nat.eqb negb].
    unfold bind, Stat, ret, record.
    rewrite Hex, bool_decide_eq_true_2 by eauto.
    eexists. split; [reflexivity|]. auto.
Qed.

(** The config file of a bottle lies in the config directory and is named
    by twelve characters and [.conf]. *)
Definition isConfigName (cfg : string) : Prop :=
  exists h, String.length h = 12 /\ cfg = GoPath.JoinPath [configDir; h +:+ ".conf"].

Lemma getConfigPath_run (bottle : string) (s s' : St E) (cfg : string) :
  getConfigPath bottle s = (cfg, s') ->
  isConfigName cfg /\ files s' = files s.
Proof.
  unfold getConfigPath, getBottleHash, isConfigName.
  rewrite !bind_assoc, bind_unfold.
  destruct (AbsM bottle s) as [a s0] eqn:Ha. cbn [fst snd].
  intros [= <- <-]. split.
  - eexists. split; [apply length_hashPath | reflexivity].
  - unfold AbsM in Ha. destruct (GoPath.IsAbs bottle).
    + injection Ha as _ <-. reflexivity.
    + rewrite bind_unfold in Ha. destruct (ask EvGetwd s) as [r s1] eqn:Hk.
      apply ask_log in Hk. cbn [fst snd] in Ha. injection Ha as _ <-.
      apply Hk.
Qed.

(** The config path depends on the host only, not on the files. *)
Lemma getConfigPath_env (bottle : string) (s t : St E) :
  env s = env t -> fst (getConfigPath bottle s) = fst (getConfigPath bottle t).
Proof.
  intros He. unfold getConfigPath, getBottleHash, AbsM.
  destruct (GoPath.IsAbs bottle); [reflexivity|].
  unfold bind, ask, ret. rewrite He.
  destruct (sys EvGetwd (env t)) as [r e]. reflexivity.
Qed.

(** A bottle that is not attached is deleted together with the config
    file [getConfigPath] names for it, and no other file is removed.
    When there is no bottle file to remove, an error is returned and the
    config file stays. *)
Theorem delete_removes_bottle_and_config
  (bottle : string) (s s1 s' : St E) (res : option error) :
  findLoopForFile bottle s = ("", s1) ->
  deleteBottle bottle s = (res, s') ->
  match files s1 !! bottle with
  | Some _ =>
      res = None /\
      let cfg := fst (getConfigPath bottle s1) in
      isConfigName cfg /\ files s' = delete cfg (delete bottle (files s1))
  | None => (exists err, res = Some err) /\ files s' = files s1
  end.
Proof.
  intros Hl. unfold deleteBottle. rewrite (bind_run _ _ _ _ _ Hl).
  cbn [String.eqb negb]. unfold bind at 1. unfold Remove at 1.
  destruct (files s1 !! bottle) as [content|] eqn:Hb.
  - rewrite bind_unfold.
    destruct (getConfigPath bottle _) as [cfg s2] eqn:Hg. cbn [fst snd].
    assert (Hsame : fst (getConfigPath bottle s1) = cfg).
    { change cfg with (fst (cfg, s2)). rewrite <- Hg.
      apply getConfigPath_env. reflexivity. }
    apply getConfigPath_run in Hg. destruct Hg as [Hcfg Hf].
    unfold bind, Remove, ret. intros [= <- <-]. split; [reflexivity|].
    cbv zeta. rewrite Hsame. split; [exact Hcfg|].
    cbn [files] in *. rewrite Hf. reflexivity.
  - unfold ret. intros [= <- <-]. split; [eexists; reflexivity|].
    cbn [files]. apply delete_id, Hb.
Qed.

End CreateDelete.

Lemma create_refuses_existing_witness :
  let file := "/home/u/.local/share/bottles/x.bottle" in
  let s := Host.MkSt {[ file := "data" ]} (Sim.MkEnv [] 0) [] in
  fst (Bottle.createBottleBase "x" "500M" "pw" false s) = Some Host.errBottleExists /\
  Host.files (snd (Bottle.createBottleBase "x" "500M" "pw" false s)) = Host.files s.
Proof.
  intros file s.
  destruct (create_refuses_existing "x" "500M" "pw" "" "" "" "" "" "data" false s)
    as [(s' & Hrun & Hfiles & _) _];
    [discriminate | discriminate | by_eval |].
  rewrite Hrun. split; [reflexivity | exact Hfiles].
Defined.

Lemma delete_removes_bottle_and_config_witness :
  let file := "/home/u/.local/share/bottles/x.bottle" in
  let s := Host.MkSt {[ file := "data" ]} (Sim.MkEnv [Sim.good ""] 0) [] in
  let run := Bottle.deleteBottle file s in
  fst run = None /\ Host.files (snd run) !! file = None.
Proof.
  intros file s run.
  pose proof (delete_removes_bottle_and_config file s
                (snd (Locator.findLoopForFile file s)) (snd run) (fst run)) as Hd.
  assert (Hfile : Host.files (snd (Locator.findLoopForFile file s)) !! file
                  = Some "data") by by_eval.
  rewrite Hfile in Hd.
  destruct Hd as (Hres & _ & Hfiles); [by_eval | by_eval |].
  split; [exact Hres|]. rewrite Hfiles.
  apply lookup_delete_None. right. apply lookup_delete_eq.
Defined.

(** ** Listing the authenticators *)
Section Enumerate.
Import GoStrings Host Fido2.
Context {E : Type} `{Host E}.

(** A text that starts and ends with an ASCII character that is not
    white space. *)
Definition solidEnds (s : string) : Prop :=
  (exists c r, s = String c r /\ solid c = true) /\
  (exists x d, s = x +:+ String d "" /\ solid d = true).

Lemma TrimSpace_solidEnds (s : string) : solidEnds s -> TrimSpace s = s.
Proof.
  intros [(c & r & -> & Hc) (x & d & Hx & Hd)]. unfold TrimSpace.
  rewrite trimLeftSpace_solid by exact Hc. rewrite Hx.
  apply trimRightSpace_solid_end, Hd.
Qed.

Lemma cut_at (sep : ascii) (k v : string) :
  IndexByte k sep = None -> cut sep (k +:+ String sep v) = Some (k, v).
Proof.
  induction k as [|c k IH].
  - intros _. rewrite append_nil. cbn [cut]. rewrite Ascii.eqb_refl. reflexivity.
  - cbn [IndexByte]. rewrite append_cons. cbn [cut].
    destruct (Ascii.eqb c sep); [discriminate|].
    destruct (IndexByte k sep); [discriminate|]. intros _.
    rewrite IH by reflexivity. reflexivity.
Qed.

Lemma cut_Some (sep : ascii) (s a b : string) :
  cut sep s = Some (a, b) -> IndexByte a sep = None.
Proof.
  revert a b. induction s as [|c s IH]; intros a b; cbn [cut]; [discriminate|].
  destruct (Ascii.eqb c sep) eqn:Hc.
  - intros [= <- _]. reflexivity.
  - destruct (cut sep s) as [[a' b']|]; [|discriminate].
    intros [= <- _]. cbn [IndexByte]. rewrite Hc, (IH a' b' eq_refl). reflexivity.
Qed.

Lemma cut_None (sep : ascii) (s : string) :
  cut sep s = None -> IndexByte s sep = None.
Proof.
  induction s as [|c s IH]; cbn [cut IndexByte]; [reflexivity|].
  destruct (Ascii.eqb c sep); [discriminate|].
  destruct (cut sep s) as [[a b]|]; [discriminate|].
  intros _. rewrite IH; reflexivity.
Qed.

(** Trimming keeps a text free of a character it did not contain. *)
Lemma IndexByte_tail (c : ascii) (a : ascii) (s : string) :
  IndexByte (String a s) c = None -> IndexByte s c = None.
Proof.
  cbn [IndexByte]. destruct (Ascii.eqb a c); [discriminate|].
  destruct (IndexByte s c); [discriminate | reflexivity].
Qed.

Lemma trimLeftSpace_free (c : ascii) (s : string) :
  IndexByte s c = None -> IndexByte (trimLeftSpace s) c = None.
Proof.
  assert (Hgen : forall n s, String.length s <= n ->
            IndexByte s c = None -> IndexByte (trimLeftSpace s) c = None).
  { clear s. induction n as [|n IH]; intros [|a r] Hn Hs;
      try reflexivity; cbn [String.length] in Hn; [lia|].
    cbn [trimLeftSpace].
    pose proof (IndexByte_tail _ _ _ Hs) as Hr.
    destruct (spaceWidth (String a r)) as [|[|[|w]]]; [exact Hs| | |].
    - apply IH; [lia | exact Hr].
    - destruct r as [|b r2]; [exact Hs|].
      apply IH; [cbn [String.length] in Hn; lia|].
      apply (IndexByte_tail _ _ _ Hr).
    - destruct r as [|b [|b2 r3]]; try exact Hs.
      apply IH; [cbn [String.length] in Hn; lia|].
      apply (IndexByte_tail _ _ _ (IndexByte_tail _ _ _ Hr)). }
  apply (Hgen (String.length s)). lia.
Qed.

Lemma trimRightSpace_free (c : ascii) (s : string) :
  IndexByte s c = None -> IndexByte (trimRightSpace s) c = None.
Proof.
  induction s as [|a r IH]; [reflexivity|]. intros Hs.
  pose proof (IndexByte_tail _ _ _ Hs) as Hr.
  cbn [trimRightSpace]. destruct (isSpaceRune _); [reflexivity|].
  cbn [IndexByte] in *. destruct (Ascii.eqb a c); [discriminate|].
  rewrite (IH Hr). reflexivity.
Qed.

Lemma TrimSpace_free (c : ascii) (s : string) :
  IndexByte s c = None -> IndexByte (TrimSpace s) c = None.
Proof. intros Hs. apply trimRightSpace_free, trimLeftSpace_free, Hs. Qed.

(** A line of [fido2-token -L]: the device path, a colon, the
    description. *)
Definition deviceLine (d : FIDO2Device) : string :=
  Path d +:+ ": " +:+ Description d.

(** A device whose line reads back: the path has no colon, and path and
    description are single-line texts with solid ends. *)
Definition listed (d : FIDO2Device) : Prop :=
  solidEnds (Path d) /\ IndexByte (Path d) ":" = None /\ noLF (Path d) /\
  solidEnds (Description d) /\ noLF (Description d).

Definition blank (line : string) : bool := String.eqb (TrimSpace line) "".

Lemma parseDevices_shape (lines : list string) :
  length (parseDevices lines) = length (List.filter (fun l => negb (blank l)) lines) /\
  Forall (fun d => IndexByte (Path d) ":" = None) (parseDevices lines).
Proof.
  induction lines as [|l lines [IHl IHf]]; [split; [reflexivity|constructor]|].
  cbn [parseDevices List.filter]. unfold blank at 1.
  destruct (String.eqb (TrimSpace l) ""); cbn [negb]; [auto|].
  destruct (cut ":" (TrimSpace l)) as [[a b]|] eqn:Hc; cbn [length]; split;
    try (rewrite IHl; reflexivity); constructor; try exact IHf; cbn [Path].
  - apply TrimSpace_free, (cut_Some _ _ _ _ Hc).
  - apply TrimSpace_free, (cut_None _ _ Hc).
Qed.

Lemma parseDevices_line (d : FIDO2Device) (rest : list string) :
  listed d -> parseDevices (deviceLine d :: rest) = d :: parseDevices rest.
Proof.
  intros (Hp & Hcolon & _ & Hd & _). destruct d as [p desc].
  cbn [Path Description] in *. unfold deviceLine. cbn [Path Description parseDevices].
  assert (Hline : TrimSpace (p +:+ ": " +:+ desc) = p +:+ ": " +:+ desc).
  { apply TrimSpace_solidEnds.
    destruct Hp as [(c & r & -> & Hc) _]. destruct Hd as [_ (x & e & -> & He)].
    split.
    - exists c, (r +:+ ": " +:+ x +:+ String e ""). rewrite append_cons. auto.
    - exists (String c r +:+ ": " +:+ x), e.
      rewrite !append_assoc. auto. }
  rewrite Hline.
  assert (Hne : String.eqb (p +:+ ": " +:+ desc) "" = false).
  { destruct Hp as [(c & r & -> & _) _]. rewrite append_cons. reflexivity. }
  rewrite Hne.
  change (p +:+ ": " +:+ desc) with (p +:+ String ":" (String " " desc)).
  rewrite (cut_at ":" p _ Hcolon).
  rewrite (TrimSpace_solidEnds p Hp).
  assert (Hdesc : TrimSpace (String " " desc) = desc).
  { unfold TrimSpace. cbn [trimLeftSpace spaceWidth isAsciiSpace inRange isByte
                           code N_of_ascii N.leb N.eqb andb orb].
    change (trimRightSpace (trimLeftSpace desc) = desc).
    apply TrimSpace_solidEnds, Hd. }
  rewrite Hdesc. reflexivity.
Qed.

Lemma parseDevices_listing (devices : list FIDO2Device) :
  Forall listed devices ->
  parseDevices (Split LF (joinLines (map deviceLine devices))) = devices.
Proof.
  intros Hall. rewrite Split_joinLines.
  - induction Hall as [|d ds Hd _ IH]; [reflexivity|].
    cbn [map app]. rewrite (parseDevices_line d _ Hd), IH. reflexivity.
  - apply Forall_map. eapply Forall_impl; [exact Hall|].
    intros d (_ & _ & Hp & _ & Hdn). unfold deviceLine.
    apply noLF_append; [exact Hp|].
    apply noLF_append; [reflexivity | exact Hdn].
Qed.

(** [EnumerateFIDO2Devices] fails when [fido2-token -L] fails.  Otherwise
    it returns one device per line that is not blank, in order, and no
    device path holds a colon; in particular a listing of lines
    [path: description] is read back as the devices it shows. *)
Theorem enumerate_reads_the_listing (s s' : St E) (r : Reply) :
  exec (MkCmd ["fido2-token"; "-L"] None Output) s = (r, s') ->
  (ok r = false ->
   EnumerateFIDO2Devices s =
     (Err (wrapError "fido2-token -L failed: " (osError (errText r))), s')) /\
  (ok r = true ->
   exists devices,
     EnumerateFIDO2Devices s = (Ok devices, s') /\
     length devices =
       length (List.filter (fun l => negb (blank l)) (Split LF (out r))) /\
     Forall (fun d => IndexByte (Path d) ":" = None) devices /\
     forall shown, Forall listed shown ->
       out r = joinLines (map deviceLine shown) -> devices = shown).
Proof.
  intros Hx. unfold EnumerateFIDO2Devices. rewrite (bind_run _ _ _ _ _ Hx).
  split; intros Hok; rewrite Hok; cbn [negb]; [reflexivity|].
  eexists. split; [reflexivity|].
  destruct (parseDevices_shape (Split LF (out r))) as [Hlen Hfree].
  split; [exact Hlen|]. split; [exact Hfree|].
  intros shown Hall ->. apply parseDevices_listing, Hall.
Qed.

End Enumerate.

Lemma enumerate_reads_the_listing_witness :
  let key := Fido2.MkFIDO2Device "/dev/hidraw3"
               "vendor=0x1050, product=0x0407 (Yubico YubiKey)" in
  let s := Sim.start [Sim.good (joinLines [deviceLine key])] in
  fst (Fido2.EnumerateFIDO2Devices s) = Host.Ok [key].
Proof.
  intros key s.
  pose (x := Host.exec (Host.MkCmd ["fido2-token"; "-L"] None Host.Output) s).
  destruct (enumerate_reads_the_listing s (snd x) (fst x)) as (_ & Hok);
    [by_eval|].
  destruct Hok as (devices & Hrun & _ & _ & Hshown); [by_eval|].
  rewrite Hrun. cbn [fst]. f_equal. apply Hshown; [|by_eval].
  repeat constructor.
  - exists "/"%char, "dev/hidraw3". split; reflexivity.
  - exists "/dev/hidraw", "3"%char. split; reflexivity.
  - exists "v"%char, "endor=0x1050, product=0x0407 (Yubico YubiKey)".
    split; reflexivity.
  - exists "vendor=0x1050, product=0x0407 (Yubico YubiKey", ")"%char.
    split; reflexivity.
Defined.

(** ** Creation gives back the devices it takes *)
Section Devices.
Import GoStrings Host Permissions Fido2 Bottle.
Context {D : Dirs} {U : Unicode} {E : Type} `{Host E}.

(** What a creation holds on to while it works. *)
Inductive Device :=
| Loop (dev : string)
| Mapper (name : string).

Definition deviceEqb (a b : Device) : bool :=
  match a, b with
  | Loop x, Loop y => String.eqb x y
  | Mapper x, Mapper y => String.eqb x y
  | _, _ => false
  end.

Lemma deviceEqb_eq (a b : Device) : deviceEqb a b = true <-> a = b.
Proof.
  destruct a, b; cbn; rewrite ?String.eqb_eq;
    split; intros Hq; try discriminate Hq; congruence.
Qed.

(** The device a command takes when it succeeds: the privileged
    [losetup --find --show -- file] attaches the loop device it prints,
    and the privileged [cryptsetup open ... name] creates the mapper
    [name]. *)
Definition takes (ev : Event) : option Device :=
  match ev with
  | EvExec c r =>
      match argv c with
      | [_; "losetup"; "--find"; "--show"; "--"; _] =>
          if ok r then Some (Loop (TrimSpace (out r))) else None
      | _ :: "cryptsetup" :: "open" :: rest =>
          if ok r then Some (Mapper (List.last rest "")) else None
      | _ => None
      end
  | _ => None
  end.

(** The device a command gives back: the privileged [losetup -d dev] and
    [cryptsetup close name].  The code does not look at their outcome. *)
Definition gives (ev : Event) : option Device :=
  match ev with
  | EvExec c _ =>
      match argv c with
      | [_; "losetup"; "-d"; dev] => Some (Loop dev)
      | [_; "cryptsetup"; "close"; name] => Some (Mapper name)
      | _ => None
      end
  | _ => None
  end.

(** The devices held after an event. *)
Definition hold (held : list Device) (ev : Event) : list Device :=
  match takes ev with
  | Some d => d :: held
  | None =>
      match gives ev with
      | Some d => List.filter (fun x => negb (deviceEqb x d)) held
      | None => held
      end
  end.

Definition neutral (ev : Event) : bool :=
  match takes ev, gives ev with
  | None, None => true
  | _, _ => false
  end.

Lemma hold_neutral (evs : list Event) (held : list Device) :
  forallb neutral evs = true -> fold_left hold evs held = held.
Proof.
  revert held. induction evs as [|ev evs IH]; intros held; [reflexivity|].
  cbn [forallb fold_left]. intros Hq. apply andb_true_iff in Hq.
  destruct Hq as [Hev Hq]. rewrite <- (IH held Hq) at 2. f_equal.
  unfold neutral in Hev. unfold hold.
  destruct (takes ev); [discriminate|]. destruct (gives ev); [discriminate|].
  reflexivity.
Qed.

(** Nothing is held at the end only if every device taken was given back
    later. *)
Lemma held_given_back (post : list Event) (held : list Device) (d : Device) :
  In d held -> fold_left hold post held = [] ->
  exists ev, In ev post /\ gives ev = Some d.
Proof.
  revert held. induction post as [|e post IH]; intros held Hin Hend.
  - cbn in Hend. subst held. destruct Hin.
  - cbn [fold_left] in Hend. unfold hold at 2 in Hend.
    destruct (takes e) as [x|].
    + destruct (IH (x :: held) (or_intror Hin) Hend) as (ev & Hev & Hg).
      exists ev. split; [right; exact Hev | exact Hg].
    + destruct (gives e) as [x|] eqn:Hge.
      * destruct (deviceEqb d x) eqn:Hdx.
        -- apply deviceEqb_eq in Hdx. subst x. exists e. split; [left; reflexivity | exact Hge].
        -- destruct (IH (List.filter (fun y => negb (deviceEqb y x)) held)) as (ev & Hev & Hg).
           ++ apply filter_In. split; [exact Hin|]. rewrite Hdx. reflexivity.
           ++ exact Hend.
           ++ exists ev. split; [right; exact Hev | exact Hg].
      * destruct (IH _ Hin Hend) as (ev & Hev & Hg).
        exists ev. split; [right; exact Hev | exact Hg].
Qed.

Lemma all_given_back (evs : list Event) :
  fold_left hold evs [] = [] ->
  forall pre ev post d,
    evs = pre ++ ev :: post -> takes ev = Some d ->
    exists ev', In ev' post /\ gives ev' = Some d.
Proof.
  intros Hend pre ev post d -> Ht.
  rewrite fold_left_app in Hend. cbn [fold_left] in Hend.
  unfold hold at 2 in Hend. rewrite Ht in Hend.
  eapply held_given_back; [|exact Hend]. left. reflexivity.
Qed.

(** In a run started with log [l0], the devices held are [held]. *)
Definition Held (l0 : list Event) (held : list Device) (s : St E) : Prop :=
  exists evs, log s = l0 ++ evs /\ fold_left hold evs [] = held.

Lemma Held_frame {A} (l0 : list Event) (held : list Device) (m : M E A) :
  Emits neutral m -> triple (Held l0 held) m (fun _ => Held l0 held).
Proof.
  intros Hm s a s' (evs & L & F) Hrun.
  destruct (Hm _ _ _ Hrun) as (evs' & L' & Q').
  exists (evs ++ evs'). rewrite L', L, <- app_assoc, fold_left_app, F.
  split; [reflexivity | apply hold_neutral, Q'].
Qed.

Lemma Held_exec (l0 : list Event) (held : list Device) (c : Cmd) :
  triple (Held l0 held) (exec c) (fun r => Held l0 (hold held (EvExec c r))).
Proof.
  intros s r s' (evs & L & F) Hrun. apply exec_log in Hrun.
  exists (evs ++ [EvExec c r]). rewrite Hrun, L, <- app_assoc, fold_left_app, F.
  auto.
Qed.

(** A privileged command and what follows it. *)
Lemma Held_priv {A} (l0 : list Event) (held : list Device)
  (name : string) (args : list string) (i : option string) (cap : Capture)
  (k : Reply -> M E A) (Q : A -> St E -> Prop) :
  (forall pv r,
     triple (Held l0 (hold held (EvExec (MkCmd (pv :: name :: args) i cap) r)))
            (k r) Q) ->
  triple (Held l0 held)
    (bind (privCmd name args) (fun av => bind (exec (MkCmd av i cap)) k)) Q.
Proof.
  intros Hk s a s' HI Hrun. rewrite bind_unfold in Hrun.
  destruct (privCmd name args s) as [av s1] eqn:Hp. cbn [fst snd] in Hrun.
  assert (HI1 : Held l0 held s1).
  { refine (Held_frame l0 held _ _ s av s1 HI Hp).
    apply Emits_privCmd. reflexivity. }
  assert (Hav : exists pv, av = pv :: name :: args).
  { unfold privCmd in Hp. rewrite bind_unfold in Hp.
    destruct (LookPath "pkexec" s) as [found s0]. cbn [fst snd] in Hp.
    destruct found; injection Hp as <- _; eauto. }
  destruct Hav as (pv & ->).
  rewrite bind_unfold in Hrun.
  destruct (exec _ s1) as [r s2] eqn:Hx. cbn [fst snd] in Hrun.
  exact (Hk pv r s2 a s' (Held_exec l0 held _ s1 r s2 HI1 Hx) Hrun).
Qed.

Lemma triple_assoc {A B C} (P : St E -> Prop) (m : M E A) (k1 : A -> M E B)
  (k2 : B -> M E C) (Q : C -> St E -> Prop) :
  triple P (bind m (fun a => bind (k1 a) k2)) Q ->
  triple P (bind (bind m k1) k2) Q.
Proof. intros Ht s c s' HP Hrun. rewrite bind_assoc in Hrun. eauto. Qed.

Lemma Held_runPriv {A} (l0 : list Event) (held : list Device)
  (name : string) (args : list string) (rest : M E A) (Q : A -> St E -> Prop) :
  (forall pv r,
     triple (Held l0 (hold held (EvExec (MkCmd (pv :: name :: args) None Run) r)))
            rest Q) ->
  triple (Held l0 held) (bind (runPriv name args) (fun _ => rest)) Q.
Proof.
  intros Hk s a s' HI Hrun. unfold runPriv in Hrun.
  rewrite bind_assoc in Hrun.
  refine (Held_priv l0 held name args None Run
            (fun r => bind (ret tt) (fun _ => rest)) Q _ s a s' HI _).
  - intros pv r s1 a1 s1' HI1 Hr. rewrite bind_ret in Hr.
    exact (Hk pv r s1 a1 s1' HI1 Hr).
  - rewrite bind_unfold in Hrun. rewrite bind_unfold.
    destruct (privCmd name args s) as [av s1]. cbn [fst snd] in *.
    rewrite bind_assoc in Hrun. exact Hrun.
Qed.

Lemma writeLines_neutral (tempPath : string) (lines : list string) :
  Emits neutral (writeLines tempPath lines).
Proof. induction lines as [|l lines IH]; cbn [writeLines]; emits. Qed.

Lemma savePermissionsAtomic_neutral (path : string) (p : Permissions) :
  Emits neutral (savePermissionsAtomic path p).
Proof.
  pose proof writeLines_neutral as Hw.
  unfold savePermissionsAtomic, MkdirAll, Sync, syncDir.
  apply Emits_bind; [emits|]. intros u.
  apply Emits_bind; [emits|]. intros [tempPath|err]; [|emits].
  apply Emits_bind; [apply Hw|]. intros w. emits.
Qed.

Lemma FormatBottleWithFIDO2_neutral (bottlePath secret : string) :
  Emits neutral (FormatBottleWithFIDO2 bottlePath secret).
Proof.
  unfold FormatBottleWithFIDO2, writeSecretToTempFile, Chmod, cryptsetupCmd.
  emits.
Qed.

Lemma getMapperName_neutral (bottle : string) : Emits neutral (getMapperName bottle).
Proof. unfold getMapperName, getBottleHash, AbsM. emits. Qed.

Lemma getConfigPath_neutral (bottle : string) : Emits neutral (getConfigPath bottle).
Proof. unfold getConfigPath, getBottleHash, AbsM. emits. Qed.

(** One more step of a run that neither takes nor gives a device. *)
Ltac held_quiet :=
  eapply triple_bind;
  [ apply Held_frame;
    first [ apply getMapperName_neutral | apply getConfigPath_neutral
          | apply savePermissionsAtomic_neutral
          | apply FormatBottleWithFIDO2_neutral
          | apply Emits_AbsM; reflexivity
          | unfold MkdirAll; emits ]
  | intros ? ].

Ltac held_done := apply triple_ret; intros ? Hs; exact Hs.

Ltac held_eval :=
  unfold hold, takes, gives;
  cbn [argv ok List.last List.filter deviceEqb negb];
  rewrite ?String.eqb_refl;
  cbn [List.filter negb].

Lemma createBottleBase_Held (l0 : list Event)
  (bottle size password : string) (interactive : bool) :
  triple (Held l0 []) (createBottleBase bottle size password interactive)
    (fun _ => Held l0 []).
Proof.
  unfold createBottleBase, cryptsetupCmd. cbv zeta.
  held_quiet.
  destruct (String.eqb bottle ""); [held_done|].
  destruct (String.eqb size ""); [held_done|].
  held_quiet. destruct a0; [held_done|].
  held_quiet. destruct a0 as [realPath|err]; [|held_done].
  held_quiet. rename a0 into mapperName.
  held_quiet. rename a0 into tr.
  destruct (negb (ok tr)); [held_done|].
  destruct (negb (String.eqb password ""));
    (apply Held_priv; intros pv1 fr; held_eval;
     destruct (negb (ok fr)); [held_quiet; held_done|];
     apply Held_priv; intros pv2 lr; held_eval; destruct (ok lr); cbn [negb];
       [|held_quiet; held_done];
     apply Held_priv; intros pv3 opr; held_eval; destruct (ok opr); cbn [negb];
       [|apply Held_runPriv; intros pv4 r4; held_eval; held_quiet; held_done];
     apply Held_priv; intros pv4 mk; held_eval;
     destruct (negb (ok mk));
       [ apply Held_runPriv; intros pv5 r5; held_eval;
         apply Held_runPriv; intros pv6 r6; held_eval;
         held_quiet; held_done
       | apply Held_runPriv; intros pv5 r5; held_eval;
         apply Held_runPriv; intros pv6 r6; held_eval; held_done ]).
Qed.

Lemma writeSecretToTempFile_neutral (secret prefix : string) :
  Emits neutral (writeSecretToTempFile secret prefix).
Proof. unfold writeSecretToTempFile, Chmod. emits. Qed.

Lemma OpenLUKSWithFIDO2_Held (l0 : list Event) (held : list Device)
  (loopDev mapperName secret : string) :
  triple (Held l0 held) (OpenLUKSWithFIDO2 loopDev mapperName secret)
    (fun res => Held l0 (match res with
                         | None => Mapper mapperName :: held
                         | Some _ => held
                         end)).
Proof.
  unfold OpenLUKSWithFIDO2, cryptsetupCmd.
  eapply triple_bind; [apply Held_frame, writeSecretToTempFile_neutral|].
  intros [keyPath|err]; [|held_done].
  apply Held_priv. intros pv r. held_eval.
  eapply triple_bind; [apply Held_frame; emits|]. intros u.
  destruct (ok r); cbn [negb]; held_done.
Qed.

Lemma CreateBottleWithYubiKey_Held (l0 : list Event)
  (bottle size secret bottleID credID salt deviceHint : string) :
  triple (Held l0 [])
    (CreateBottleWithYubiKey bottle size secret bottleID credID salt deviceHint)
    (fun _ => Held l0 []).
Proof.
  unfold CreateBottleWithYubiKey. cbv zeta.
  destruct (String.eqb bottle ""); [held_done|].
  destruct (String.eqb size ""); [held_done|].
  destruct (negb (String.length secret =? 32)); [held_done|].
  held_quiet. destruct a; [held_done|].
  held_quiet. destruct a as [realPath|err]; [|held_done].
  held_quiet. rename a into mapperName.
  held_quiet. rename a into configPath.
  held_quiet. rename a into tr.
  destruct (negb (ok tr)); [held_done|].
  held_quiet. destruct a as [err|]; [held_quiet; held_done|].
  held_quiet. destruct a as [err|]; [held_quiet; held_quiet; held_done|].
  apply Held_priv; intros pv2 lr; held_eval; destruct (ok lr); cbn [negb];
    [|held_quiet; held_quiet; held_done].
  eapply triple_bind; [apply OpenLUKSWithFIDO2_Held|].
  intros [err|].
  - apply Held_runPriv; intros pv4 r4; held_eval.
    held_quiet; held_quiet; held_done.
  - apply Held_priv; intros pv4 mk; held_eval.
    destruct (negb (ok mk)).
    + apply Held_runPriv; intros pv5 r5; held_eval.
      apply Held_runPriv; intros pv6 r6; held_eval.
      held_quiet; held_quiet; held_done.
    + apply Held_runPriv; intros pv5 r5; held_eval.
      apply Held_runPriv; intros pv6 r6; held_eval. held_done.
Qed.

(** Whatever the outcome, both creation functions give back what they
    took: after a loop device was attached the privileged [losetup -d] of
    that device is run, and after the mapper was opened the privileged
    [cryptsetup close] of that mapper is run, before the function
    returns. *)
Theorem create_gives_back_devices
  (bottle size password secret bottleID credID salt deviceHint : string)
  (interactive : bool) (s s' : St E) (res : option error) :
  createBottleBase bottle size password interactive s = (res, s') \/
  CreateBottleWithYubiKey bottle size secret bottleID credID salt deviceHint s
    = (res, s') ->
  exists evs, log s' = log s ++ evs /\
    forall pre ev post d,
      evs = pre ++ ev :: post -> takes ev = Some d ->
      exists ev', In ev' post /\ gives ev' = Some d.
Proof.
  assert (HI : Held (log s) [] s).
  { exists []. rewrite app_nil_r. auto. }
  intros [Hrun|Hrun].
  - destruct (createBottleBase_Held (log s) _ _ _ _ _ _ _ HI Hrun) as (evs & L & F).
    exists evs. split; [exact L|]. apply all_given_back, F.
  - destruct (CreateBottleWithYubiKey_Held (log s) _ _ _ _ _ _ _ _ _ _ HI Hrun)
      as (evs & L & F).
    exists evs. split; [exact L|]. apply all_given_back, F.
Qed.

End Devices.

Lemma create_gives_back_devices_witness :
  let s := Sim.start
    [Sim.good ""; Sim.good ""; Sim.good "/dev/loop5"; Sim.good "";
     Sim.bad "mkfs.ext4: failed"; Sim.good ""; Sim.good ""] in
  let run := Bottle.createBottleBase "x" "500M" "pw" false s in
  fst run = Some (Host.bottleError "mkfs" "mkfs.ext4: failed") /\
  omap takes (Host.log (snd run)) =
    [Loop "/dev/loop5"; Mapper "bottle-a5e544578777"] /\
  exists evs, Host.log (snd run) = Host.log s ++ evs /\
    forall pre ev post d,
      evs = pre ++ ev :: post -> takes ev = Some d ->
      exists ev', In ev' post /\ gives ev' = Some d.
Proof.
  intros s run. split; [by_eval|]. split; [by_eval|].
  apply (create_gives_back_devices "x" "500M" "pw" "" "" "" "" "" false
           s (snd run) (fst run)).
  left. by_eval.
Defined.

(** ** The checks before a creation *)
Section Checks.
Import Host Fido2.
Context {E : Type} `{Host E}.

(** The programs among [names] that are not installed. *)
Definition missing (found : string -> bool) (names : list string) : list string :=
  List.filter (fun n => negb (found n)) names.

Lemma LookPath_run (found : string -> bool) (name : string) (s : St E) :
  (forall n e, ok (fst (sys (EvLookPath n) e)) = found n) ->
  fst (LookPath name s) = found name.
Proof.
  intros Hf. unfold LookPath, bind, ask, ret.
  specialize (Hf name (env s)). destruct (sys _ (env s)). exact Hf.
Qed.

Lemma firstMissing_run (found : string -> bool) (names : list string) (s : St E) :
  (forall n e, ok (fst (sys (EvLookPath n) e)) = found n) ->
  fst (firstMissing names s) =
    match missing found names with
    | [] => None
    | n :: _ => Some (fmtError (n +:+ " not found - install libfido2"))
    end.
Proof.
  intros Hf. revert s. induction names as [|n names IH]; intros s; [reflexivity|].
  cbn [firstMissing missing List.filter]. rewrite bind_unfold.
  rewrite (LookPath_run found n s Hf).
  destruct (found n); cbn [negb]; [apply IH | reflexivity].
Qed.

(** On a host where a program is either installed or not:
    [CheckFIDO2Available] names the first of the three libfido2 tools
    that is missing, [CheckUdisksAvailable] passes exactly when
    [udisksctl] is installed and [CheckPrivilegeEscalation] exactly when
    [pkexec] or [sudo] is; and when the last check passes, the program
    [privCmd] puts in front of a privileged command is installed. *)
Theorem checks_find_what_is_missing (found : string -> bool)
  (name : string) (args : list string) (s : St E) :
  (forall n e, ok (fst (sys (EvLookPath n) e)) = found n) ->
  fst (CheckFIDO2Available s) =
    match missing found ["fido2-token"; "fido2-cred"; "fido2-assert"] with
    | [] => None
    | n :: _ => Some (fmtError (n +:+ " not found - install libfido2"))
    end /\
  (fst (CheckUdisksAvailable s) = None <-> found "udisksctl" = true) /\
  (fst (CheckPrivilegeEscalation s) = None <->
   found "pkexec" = true \/ found "sudo" = true) /\
  (found "pkexec" = true \/ found "sudo" = true ->
   exists pv, fst (privCmd name args s) = pv :: name :: args /\ found pv = true).
Proof.
  intros Hf. split; [apply firstMissing_run, Hf|]. split; [|split].
  - unfold CheckUdisksAvailable. rewrite bind_unfold, (LookPath_run found _ s Hf).
    destruct (found "udisksctl"); cbn; split; intros Hq;
      first [ reflexivity | discriminate Hq ].
  - unfold CheckPrivilegeEscalation.
    rewrite bind_unfold, (LookPath_run found _ s Hf).
    destruct (found "pkexec"); [cbn; intuition|].
    rewrite bind_unfold, (LookPath_run found _ _ Hf).
    destruct (found "sudo"); cbn; intuition discriminate.
  - intros Hany. unfold privCmd. rewrite bind_unfold, (LookPath_run found _ s Hf).
    destruct (found "pkexec") eqn:Hpk.
    + exists "pkexec". auto.
    + exists "sudo". destruct Hany as [Hq|Hq]; [discriminate Hq | auto].
Qed.

End Checks.

(** A host that has the programs [found] selects; every call succeeds. *)
Definition pathHost (found : string -> bool) : Host.Host unit :=
  {| Host.tool := fun c fs e => (Sim.good "", fs, e);
     Host.sys := fun ev e =>
       (match ev with
        | Host.EvLookPath n => Host.MkReply (found n) "" ""
        | _ => Sim.good ""
        end, e) |}.

Lemma checks_find_what_is_missing_witness :
  let found := fun n => negb (String.eqb n "fido2-cred" || String.eqb n "pkexec") in
  let s := Host.MkSt ∅ tt [] in
  fst (@Fido2.CheckFIDO2Available _ (pathHost found) s) =
    Some (Host.fmtError "fido2-cred not found - install libfido2") /\
  exists pv,
    fst (@Fido2.privCmd _ (pathHost found) "losetup" ["-d"; "/dev/loop3"] s) =
      pv :: "losetup" :: ["-d"; "/dev/loop3"] /\ found pv = true.
Proof.
  intros found s.
  destruct (@checks_find_what_is_missing _ (pathHost found) found
              "losetup" ["-d"; "/dev/loop3"] s (fun n e => eq_refl))
    as (Hfido & _ & _ & Hpriv).
  split; [rewrite Hfido; reflexivity|].
  apply Hpriv. right. reflexivity.
Defined.

(** ** A mount never tears down *)
Section NoTearDown.
Import Host Locator Fido2 Mount.
Context {E : Type} `{Host E}.






End NoTearDown.

